(** * wasmvm query protocol: [types/queries.go]

    A shallow embedding of the query envelope of wasmvm: the struct
    declarations of [queries.go] with their JSON tags, the two custom
    codecs ([QueryResult.MarshalJSON], [RawRangeEntry.MarshalJSON] and
    [RawRangeEntry.UnmarshalJSON]), the dispatcher [RustQuery] and the
    classifier [ToQuerierResult].

    The Go code delegates to [encoding/json]; the part of that package
    the file relies on (struct tags, [omitempty], base64 for [[]byte],
    [json.RawMessage], the Marshaler hook, the text format) is modelled
    first, then the declarations of [queries.go], then the properties.

    How [encoding/json] is modelled:
    - The reader returns, with every value, the text it was read from
      ([Json.node]): a [json.RawMessage] is the bytes of its member as
      they stand in the input, white space and escapes included.
    - The reader refuses text nested deeper than [maxNestingDepth]
      (10000 levels), as Go's scanner does.
    - The encoder returns text. What a [MarshalJSON] returns and the
      bytes of a [json.RawMessage] are checked to be JSON and written
      compacted, as [appendCompact] does it: white space outside
      strings dropped, the HTML characters and the line separators
      escaped, every other byte kept ([Json.squeeze]).
    - An error is told apart by its kind. The text of an
      [encoding/json] message is not modelled: the [Error] method of
      [error] is a variable of the development.

    Where the model is coarser than the package: the elements of a
    slice are decoded into zero values; Go decodes into the elements of
    a slice that is already there, which shows only when a key occurs
    twice in one object. *)

From Stdlib Require Import String Ascii List Bool NArith Arith Lia.

From Stdlib Require Import DecimalString DecimalN DecimalFacts.

Import ListNotations.

Open Scope string_scope.

Set Implicit Arguments.

(** * Go values and [encoding/json] *)

(** ** Go values *)

(** A Go [string] and the contents of a [[]byte] are byte sequences. A
    [[]byte] can moreover be [nil], which [encoding/json] tells apart from
    the empty slice ([null] against the empty JSON string). *)
Definition bytes := option string.

Definition len (b : bytes) : nat :=
  match b with
  | None => 0
  | Some s => String.length s
  end.

(** The content of a byte slice, [nil] and empty alike. *)
Definition content (b : bytes) : string :=
  match b with
  | None => ""
  | Some s => s
  end.

Definition dquote : ascii := "034"%char.

Definition backslash : ascii := "092"%char.

(** [quoted s] is [s] between two double quotes. *)
Definition quoted (s : string) : string := String dquote (s ++ String dquote "").

(** ** Errors *)

(** Go's [error] is an interface with one method. *)
Class GoError (E : Type) := Error : E -> string.

(** The errors raised inside this file: those of [encoding/json] and the
    one [fmt.Errorf] of [RawRangeEntry.UnmarshalJSON]. An error of
    [encoding/json] is told apart by its kind; the text its [Error]
    method returns is the package's and is taken as given wherever it
    reaches a result. *)
Inductive error :=
| SyntaxError
| UnmarshalTypeError (value type : string)
| CorruptInputError
| MarshalerError (type : string)
| Errorf (msg : string).

Inductive result (A : Type) :=
| ok (a : A)
| err (e : error).

Arguments ok {A} a.

Arguments err {A} e.

Definition bind {A B} (r : result A) (f : A -> result B) : result B :=
  match r with
  | ok a => f a
  | err e => err e
  end.

Notation "x <- c ;; k" := (bind c (fun x => k))
  (at level 61, c at next level, right associativity).

Definition fmap {A B} (f : A -> B) (r : result A) : result B :=
  x <- r ;; ok (f x).

Fixpoint mapM {A B} (f : A -> result B) (l : list A) : result (list B) :=
  match l with
  | [] => ok []
  | x :: r => y <- f x ;; ys <- mapM f r ;; ok (y :: ys)
  end.

(** ** UTF-8, as far as [encoding/json] looks at it *)

Module Utf8.

Definition byte_in (lo hi : N) (c : ascii) : bool :=
  (lo <=? N_of_ascii c)%N && (N_of_ascii c <=? hi)%N.

Definition is_ascii (c : ascii) : bool := (N_of_ascii c <? 0x80)%N.

(** The width of the encoding that starts [s]: 1 to 4 bytes, or 0 where
    [utf8.DecodeRune] answers [RuneError] (ill-formed or empty input). *)
Definition width (s : string) : nat :=
  match s with
  | "" => 0
  | String c0 r0 =>
      if is_ascii c0 then 1
      else if byte_in 0xC2 0xDF c0 then
        match r0 with
        | String c1 _ => if byte_in 0x80 0xBF c1 then 2 else 0
        | _ => 0
        end
      else if byte_in 0xE0 0xEF c0 then
        match r0 with
        | String c1 (String c2 _) =>
            if byte_in (if Ascii.eqb c0 "224" then 0xA0 else 0x80)
                       (if Ascii.eqb c0 "237" then 0x9F else 0xBF) c1
               && byte_in 0x80 0xBF c2
            then 3 else 0
        | _ => 0
        end
      else if byte_in 0xF0 0xF4 c0 then
        match r0 with
        | String c1 (String c2 (String c3 _)) =>
            if byte_in (if Ascii.eqb c0 "240" then 0x90 else 0x80)
                       (if Ascii.eqb c0 "244" then 0x8F else 0xBF) c1
               && byte_in 0x80 0xBF c2 && byte_in 0x80 0xBF c3
            then 4 else 0
        | _ => 0
        end
      else 0
  end.

(** Well-formed UTF-8 text. *)
Fixpoint valid (s : string) : bool :=
  match s with
  | "" => true
  | String _ r0 =>
      match width s with
      | 1 => valid r0
      | 2 => match r0 with String _ r1 => valid r1 | _ => false end
      | 3 => match r0 with String _ (String _ r2) => valid r2 | _ => false end
      | 4 => match r0 with
             | String _ (String _ (String _ r3)) => valid r3
             | _ => false
             end
      | _ => false
      end
  end.

Definition byte (n : N) : ascii := ascii_of_N n.

(** U+FFFD, which replaces whatever is ill-formed. *)
Definition replacement : string :=
  String (byte 0xEF) (String (byte 0xBF) (String (byte 0xBD) "")).

(** [utf8.EncodeRune]. *)
Definition encode_rune (r : N) : string :=
  if (r <? 0x80)%N then String (byte r) ""
  else if (r <? 0x800)%N then
    String (byte (0xC0 + r / 64)) (String (byte (0x80 + r mod 64)) "")
  else if (0xD800 <=? r)%N && (r <=? 0xDFFF)%N then replacement
  else if (r <? 0x10000)%N then
    String (byte (0xE0 + r / 4096))
      (String (byte (0x80 + (r / 64) mod 64))
         (String (byte (0x80 + r mod 64)) ""))
  else if (r <=? 0x10FFFF)%N then
    String (byte (0xF0 + r / 262144))
      (String (byte (0x80 + (r / 4096) mod 64))
         (String (byte (0x80 + (r / 64) mod 64))
            (String (byte (0x80 + r mod 64)) "")))
  else replacement.

End Utf8.

(** ** base64, standard alphabet with padding ([base64.StdEncoding]) *)

Module Base64.

Definition alphabet : string :=
  "ABCDEFGHIJKLMNOPQRSTUVWXYZabcdefghijklmnopqrstuvwxyz0123456789+/".

(** Six bits, most significant first. *)
Definition sextet : Type := bool * bool * bool * bool * bool * bool.

Definition index (x : sextet) : nat :=
  let '(b5, b4, b3, b2, b1, b0) := x in
  32 * Nat.b2n b5 + 16 * Nat.b2n b4 + 8 * Nat.b2n b3
  + 4 * Nat.b2n b2 + 2 * Nat.b2n b1 + Nat.b2n b0.

Definition enc_char (x : sextet) : ascii :=
  match String.get (index x) alphabet with
  | Some c => c
  | None => "="%char
  end.

Definition bools : list bool := [false; true].

Definition all_sextets : list sextet :=
  list_prod (list_prod (list_prod (list_prod (list_prod bools bools) bools)
                                  bools) bools) bools.

Definition dec_char (c : ascii) : option sextet :=
  find (fun x => Ascii.eqb (enc_char x) c) all_sextets.

Fixpoint encode (s : string) : string :=
  match s with
  | "" => ""
  | String (Ascii a0 a1 a2 a3 a4 a5 a6 a7) "" =>
      String (enc_char (a7, a6, a5, a4, a3, a2))
        (String (enc_char (a1, a0, false, false, false, false)) "==")
  | String (Ascii a0 a1 a2 a3 a4 a5 a6 a7)
      (String (Ascii b0 b1 b2 b3 b4 b5 b6 b7) "") =>
      String (enc_char (a7, a6, a5, a4, a3, a2))
        (String (enc_char (a1, a0, b7, b6, b5, b4))
           (String (enc_char (b3, b2, b1, b0, false, false)) "="))
  | String (Ascii a0 a1 a2 a3 a4 a5 a6 a7)
      (String (Ascii b0 b1 b2 b3 b4 b5 b6 b7)
         (String (Ascii c0 c1 c2 c3 c4 c5 c6 c7) r)) =>
      String (enc_char (a7, a6, a5, a4, a3, a2))
        (String (enc_char (a1, a0, b7, b6, b5, b4))
           (String (enc_char (b3, b2, b1, b0, c7, c6))
              (String (enc_char (c5, c4, c3, c2, c1, c0)) (encode r))))
  end.

(** The decoder skips carriage returns and line feeds. *)
Definition is_newline (c : ascii) : bool :=
  Ascii.eqb c "010"%char || Ascii.eqb c "013"%char.

Fixpoint strip_newlines (s : string) : string :=
  match s with
  | "" => ""
  | String c r =>
      if is_newline c then strip_newlines r else String c (strip_newlines r)
  end.

Definition is_pad (c : ascii) : bool := Ascii.eqb c "="%char.

Definition byte1 (x y : sextet) : ascii :=
  let '(x5, x4, x3, x2, x1, x0) := x in
  let '(y5, y4, _, _, _, _) := y in
  Ascii y4 y5 x0 x1 x2 x3 x4 x5.

Definition byte2 (y z : sextet) : ascii :=
  let '(_, _, y3, y2, y1, y0) := y in
  let '(z5, z4, z3, z2, _, _) := z in
  Ascii z2 z3 z4 z5 y0 y1 y2 y3.

Definition byte3 (z w : sextet) : ascii :=
  let '(_, _, _, _, z1, z0) := z in
  let '(w5, w4, w3, w2, w1, w0) := w in
  Ascii w0 w1 w2 w3 w4 w5 z0 z1.

(** Quantum by quantum; padding is required and only ends the input.
    Like Go's non-strict decoder, the unused low bits of the last
    character are not checked. *)
Fixpoint decode_quanta (s : string) : option string :=
  match s with
  | "" => Some ""
  | String c0 (String c1 (String c2 (String c3 r))) =>
      match dec_char c0, dec_char c1 with
      | Some x, Some y =>
          if is_pad c3 then
            match r with
            | "" =>
                if is_pad c2 then Some (String (byte1 x y) "")
                else
                  match dec_char c2 with
                  | Some z => Some (String (byte1 x y) (String (byte2 y z) ""))
                  | None => None
                  end
            | _ => None
            end
          else
            match dec_char c2, dec_char c3, decode_quanta r with
            | Some z, Some w, Some t =>
                Some (String (byte1 x y)
                        (String (byte2 y z) (String (byte3 z w) t)))
            | _, _, _ => None
            end
      | _, _ => None
      end
  | _ => None
  end.

Definition decode (s : string) : option string :=
  decode_quanta (strip_newlines s).

(** The encoding is ASCII text. *)
Fixpoint all_ascii (s : string) : bool :=
  match s with
  | "" => true
  | String c r => Utf8.is_ascii c && all_ascii r
  end.

End Base64.

(** ** JSON text: string literals *)

Module JsonString.

Definition hex_digit (n : N) : ascii :=
  match String.get (N.to_nat n) "0123456789abcdef" with
  | Some c => c
  | None => "0"%char
  end.

Definition hex_value (c : ascii) : option N :=
  let n := N_of_ascii c in
  if Utf8.byte_in 48 57 c then Some (n - 48)%N
  else if Utf8.byte_in 97 102 c then Some (n - 87)%N
  else if Utf8.byte_in 65 70 c then Some (n - 55)%N
  else None.

Definition hex4 (h1 h2 h3 h4 : ascii) : option N :=
  match hex_value h1, hex_value h2, hex_value h3, hex_value h4 with
  | Some a, Some b, Some c, Some d => Some (((a * 16 + b) * 16 + c) * 16 + d)%N
  | _, _, _, _ => None
  end.

Definition u_escape (n : N) : string :=
  String backslash
    (String "u"
       (String (hex_digit (n / 4096))
          (String (hex_digit ((n / 256) mod 16))
             (String (hex_digit ((n / 16) mod 16))
                (String (hex_digit (n mod 16)) ""))))).

(** How the encoder writes one ASCII byte ([appendString] with HTML
    escaping, the mode of [json.Marshal]; the short forms for backspace
    and form feed are those of Go 1.22 and later). *)
Definition escape_byte (c : ascii) : string :=
  let n := N_of_ascii c in
  if Ascii.eqb c dquote || Ascii.eqb c backslash then String backslash (String c "")
  else if (n =? 8)%N then String backslash "b"
  else if (n =? 12)%N then String backslash "f"
  else if (n =? 10)%N then String backslash "n"
  else if (n =? 13)%N then String backslash "r"
  else if (n =? 9)%N then String backslash "t"
  else if (n <? 32)%N || Ascii.eqb c "<" || Ascii.eqb c ">" || Ascii.eqb c "&"
  then u_escape n
  else String c "".

(** U+2028 and U+2029 are E2 80 A8 and E2 80 A9. *)
Definition line_sep (c0 c1 c2 : ascii) : option N :=
  if Ascii.eqb c0 "226" && Ascii.eqb c1 "128" then
    if Ascii.eqb c2 "168" then Some 0x2028%N
    else if Ascii.eqb c2 "169" then Some 0x2029%N
    else None
  else None.

(** The body of a string literal, without the quotes. *)
Fixpoint escape (s : string) : string :=
  match s with
  | "" => ""
  | String c0 r0 =>
      if Utf8.is_ascii c0 then escape_byte c0 ++ escape r0
      else
        match Utf8.width s, r0 with
        | 2, String c1 r1 => String c0 (String c1 (escape r1))
        | 3, String c1 (String c2 r2) =>
            match line_sep c0 c1 c2 with
            | Some n => u_escape n ++ escape r2
            | None => String c0 (String c1 (String c2 (escape r2)))
            end
        | 4, String c1 (String c2 (String c3 r3)) =>
            String c0 (String c1 (String c2 (String c3 (escape r3))))
        | _, _ => u_escape 0xFFFD ++ escape r0
        end
  end.

Definition literal (s : string) : string := quoted (escape s).

Definition prepend (p : string) (o : option (string * string))
  : option (string * string) :=
  match o with
  | Some (x, r) => Some (p ++ x, r)
  | None => None
  end.

Definition simple_escape (e : ascii) : option ascii :=
  if Ascii.eqb e dquote then Some dquote
  else if Ascii.eqb e backslash then Some backslash
  else if Ascii.eqb e "/" then Some "/"%char
  else if Ascii.eqb e "b" then Some "008"%char
  else if Ascii.eqb e "f" then Some "012"%char
  else if Ascii.eqb e "n" then Some "010"%char
  else if Ascii.eqb e "r" then Some "013"%char
  else if Ascii.eqb e "t" then Some "009"%char
  else None.

Definition is_surrogate (u : N) : bool := (0xD800 <=? u)%N && (u <? 0xE000)%N.

(** [utf16.DecodeRune]; [None] is its replacement-character answer. *)
Definition surrogate_pair (u1 u2 : N) : option N :=
  if (0xD800 <=? u1)%N && (u1 <? 0xDC00)%N
     && (0xDC00 <=? u2)%N && (u2 <? 0xE000)%N
  then Some ((u1 - 0xD800) * 1024 + (u2 - 0xDC00) + 0x10000)%N
  else None.

(** Reads a string literal after its opening quote: the text it denotes
    and what follows the closing quote. The scanner refuses raw control
    characters and unknown escapes; [unquote] replaces ill-formed UTF-8
    and unpaired surrogates by U+FFFD. *)
Fixpoint lex (s : string) : option (string * string) :=
  match s with
  | "" => None
  | String c0 r0 =>
      if Utf8.is_ascii c0 then
        if Ascii.eqb c0 dquote then Some ("", r0)
        else if Ascii.eqb c0 backslash then
          match r0 with
          | "" => None
          | String e r1 =>
              if Ascii.eqb e "u" then
                match r1 with
                | String h1 (String h2 (String h3 (String h4 r2))) =>
                    match hex4 h1 h2 h3 h4 with
                    | None => None
                    | Some u =>
                        if is_surrogate u then
                          match r2 with
                          | String k0 (String k1 (String k2 (String k3
                              (String k4 (String k5 r3))))) =>
                              match
                                (if Ascii.eqb k0 backslash && Ascii.eqb k1 "u"
                                 then match hex4 k2 k3 k4 k5 with
                                      | Some u2 => surrogate_pair u u2
                                      | None => None
                                      end
                                 else None)
                              with
                              | Some r => prepend (Utf8.encode_rune r) (lex r3)
                              | None => prepend Utf8.replacement (lex r2)
                              end
                          | _ => prepend Utf8.replacement (lex r2)
                          end
                        else prepend (Utf8.encode_rune u) (lex r2)
                    end
                | _ => None
                end
              else
                match simple_escape e with
                | Some c => prepend (String c "") (lex r1)
                | None => None
                end
          end
        else if (N_of_ascii c0 <? 32)%N then None
        else prepend (String c0 "") (lex r0)
      else
        match Utf8.width s, r0 with
        | 2, String c1 r1 => prepend (String c0 (String c1 "")) (lex r1)
        | 3, String c1 (String c2 r2) =>
            prepend (String c0 (String c1 (String c2 ""))) (lex r2)
        | 4, String c1 (String c2 (String c3 r3)) =>
            prepend (String c0 (String c1 (String c2 (String c3 "")))) (lex r3)
        | _, _ => prepend Utf8.replacement (lex r0)
        end
  end.

End JsonString.

(** ** JSON text: number literals *)

Module JsonNumber.

Definition is_digit (c : ascii) : bool := Utf8.byte_in 48 57 c.

Fixpoint span_digits (s : string) : string * string :=
  match s with
  | "" => ("", "")
  | String c r =>
      if is_digit c then
        let (d, t) := span_digits r in (String c d, t)
      else ("", s)
  end.

Definition lex_sign (s : string) : string * string :=
  match s with
  | String c r => if Ascii.eqb c "-" then ("-", r) else ("", s)
  | "" => ("", s)
  end.

(** [0], or a digit other than [0] followed by digits. *)
Definition lex_int (s : string) : option (string * string) :=
  match s with
  | "" => None
  | String c r =>
      if Ascii.eqb c "0" then Some ("0", r)
      else if is_digit c then
        let (d, t) := span_digits r in Some (String c d, t)
      else None
  end.

Definition nonempty_digits (p : string) (s : string)
  : option (string * string) :=
  match span_digits s with
  | ("", _) => None
  | (d, t) => Some (p ++ d, t)
  end.

Definition lex_frac (s : string) : option (string * string) :=
  match s with
  | "" => Some ("", s)
  | String c r =>
      if Ascii.eqb c "." then nonempty_digits "." r else Some ("", s)
  end.

Definition lex_exp (s : string) : option (string * string) :=
  match s with
  | "" => Some ("", s)
  | String c r =>
      if Ascii.eqb c "e" || Ascii.eqb c "E" then
        match r with
        | "" => None
        | String c' r' =>
            if Ascii.eqb c' "+" || Ascii.eqb c' "-"
            then nonempty_digits (String c (String c' "")) r'
            else nonempty_digits (String c "") r
        end
      else Some ("", s)
  end.

(** The longest number literal that starts [s], and what follows it. *)
Definition lex (s : string) : option (string * string) :=
  let (sg, s1) := lex_sign s in
  match lex_int s1 with
  | None => None
  | Some (i, s2) =>
      match lex_frac s2 with
      | None => None
      | Some (f, s3) =>
          match lex_exp s3 with
          | None => None
          | Some (e, s4) => Some (sg ++ i ++ f ++ e, s4)
          end
      end
  end.

(** A whole string that is one number literal. *)
Definition is_literal (s : string) : bool :=
  match lex s with
  | Some (_, "") => true
  | _ => false
  end.

(** *** Where a literal starts and ends *)

(** What may follow a number literal without extending it. *)
Definition number_end (rest : string) : bool :=
  match rest with
  | "" => true
  | String c _ =>
      negb (is_digit c || Ascii.eqb c "." || Ascii.eqb c "e" || Ascii.eqb c "E")
  end.

(** What a number literal starts with. *)
Definition number_start (c : ascii) : bool := is_digit c || Ascii.eqb c "-".

(** The characters that a number literal is made of. *)
Definition is_numeric (c : ascii) : bool :=
  is_digit c || Ascii.eqb c "-" || Ascii.eqb c "+" || Ascii.eqb c "."
  || Ascii.eqb c "e" || Ascii.eqb c "E".

Fixpoint all_numeric (s : string) : bool :=
  match s with
  | "" => true
  | String c r => is_numeric c && all_numeric r
  end.

End JsonNumber.

(** ** JSON values, their text and the reader *)

Module Json.

Unset Elimination Schemes.

Inductive value :=
| JNull
| JBool (b : bool)
| JNum (lit : string)
| JStr (s : string)
| JArr (l : list value)
| JObj (m : list (string * value)).

Set Elimination Schemes.

(** *** Compact text, as [json.Marshal] writes it *)

Fixpoint render (j : value) : string :=
  match j with
  | JNull => "null"
  | JBool true => "true"
  | JBool false => "false"
  | JNum lit => lit
  | JStr s => JsonString.literal s
  | JArr l =>
      match l with
      | [] => "[]"
      | x :: r =>
          "[" ++ render x
          ++ (fix tail (r : list value) : string :=
                match r with
                | [] => "]"
                | y :: r' => "," ++ render y ++ tail r'
                end) r
      end
  | JObj m =>
      match m with
      | [] => "{}"
      | (k, x) :: r =>
          "{" ++ JsonString.literal k ++ ":" ++ render x
          ++ (fix tail (r : list (string * value)) : string :=
                match r with
                | [] => "}"
                | (k', y) :: r' =>
                    "," ++ JsonString.literal k' ++ ":" ++ render y ++ tail r'
                end) r
      end
  end.

Fixpoint elems_tail (r : list value) : string :=
  match r with
  | [] => "]"
  | y :: r' => "," ++ render y ++ elems_tail r'
  end.

Fixpoint members_tail (r : list (string * value)) : string :=
  match r with
  | [] => "}"
  | (k, y) :: r' =>
      "," ++ JsonString.literal k ++ ":" ++ render y ++ members_tail r'
  end.

(** The same brackets, commas and colons around texts that are written
    already: the encoder appends the text of each element and of each
    member to its buffer. *)
Fixpoint array_tail (r : list string) : string :=
  match r with
  | [] => "]"
  | y :: r' => "," ++ y ++ array_tail r'
  end.

Definition array_text (l : list string) : string :=
  match l with
  | [] => "[]"
  | x :: r => "[" ++ x ++ array_tail r
  end.

Fixpoint object_tail (r : list (string * string)) : string :=
  match r with
  | [] => "}"
  | (k, y) :: r' => "," ++ JsonString.literal k ++ ":" ++ y ++ object_tail r'
  end.

Definition object_text (m : list (string * string)) : string :=
  match m with
  | [] => "{}"
  | (k, x) :: r => "{" ++ JsonString.literal k ++ ":" ++ x ++ object_tail r
  end.

(** *** Values as they stand in a text *)

(** The decoder works on the bytes of its input: a [json.RawMessage]
    and an [UnmarshalJSON] method are handed the bytes of the value
    they stand for, as they are in the input. So what the reader
    returns keeps, for every value, the text it was read from. *)
Inductive atom :=
| ANull
| ABool (b : bool)
| ANum (lit : string)
| AStr (s : string).

Unset Elimination Schemes.

Inductive node :=
| NAtom (text : string) (a : atom)
| NArr (text : string) (l : list node)
| NObj (text : string) (m : list (string * node)).

Set Elimination Schemes.

Definition value_of_atom (a : atom) : value :=
  match a with
  | ANull => JNull
  | ABool b => JBool b
  | ANum lit => JNum lit
  | AStr s => JStr s
  end.

(** The bytes of a value in the input, from its first character to its
    last. *)
Definition text (n : node) : string :=
  match n with
  | NAtom t _ | NArr t _ | NObj t _ => t
  end.

(** The value, without the text. *)
Fixpoint plain (n : node) : value :=
  match n with
  | NAtom _ a => value_of_atom a
  | NArr _ l => JArr (map plain l)
  | NObj _ m => JObj (map (fun kx => (fst kx, plain (snd kx))) m)
  end.

(** A value in the text that [render] gives it. *)
Fixpoint node_of (j : value) : node :=
  match j with
  | JNull => NAtom (render j) ANull
  | JBool b => NAtom (render j) (ABool b)
  | JNum lit => NAtom (render j) (ANum lit)
  | JStr s => NAtom (render j) (AStr s)
  | JArr l => NArr (render j) (map node_of l)
  | JObj m => NObj (render j) (map (fun kx => (fst kx, node_of (snd kx))) m)
  end.

(** A node whose atoms stand in their own text: [null] in the text
    [null], a number in its literal. This is how the reader finds
    them. *)
Fixpoint verbatim (n : node) : bool :=
  match n with
  | NAtom t ANull => String.eqb t "null"
  | NAtom t (ABool b) => String.eqb t (if b then "true" else "false")
  | NAtom t (ANum lit) => String.eqb t lit
  | NAtom _ (AStr _) => true
  | NArr _ l => forallb verbatim l
  | NObj _ m => forallb (fun kx => verbatim (snd kx)) m
  end.

(** How deep arrays and objects are nested: none for a value that is
    neither, one for an array or an object of such values, empty ones
    included. *)
Fixpoint depth (j : value) : N :=
  match j with
  | JArr l => 1 + fold_right (fun x d => N.max (depth x) d) 0%N l
  | JObj m => 1 + fold_right (fun kx d => N.max (depth (snd kx)) d) 0%N m
  | _ => 0
  end.

(** *** The reader ([checkValid] and the decoder's scan) *)

Definition is_ws (c : ascii) : bool :=
  Ascii.eqb c " " || Ascii.eqb c "009" || Ascii.eqb c "010" || Ascii.eqb c "013".

Fixpoint skip_ws (s : string) : string :=
  match s with
  | "" => ""
  | String c r => if is_ws c then skip_ws r else s
  end.

Fixpoint strip_prefix (p s : string) : option string :=
  match p, s with
  | "", _ => Some s
  | String a p', String b s' => if Ascii.eqb a b then strip_prefix p' s' else None
  | _, "" => None
  end.

(** What of [s] stands before its end [t]. *)
Definition before (s t : string) : string :=
  substring 0 (String.length s - String.length t) s.

(** [null], [true] and [false], after their first letter. *)
Definition keyword (p : string) (a : atom) (here s : string)
  : option (node * string) :=
  match strip_prefix p s with
  | Some t => Some (NAtom (before here t) a, t)
  | None => None
  end.

(** A member key and its colon, white space around them skipped. *)
Definition parse_key (s : string) : option (string * string) :=
  match skip_ws s with
  | String c r =>
      if Ascii.eqb c dquote then
        match JsonString.lex r with
        | Some (k, t) =>
            match skip_ws t with
            | String c' t' => if Ascii.eqb c' ":" then Some (k, t') else None
            | "" => None
            end
        | None => None
        end
      else None
  | "" => None
  end.

(** One value and what follows it. The text of the value runs from its
    first character, white space before it skipped, to its last. *)
Fixpoint parse_value (fuel : nat) (s : string) {struct fuel}
  : option (node * string) :=
  match fuel with
  | 0 => None
  | S fuel =>
      match skip_ws s with
      | "" => None
      | String c r =>
          if Ascii.eqb c "{" then
            match skip_ws r with
            | "" => None
            | String c' r' =>
                if Ascii.eqb c' "}" then Some (NObj (before (String c r) r') [], r')
                else
                  match parse_key r with
                  | None => None
                  | Some (k, t) =>
                      match parse_value fuel t with
                      | None => None
                      | Some (x, t') =>
                          match parse_members fuel t' with
                          | None => None
                          | Some (m, t'') =>
                              Some (NObj (before (String c r) t'') ((k, x) :: m), t'')
                          end
                      end
                  end
            end
          else if Ascii.eqb c "[" then
            match skip_ws r with
            | "" => None
            | String c' r' =>
                if Ascii.eqb c' "]" then Some (NArr (before (String c r) r') [], r')
                else
                  match parse_value fuel r with
                  | None => None
                  | Some (x, t) =>
                      match parse_elems fuel t with
                      | None => None
                      | Some (l, t') =>
                          Some (NArr (before (String c r) t') (x :: l), t')
                      end
                  end
            end
          else if Ascii.eqb c dquote then
            match JsonString.lex r with
            | Some (x, t) => Some (NAtom (before (String c r) t) (AStr x), t)
            | None => None
            end
          else if Ascii.eqb c "n" then keyword "ull" ANull (String c r) r
          else if Ascii.eqb c "t" then keyword "rue" (ABool true) (String c r) r
          else if Ascii.eqb c "f" then keyword "alse" (ABool false) (String c r) r
          else
            match JsonNumber.lex (String c r) with
            | Some (lit, t) => Some (NAtom (before (String c r) t) (ANum lit), t)
            | None => None
            end
      end
  end

(** What follows an element: a comma and the next one, or the end. *)
with parse_elems (fuel : nat) (s : string) {struct fuel}
  : option (list node * string) :=
  match fuel with
  | 0 => None
  | S fuel =>
      match skip_ws s with
      | "" => None
      | String c r =>
          if Ascii.eqb c "]" then Some ([], r)
          else if Ascii.eqb c "," then
            match parse_value fuel r with
            | None => None
            | Some (x, t) =>
                match parse_elems fuel t with
                | None => None
                | Some (l, t') => Some (x :: l, t')
                end
            end
          else None
      end
  end

with parse_members (fuel : nat) (s : string) {struct fuel}
  : option (list (string * node) * string) :=
  match fuel with
  | 0 => None
  | S fuel =>
      match skip_ws s with
      | "" => None
      | String c r =>
          if Ascii.eqb c "}" then Some ([], r)
          else if Ascii.eqb c "," then
            match parse_key r with
            | None => None
            | Some (k, t) =>
                match parse_value fuel t with
                | None => None
                | Some (x, t') =>
                    match parse_members fuel t' with
                    | None => None
                    | Some (m, t'') => Some ((k, x) :: m, t'')
                    end
                end
            end
          else None
      end
  end.

(** One value by the grammar of JSON, with nothing but white space
    after it. Every level of nesting and every element uses up at
    least one character, so the length of the input is fuel enough:
    what any amount of fuel reads, this much reads. *)
Definition scan (s : string) : result node :=
  match parse_value (S (String.length s)) s with
  | Some (n, rest) =>
      match skip_ws rest with
      | "" => ok n
      | _ => err SyntaxError
      end
  | None => err SyntaxError
  end.

(** The scanner of [encoding/json] refuses, as a syntax error, the
    bracket that opens a level of nesting beyond this many. *)
Definition maxNestingDepth : N := 10000.

(** What [encoding/json] takes for valid: JSON that is not nested too
    deep. A text that the scanner refuses for its depth is refused
    whatever comes after the bracket, so the depth is looked at once
    the value is read. *)
Definition read (s : string) : result node :=
  n <- scan s ;;
  if (depth (plain n) <=? maxNestingDepth)%N then ok n else err SyntaxError.

(** The value that a text denotes. *)
Definition parse (s : string) : result value := fmap plain (read s).

(** *** [Compact], with the HTML escaping of [json.Marshal] *)

(** [<], [>] and [&], which are written as the escapes [\u003c],
    [\u003e] and [\u0026]. *)
Definition html (c : ascii) : bool :=
  Ascii.eqb c "<" || Ascii.eqb c ">" || Ascii.eqb c "&".

(** Where the scanner stands in valid JSON, as far as white space is
    concerned: inside a string literal or not, and inside one, after a
    backslash or not. *)
Definition step (st : bool * bool) (c : ascii) : bool * bool :=
  let (quoted, escaped) := st in
  if quoted then
    if escaped then (true, false)
    else if Ascii.eqb c backslash then (true, true)
    else if Ascii.eqb c dquote then (false, false)
    else (true, false)
  else (Ascii.eqb c dquote, false).

(** A byte above the ASCII range that does not start a line separator:
    [appendCompact] copies it as it stands. *)
Definition cont (c : ascii) : Prop :=
  Utf8.is_ascii c = false /\ Ascii.eqb c "226" = false.

(** The bytes of valid JSON as [appendCompact] copies them: white
    space outside string literals is dropped, the three HTML characters
    and the line separators U+2028 and U+2029 are written as [\u]
    escapes, every other byte is kept. *)
Fixpoint squeeze (st : bool * bool) (s : string) : string :=
  match s with
  | "" => ""
  | String c r =>
      if html c then JsonString.u_escape (N_of_ascii c) ++ squeeze (step st c) r
      else
        let copy :=
          if negb (fst st) && is_ws c then squeeze st r
          else String c (squeeze (step st c) r) in
        if Ascii.eqb c "226" then
          match r with
          | String c1 (String c2 r2) =>
              match JsonString.line_sep c c1 c2 with
              | Some u =>
                  JsonString.u_escape u
                  ++ squeeze (step (step (step st c) c1) c2) r2
              | None => copy
              end
          | _ => copy
          end
        else copy
  end.

(** *** Induction over values *)

Section ValueInd.

Variable P : value -> Prop.

Hypothesis HNull : P JNull.

Hypothesis HBool : forall b, P (JBool b).

Hypothesis HNum : forall lit, P (JNum lit).

Hypothesis HStr : forall s, P (JStr s).

Hypothesis HArr : forall l, Forall P l -> P (JArr l).

Hypothesis HObj : forall m, Forall (fun kv => P (snd kv)) m -> P (JObj m).

Fixpoint value_ind (j : value) : P j :=
  match j with
  | JNull => HNull
  | JBool b => HBool b
  | JNum lit => HNum lit
  | JStr s => HStr s
  | JArr l =>
      HArr ((fix go (l : list value) : Forall P l :=
               match l with
               | [] => Forall_nil _
               | x :: r => Forall_cons x (value_ind x) (go r)
               end) l)
  | JObj m =>
      HObj ((fix go (m : list (string * value))
               : Forall (fun kv => P (snd kv)) m :=
               match m with
               | [] => Forall_nil _
               | kv :: r => Forall_cons kv (value_ind (snd kv)) (go r)
               end) m)
  end.

End ValueInd.

Section NodeInd.

Variable P : node -> Prop.

Hypothesis HAtom : forall t a, P (NAtom t a).

Hypothesis HArr : forall t l, Forall P l -> P (NArr t l).

Hypothesis HObj : forall t m, Forall (fun kv => P (snd kv)) m -> P (NObj t m).

Fixpoint node_ind (n : node) : P n :=
  match n with
  | NAtom t a => HAtom t a
  | NArr t l =>
      HArr t ((fix go (l : list node) : Forall P l :=
                 match l with
                 | [] => Forall_nil _
                 | x :: r => Forall_cons x (node_ind x) (go r)
                 end) l)
  | NObj t m =>
      HObj t ((fix go (m : list (string * node))
                 : Forall (fun kv => P (snd kv)) m :=
                 match m with
                 | [] => Forall_nil _
                 | kv :: r => Forall_cons kv (node_ind (snd kv)) (go r)
                 end) m)
  end.

End NodeInd.

(** *** Text that the reader accepts back *)

(** Number literals follow the grammar, strings and keys are well-formed
    UTF-8: what the encoder writes for them is then what it was given. *)
Fixpoint wf (j : value) : bool :=
  match j with
  | JNull | JBool _ => true
  | JNum lit => JsonNumber.is_literal lit
  | JStr s => Utf8.valid s
  | JArr l =>
      (fix go (l : list value) : bool :=
         match l with
         | [] => true
         | x :: r => wf x && go r
         end) l
  | JObj m =>
      (fix go (m : list (string * value)) : bool :=
         match m with
         | [] => true
         | (k, x) :: r => Utf8.valid k && wf x && go r
         end) m
  end.

Fixpoint wf_elems (l : list value) : bool :=
  match l with
  | [] => true
  | x :: r => wf x && wf_elems r
  end.

Fixpoint wf_members (m : list (string * value)) : bool :=
  match m with
  | [] => true
  | (k, x) :: r => Utf8.valid k && wf x && wf_members r
  end.

(** Fuel that reading [j] back takes. *)
Fixpoint size (j : value) : nat :=
  match j with
  | JArr l =>
      (fix go (l : list value) : nat :=
         match l with
         | [] => 1
         | x :: r => S (Nat.max (size x) (go r))
         end) l
  | JObj m =>
      (fix go (m : list (string * value)) : nat :=
         match m with
         | [] => 1
         | (_, x) :: r => S (Nat.max (size x) (go r))
         end) m
  | _ => 1
  end.

Fixpoint size_elems (l : list value) : nat :=
  match l with
  | [] => 1
  | x :: r => S (Nat.max (size x) (size_elems r))
  end.

Fixpoint size_members (m : list (string * value)) : nat :=
  match m with
  | [] => 1
  | (_, x) :: r => S (Nat.max (size x) (size_members r))
  end.

(** The text of a value starts with a character that is neither white
    space nor a closing bracket. *)
Definition opens (R : string) : Prop :=
  exists c r, R = String c r /\ is_ws c = false
              /\ Ascii.eqb c "]" = false /\ Ascii.eqb c "}" = false.

End Json.

(** ** Decimal integers ([strconv]) *)

Module Decimal10.

Definition format (n : N) : string := NilEmpty.string_of_uint (N.to_uint n).

(** [strconv.ParseUint] in base 10: digits only, at least one. *)
Definition parse (s : string) : option N :=
  match s with
  | "" => None
  | _ =>
      match NilEmpty.uint_of_string s with
      | Some d => Some (N.of_uint d)
      | None => None
      end
  end.

End Decimal10.

(** ** Go types, as [encoding/json] sees them by reflection *)

Module Reflect.

Import Json.

(** *** Struct tags *)

Fixpoint split_comma (s : string) : list string :=
  match s with
  | "" => [""]
  | String c r =>
      if Ascii.eqb c "," then "" :: split_comma r
      else
        match split_comma r with
        | h :: t => String c h :: t
        | [] => [String c ""]
        end
  end.

(** The key of a field: the name in its [json] tag, the Go name where
    the tag has none. *)
Definition json_name (go_name tag : string) : string :=
  match split_comma tag with
  | n :: _ => if String.eqb n "" then go_name else n
  | [] => go_name
  end.

Definition omitempty (tag : string) : bool :=
  match split_comma tag with
  | _ :: opts => existsb (String.eqb "omitempty") opts
  | [] => false
  end.

(** Keys match a field exactly or, failing that, under Unicode simple
    case folding. The keys of this file are ASCII, so that of the
    folding only these cases can make a key match: ASCII letters, and
    the two other characters that fold to one, U+017F (long s, the bytes
    C5 BF) and U+212A (the Kelvin sign, E2 84 AA). *)
Definition upper (c : ascii) : ascii :=
  if Utf8.byte_in 97 122 c then ascii_of_N (N_of_ascii c - 32) else c.

Fixpoint fold_name (s : string) : string :=
  match s with
  | "" => ""
  | String c0 r0 =>
      match r0 with
      | "" => String (upper c0) ""
      | String c1 r1 =>
          if Ascii.eqb c0 "197" && Ascii.eqb c1 "191"
          then String "S" (fold_name r1)
          else
            match r1 with
            | "" => String (upper c0) (fold_name r0)
            | String c2 r2 =>
                if Ascii.eqb c0 "226" && Ascii.eqb c1 "132" && Ascii.eqb c2 "170"
                then String "K" (fold_name r2)
                else String (upper c0) (fold_name r0)
            end
      end
  end.

Definition fold_eqb (a b : string) : bool :=
  String.eqb (fold_name a) (fold_name b).

(** *** Types *)

Inductive gtype : Type :=
| TString
| TBool
| TUint (bits : N)
| TBytes                        (* []byte *)
| TRawMessage                   (* json.RawMessage *)
| TPtr (t : gtype)
| TSlice (t : gtype)
| TStruct (fs : gfields)
| TNamed (n : string)           (* a type with its own codec *)
with gfields : Type :=
| FNil
| FCons (go_name : string) (t : gtype) (tag : string) (rest : gfields).

Definition field (go_name : string) (t : gtype) (tag : string)
  : string * gtype * string := (go_name, t, tag).

Definition struct (l : list (string * gtype * string)) : gtype :=
  TStruct (fold_right (fun '(g, t, tag) fs => FCons g t tag fs) FNil l).

Definition fields_of (t : gtype) : gfields :=
  match t with
  | TStruct fs => fs
  | _ => FNil
  end.

(** A type that brings its own codec: one with [MarshalJSON] or
    [UnmarshalJSON] methods, or one declared in another file. [enc]
    is the text that [MarshalJSON] returns, which the encoder checks
    and compacts; [dec] decodes a value of the input, which comes with
    its text, into a current value. *)
Record codec : Type := {
  carrier : Type;
  zero : carrier;
  empty : carrier -> bool;
  enc : carrier -> result string;
  dec : node -> carrier -> result carrier
}.

Section Codec.

Variable named : string -> codec.

(** *** Values *)

Fixpoint denote (t : gtype) : Type :=
  match t with
  | TString => string
  | TBool => bool
  | TUint _ => N
  | TBytes => bytes
  | TRawMessage => bytes
  | TPtr t => option (denote t)
  | TSlice t => option (list (denote t))
  | TStruct fs => denote_fields fs
  | TNamed n => carrier (named n)
  end
with denote_fields (fs : gfields) : Type :=
  match fs with
  | FNil => unit
  | FCons _ t _ rest => (denote t * denote_fields rest)%type
  end.

Fixpoint zero_of (t : gtype) : denote t :=
  match t with
  | TString => ""
  | TBool => false
  | TUint _ => 0%N
  | TBytes => None
  | TRawMessage => None
  | TPtr _ => None
  | TSlice _ => None
  | TStruct fs => zero_fields fs
  | TNamed n => zero (named n)
  end
with zero_fields (fs : gfields) : denote_fields fs :=
  match fs with
  | FNil => tt
  | FCons _ t _ rest => (zero_of t, zero_fields rest)
  end.

(** [isEmptyValue], which decides [omitempty]. *)
Definition is_empty (t : gtype) : denote t -> bool :=
  match t with
  | TString => fun s => String.eqb s ""
  | TBool => negb
  | TUint _ => N.eqb 0
  | TBytes => fun b => Nat.eqb (len b) 0
  | TRawMessage => fun b => Nat.eqb (len b) 0
  | TPtr _ => fun o => match o with None => true | Some _ => false end
  | TSlice _ => fun o => match o with
                         | None | Some [] => true
                         | Some _ => false
                         end
  | TStruct _ => fun _ => false
  | TNamed n => empty (named n)
  end.

(** *** Encoding *)

(** What the encoder does with the text of a [MarshalJSON]: the text
    must be valid JSON, and is written compacted. *)
Definition compact (raw : string) (type : string) : result string :=
  match read raw with
  | ok _ => ok (squeeze (false, false) raw)
  | err _ => err (MarshalerError type)
  end.

(** The text that the encoder appends to its buffer. *)
Fixpoint marshalV (t : gtype) : denote t -> result string :=
  match t with
  | TString => fun s => ok (JsonString.literal s)
  | TBool => fun b => ok (if b then "true" else "false")
  | TUint _ => fun n => ok (Decimal10.format n)
  | TBytes => fun b =>
      match b with
      | None => ok "null"
      | Some s => ok (JsonString.literal (Base64.encode s))
      end
  | TRawMessage => fun b =>
      match b with
      | None => ok "null"
      | Some raw => compact raw "json.RawMessage"
      end
  | TPtr t => fun o =>
      match o with
      | None => ok "null"
      | Some v => marshalV t v
      end
  | TSlice t => fun o =>
      match o with
      | None => ok "null"
      | Some l => fmap array_text (mapM (marshalV t) l)
      end
  | TStruct fs => fun v => fmap object_text (marshal_fields fs v)
  | TNamed n => fun v =>
      match enc (named n) v with
      | ok raw => compact raw n
      | err _ => err (MarshalerError n)
      end
  end
with marshal_fields (fs : gfields)
  : denote_fields fs -> result (list (string * string)) :=
  match fs with
  | FNil => fun _ => ok []
  | FCons g t tag rest => fun v =>
      if omitempty tag && is_empty t (fst v) then marshal_fields rest (snd v)
      else
        x <- marshalV t (fst v) ;;
        m <- marshal_fields rest (snd v) ;;
        ok ((json_name g tag, x) :: m)
  end.

(** *** Decoding, into a current value *)

Definition kind (j : value) : string :=
  match j with
  | JNull => "null"
  | JBool _ => "bool"
  | JNum _ => "number"
  | JStr _ => "string"
  | JArr _ => "array"
  | JObj _ => "object"
  end.

Definition mismatch {A} (j : value) (type : string) : result A :=
  err (UnmarshalTypeError (kind j) type).

Definition unmarshal_uint (bits : N) (j : value) (cur : N) : result N :=
  match j with
  | JNull => ok cur
  | JNum lit =>
      match Decimal10.parse lit with
      | Some n => if (n <? 2 ^ bits)%N then ok n else mismatch j "uint"
      | None => mismatch j "uint"
      end
  | _ => mismatch j "uint"
  end.

(** A [[]byte] is read from a base64 string or, like any slice, from
    an array of numbers. *)
Definition unmarshal_bytes (j : value) : result bytes :=
  match j with
  | JNull => ok None
  | JStr s =>
      match Base64.decode s with
      | Some b => ok (Some b)
      | None => err CorruptInputError
      end
  | JArr l =>
      fmap (fun ns => Some (fold_right (fun n s => String (ascii_of_N n) s) "" ns))
           (mapM (fun x => unmarshal_uint 8 x 0%N) l)
  | _ => mismatch j "[]uint8"
  end.

Fixpoint foldM {A B} (f : B -> A -> result A) (l : list B) (a : A)
  : result A :=
  match l with
  | [] => ok a
  | x :: r => a' <- f x a ;; foldM f r a'
  end.

Fixpoint has_field (sel : string -> bool) (fs : gfields) : bool :=
  match fs with
  | FNil => false
  | FCons g _ tag rest => sel (json_name g tag) || has_field sel rest
  end.

(** The literal [null]. *)
Definition is_null (n : node) : bool :=
  match n with
  | NAtom _ ANull => true
  | _ => false
  end.

Fixpoint unmarshalV (t : gtype) : node -> denote t -> result (denote t) :=
  match t with
  | TString => fun n cur =>
      match plain n with
      | JNull => ok cur
      | JStr s => ok s
      | j => mismatch j "string"
      end
  | TBool => fun n cur =>
      match plain n with
      | JNull => ok cur
      | JBool b => ok b
      | j => mismatch j "bool"
      end
  | TUint bits => fun n => unmarshal_uint bits (plain n)
  | TBytes => fun n _ => unmarshal_bytes (plain n)
  | TRawMessage => fun n _ => ok (Some (text n))
  | TPtr t => fun n cur =>
      if is_null n then ok None
      else
        v <- unmarshalV t n (match cur with
                             | Some c => c
                             | None => zero_of t
                             end) ;;
        ok (Some v)
  | TSlice t => fun n _ =>
      match n with
      | NArr _ l => fmap Some (mapM (fun x => unmarshalV t x (zero_of t)) l)
      | _ => if is_null n then ok None else mismatch (plain n) "slice"
      end
  | TStruct fs => fun n cur =>
      match n with
      | NObj _ m =>
          foldM (fun '(k, x) c =>
                   if has_field (String.eqb k) fs
                   then unmarshal_field fs (String.eqb k) x c
                   else unmarshal_field fs (fold_eqb k) x c)
                m cur
      | _ => if is_null n then ok cur else mismatch (plain n) "struct"
      end
  | TNamed n => dec (named n)
  end

(** The first field that [sel] picks takes the member; a key that
    picks none is skipped. *)
with unmarshal_field (fs : gfields) (sel : string -> bool) (x : node)
  : denote_fields fs -> result (denote_fields fs) :=
  match fs with
  | FNil => fun c => ok c
  | FCons g t tag rest => fun c =>
      if sel (json_name g tag) then
        v <- unmarshalV t x (fst c) ;; ok (v, snd c)
      else
        r <- unmarshal_field rest sel x (snd c) ;; ok (fst c, r)
  end.

(** [json.Marshal] and [json.Unmarshal]. *)
Definition Marshal (t : gtype) (v : denote t) : result string := marshalV t v.

Definition Unmarshal (t : gtype) (data : bytes) (cur : denote t)
  : result (denote t) :=
  n <- read (content data) ;; unmarshalV t n cur.

End Codec.

(** Types whose zero value is [nil], which is written as [null]. *)
Definition nilable (t : gtype) : bool :=
  match t with
  | TBytes | TRawMessage | TPtr _ | TSlice _ => true
  | _ => false
  end.

(** The keys of the fields that can be [nil] and have no [omitempty]. *)
Fixpoint null_fields (fs : gfields) : list string :=
  match fs with
  | FNil => []
  | FCons g t tag rest =>
      if nilable t && negb (omitempty tag)
      then json_name g tag :: null_fields rest
      else null_fields rest
  end.

(** The keys of the fields that hold a [json.RawMessage]. *)
Fixpoint raw_fields (fs : gfields) : list string :=
  match fs with
  | FNil => []
  | FCons g t tag rest =>
      match t with
      | TRawMessage => json_name g tag :: raw_fields rest
      | _ => raw_fields rest
      end
  end.

Section Wire.

Variable named : string -> codec.

(** *** Which fields an encoding holds *)

(** A value that is absent or holds the default: no text, [false],
    zero, no bytes, a [nil] pointer, no elements. A struct is never
    that. This is what the statements about encodings go by; that
    [omitempty] goes by the same is part of what is proved. *)
Definition vacant (t : gtype) : denote named t -> bool :=
  match t return denote named t -> bool with
  | TString => fun s => Nat.eqb (String.length s) 0
  | TBool => fun b => if b then false else true
  | TUint _ => fun n => match n with N0 => true | Npos _ => false end
  | TBytes | TRawMessage => fun b =>
      match b with
      | Some (String _ _) => false
      | _ => true
      end
  | TPtr _ => fun o => match o with Some _ => false | None => true end
  | TSlice _ => fun o => match o with Some (_ :: _) => false | _ => true end
  | TStruct _ => fun _ => false
  | TNamed n => empty (named n)
  end.

(** The keys of the fields that are not left out, in declaration
    order: all but those that have [omitempty] and are vacant. *)
Fixpoint kept (fs : gfields) : denote_fields named fs -> list string :=
  match fs with
  | FNil => fun _ => []
  | FCons g t tag rest => fun v =>
      if omitempty tag && vacant t (fst v) then kept rest (snd v)
      else json_name g tag :: kept rest (snd v)
  end.

(** The keys of the fields that hold something, in declaration order:
    for a union, its populated branches. *)
Fixpoint populated (fs : gfields) : denote_fields named fs -> list string :=
  match fs with
  | FNil => fun _ => []
  | FCons g t tag rest => fun v =>
      if vacant t (fst v) then populated rest (snd v)
      else json_name g tag :: populated rest (snd v)
  end.

Fixpoint all_omitempty (fs : gfields) : bool :=
  match fs with
  | FNil => true
  | FCons _ _ tag rest => omitempty tag && all_omitempty rest
  end.

(** *** Which fields a decoding sets *)

(** A value that is set: not [nil], where the type has a [nil]. *)
Definition nonnil (t : gtype) : denote named t -> bool :=
  match t return denote named t -> bool with
  | TBytes | TRawMessage => fun b => match b with Some _ => true | None => false end
  | TPtr _ => fun o => match o with Some _ => true | None => false end
  | TSlice _ => fun o => match o with Some _ => true | None => false end
  | _ => fun _ => true
  end.

(** The keys of the fields that are set, in declaration order. *)
Fixpoint set_keys (fs : gfields) : denote_fields named fs -> list string :=
  match fs with
  | FNil => fun _ => []
  | FCons g t tag rest => fun v =>
      if nonnil t (fst v) then json_name g tag :: set_keys rest (snd v)
      else set_keys rest (snd v)
  end.

(** The same, field by field. *)
Fixpoint flags (fs : gfields) : denote_fields named fs -> list bool :=
  match fs with
  | FNil => fun _ => []
  | FCons _ t _ rest => fun v => nonnil t (fst v) :: flags rest (snd v)
  end.

(** What a member leaves in the field that takes it: [null] clears
    a pointer or a slice, anything else sets it; a [json.RawMessage]
    keeps the text of the member, [null] included. *)
Definition sets (t : gtype) (x : node) : bool :=
  match t with
  | TPtr _ | TBytes | TSlice _ => negb (is_null x)
  | _ => true
  end.

Fixpoint track_field (fs : gfields) (sel : string -> bool) (x : node)
  (fl : list bool) : list bool :=
  match fs, fl with
  | FCons g t tag rest, b :: bs =>
      if sel (json_name g tag) then sets t x :: bs
      else b :: track_field rest sel x bs
  | _, _ => fl
  end.

Definition track_member (fs : gfields) (kx : string * node) (fl : list bool)
  : list bool :=
  if has_field (String.eqb (fst kx)) fs
  then track_field fs (String.eqb (fst kx)) (snd kx) fl
  else track_field fs (fold_eqb (fst kx)) (snd kx) fl.

(** The fields that the members of an object name, in the order of
    the members. *)
Definition track (fs : gfields) (m : list (string * node)) (fl : list bool)
  : list bool :=
  fold_left (fun fl kx => track_member fs kx fl) m fl.

(** The keys that go with the flags that are up. *)
Fixpoint select (ks : list string) (fl : list bool) : list string :=
  match ks, fl with
  | k :: ks, b :: fl => if b then k :: select ks fl else select ks fl
  | _, _ => []
  end.

(** A value in whose place [null] stands when it is written: [nil],
    or a raw message that is the text [null]. *)
Definition nullish (t : gtype) : denote named t -> bool :=
  match t return denote named t -> bool with
  | TBytes => fun b => match b with None => true | Some _ => false end
  | TRawMessage => fun b =>
      match b with
      | None => true
      | Some raw => String.eqb raw "null"
      end
  | TPtr _ => fun o => match o with None => true | Some _ => false end
  | TSlice _ => fun o => match o with None => true | Some _ => false end
  | _ => fun _ => false
  end.

(** The keys of the fields written as [null]: those that are not left
    out and are nullish. *)
Fixpoint null_keys (fs : gfields) : denote_fields named fs -> list string :=
  match fs with
  | FNil => fun _ => []
  | FCons g t tag rest => fun v =>
      if negb (omitempty tag && vacant t (fst v)) && nullish t (fst v)
      then json_name g tag :: null_keys rest (snd v)
      else null_keys rest (snd v)
  end.

(** *** Values that come back when their encoding is decoded *)

Variable named_good : forall n, carrier (named n) -> bool.

Variable named_norm : forall n, carrier (named n) -> carrier (named n).

(** JSON text in the form the encoder itself writes, which [Compact]
    leaves as it is. *)
Definition canonical (raw : string) : bool :=
  match read raw with
  | ok n => wf (plain n) && String.eqb (render (plain n)) raw
  | err _ => false
  end.

(** Values that the wire can carry: text is well-formed UTF-8 (the
    encoder replaces what is not), integers fit their width, a raw
    message is JSON in the encoder's form. A field that [omitempty]
    leaves out is not looked at. *)
Fixpoint good (t : gtype) : denote named t -> bool :=
  match t return denote named t -> bool with
  | TString => Utf8.valid
  | TBool => fun _ => true
  | TUint bits => fun n => (n <? 2 ^ bits)%N
  | TBytes => fun _ => true
  | TRawMessage => fun b =>
      match b with
      | Some raw => canonical raw
      | None => false
      end
  | TPtr t => fun o =>
      match o with
      | Some v => good t v
      | None => true
      end
  | TSlice t => fun o =>
      match o with
      | Some l => forallb (good t) l
      | None => true
      end
  | TStruct fs => good_fields fs
  | TNamed n => named_good n
  end
with good_fields (fs : gfields) : denote_fields named fs -> bool :=
  match fs return denote_fields named fs -> bool with
  | FNil => fun _ => true
  | FCons _ t tag rest => fun v =>
      ((omitempty tag && vacant t (fst v)) || good t (fst v))
      && good_fields rest (snd v)
  end.

(** What comes back: the value, with the zero value in every field
    that [omitempty] left out. *)
Fixpoint norm (t : gtype) : denote named t -> denote named t :=
  match t return denote named t -> denote named t with
  | TPtr t => option_map (norm t)
  | TSlice t => option_map (map (norm t))
  | TStruct fs => norm_fields fs
  | TNamed n => named_norm n
  | _ => fun v => v
  end
with norm_fields (fs : gfields) : denote_fields named fs -> denote_fields named fs :=
  match fs return denote_fields named fs -> denote_fields named fs with
  | FNil => fun v => v
  | FCons _ t tag rest => fun v =>
      (if omitempty tag && vacant t (fst v)
       then zero_of named t else norm t (fst v),
       norm_fields rest (snd v))
  end.

(** Values that [norm] leaves as they are: a field that [omitempty]
    leaves out holds its zero value already (and not, say, an empty
    slice that is not [nil]), and so on inside. *)
Fixpoint tidy (t : gtype) : denote named t -> Prop :=
  match t return denote named t -> Prop with
  | TPtr t => fun o =>
      match o with
      | Some v => tidy t v
      | None => True
      end
  | TSlice t => fun o =>
      match o with
      | Some l => Forall (tidy t) l
      | None => True
      end
  | TStruct fs => tidy_fields fs
  | TNamed n => fun v => named_norm n v = v
  | _ => fun _ => True
  end
with tidy_fields (fs : gfields) : denote_fields named fs -> Prop :=
  match fs return denote_fields named fs -> Prop with
  | FNil => fun _ => True
  | FCons _ t tag rest => fun v =>
      (if omitempty tag && vacant t (fst v)
       then fst v = zero_of named t else tidy t (fst v))
      /\ tidy_fields rest (snd v)
  end.

(** Types whose encoding is never [null]. *)
Definition nonnull_type (t : gtype) : bool :=
  match t with
  | TString | TBool | TUint _ | TStruct _ | TNamed _ => true
  | _ => false
  end.

Fixpoint names (fs : gfields) : list string :=
  match fs with
  | FNil => []
  | FCons g _ tag rest => json_name g tag :: names rest
  end.

(** Keys are distinct and well-formed; pointers point to types that
    are never written as [null]. *)
Fixpoint wf_type (t : gtype) : bool :=
  match t with
  | TPtr t => nonnull_type t && wf_type t
  | TSlice t => wf_type t
  | TStruct fs => wf_fields fs
  | _ => true
  end
with wf_fields (fs : gfields) : bool :=
  match fs with
  | FNil => true
  | FCons g t tag rest =>
      Utf8.valid (json_name g tag)
      && negb (existsb (String.eqb (json_name g tag)) (names rest))
      && wf_type t && wf_fields rest
  end.

(** What the decoder does with one member of an object (the body of
    the loop in [unmarshalV]). *)
Definition decode_member (fs : gfields)
  : string * node -> denote_fields named fs -> result (denote_fields named fs) :=
  fun '(k, x) c =>
    if has_field (String.eqb k) fs
    then unmarshal_field named fs (String.eqb k) x c
    else unmarshal_field named fs (fold_eqb k) x c.

(** A member that is taken whatever the struct holds already. *)
Definition taken (fs : gfields) (kx : string * node) : Prop :=
  forall c, exists c', decode_member fs kx c = ok c'.

(** The round trip at one type and over the fields of one struct, as
    the induction over types states them: what is written is the text
    of a value [j], and reading [j] in that text gives the value
    back. *)
Definition roundtrip_at (t : gtype) : Prop :=
  wf_type t = true ->
  forall v, good t v = true ->
    exists j, marshalV named t v = ok (render j) /\ wf j = true
              /\ (j = JNull <-> nullish t v = true)
              /\ unmarshalV named t (node_of j) (zero_of named t) = ok (norm t v).

Definition roundtrip_fields (fs : gfields) : Prop :=
  wf_fields fs = true ->
  forall v, good_fields fs v = true ->
    exists m, marshal_fields named fs v
              = ok (map (fun kx => (fst kx, render (snd kx))) m)
              /\ wf_members m = true
              /\ map fst m = kept fs v
              /\ (forall k x, In (k, x) m -> (x = JNull <-> In k (null_keys fs v)))
              /\ foldM (decode_member fs)
                   (map (fun kx => (fst kx, node_of (snd kx))) m)
                   (zero_fields named fs)
                 = ok (norm_fields fs v).

Scheme gtype_mind := Induction for gtype Sort Prop
  with gfields_mind := Induction for gfields Sort Prop.

Combined Scheme gtype_gfields_ind from gtype_mind, gfields_mind.

End Wire.

End Reflect.

(** * [queries.go] *)

Import Json Reflect.

(** [encoding/json] applied to types that neither have methods of their
    own nor contain a type that has. *)
Definition no_methods (n : string) : codec :=
  {| carrier := unit;
     zero := tt;
     empty := fun _ => false;
     enc := fun _ => err (MarshalerError n);
     dec := fun _ _ => err (UnmarshalTypeError "value" n) |}.

(** ** QueryResult

    [type QueryResult queryResultImpl]: the struct and its tags, with a
    serializer of its own; decoding goes by the tags. *)
Module QueryResult.

Record t := { Ok : bytes; Err : string }.

Definition queryResultImpl : gtype :=
  struct [ field "Ok" TBytes "ok,omitempty";
           field "Err" TString "error,omitempty" ].

(** The conversion [queryResultImpl(q)] and back. *)
Definition to_impl (q : t) : denote no_methods queryResultImpl :=
  (Ok q, (Err q, tt)).

Definition of_impl (v : denote no_methods queryResultImpl) : t :=
  {| Ok := fst v; Err := fst (snd v) |}.

(** The bytes of the literal in [MarshalJSON]: an object whose one
    member [ok] is the empty string. *)
Definition empty_ok : string := "{" ++ quoted "ok" ++ ":" ++ quoted "" ++ "}".

Definition MarshalJSON (q : t) : result string :=
  if Nat.eqb (len (Ok q)) 0 && Nat.eqb (String.length (Err q)) 0
  then ok empty_ok
  else Marshal no_methods queryResultImpl (to_impl q).

(** [json.Unmarshal(data, &q)]. *)
Definition Unmarshal (data : bytes) (q : t) : result t :=
  fmap of_impl (Reflect.Unmarshal no_methods queryResultImpl data (to_impl q)).

(** The zero value [QueryResult{}]. *)
Definition zero_value : t := {| Ok := None; Err := "" |}.

(** As a field of another struct: written by [MarshalJSON], read by
    the tags of the struct. *)
Definition codec : Reflect.codec :=
  {| carrier := t;
     zero := zero_value;
     empty := fun _ => false;
     enc := MarshalJSON;
     dec := fun n q =>
              fmap of_impl (unmarshalV no_methods queryResultImpl n (to_impl q)) |}.

(** A result that the wire can carry: the message is well-formed UTF-8
    (the encoder replaces what is not). *)
Definition good (q : t) : bool := Utf8.valid (Err q).

(** What decoding the encoding of [q] gives: [q] with empty bytes
    turned into [nil], or into the empty, non-nil bytes of the literal
    when [q] holds nothing. *)
Definition norm (q : t) : t :=
  if Nat.eqb (len (Ok q)) 0 && Nat.eqb (String.length (Err q)) 0
  then {| Ok := Some ""; Err := "" |}
  else {| Ok := if Nat.eqb (len (Ok q)) 0 then None else Ok q; Err := Err q |}.

(** The branches of a [QueryResult] that hold something: [ok] with
    bytes, [error] with a message. *)
Definition populated (q : t) : list string :=
  (match Ok q with
   | Some (String _ _) => ["ok"]
   | _ => []
   end
   ++ match Err q with
      | String _ _ => ["error"]
      | "" => []
      end)%list.

(** The keys that are written: the populated branches, and [ok] when
    there is none. *)
Definition written (q : t) : list string :=
  match populated q with
  | [] => ["ok"]
  | ks => ks
  end.

End QueryResult.

(** ** RawRangeEntry *)
Module RawRangeEntry.

Record t := { Key : bytes; Value : bytes }.

Definition MarshalJSON (r : t) : result string :=
  Marshal no_methods (TSlice TBytes) (Some [Key r; Value r]).

(** [len(arr)], which is 0 for a nil slice. *)
Definition length_of {A} (arr : option (list A)) : nat :=
  match arr with
  | None => 0
  | Some l => List.length l
  end.

(** The receiver is a pointer: the entry is updated, or left alone
    and an error returned. *)
Definition UnmarshalJSON (data : bytes) (r : t) : result t :=
  arr <- Reflect.Unmarshal no_methods (TSlice TBytes) data None ;;
  match arr with
  | Some [k; v] => ok {| Key := k; Value := v |}
  | _ =>
      err (Errorf ("invalid RawRange entry: expected array of length 2, got "
                   ++ Decimal10.format (N.of_nat (length_of arr))))
  end.

End RawRangeEntry.

(** ** The declarations, field by field *)

Definition SupplyQuery : gtype :=
  struct [ field "Denom" TString "denom" ].

Definition SupplyResponse : gtype :=
  struct [ field "Amount" (TNamed "Coin") "amount" ].

Definition BalanceQuery : gtype :=
  struct [ field "Address" TString "address";
           field "Denom" TString "denom" ].

Definition BalanceResponse : gtype :=
  struct [ field "Amount" (TNamed "Coin") "amount" ].

Definition AllBalancesQuery : gtype :=
  struct [ field "Address" TString "address" ].

Definition AllBalancesResponse : gtype :=
  struct [ field "Amount" (TNamed "Array[Coin]") "amount" ].

Definition DenomMetadataQuery : gtype :=
  struct [ field "Denom" TString "denom" ].

Definition DenomMetadataResponse : gtype :=
  struct [ field "Metadata" (TNamed "DenomMetadata") "metadata" ].

Definition AllDenomMetadataQuery : gtype :=
  struct [ field "Pagination" (TPtr (TNamed "PageRequest")) "pagination,omitempty" ].

Definition AllDenomMetadataResponse : gtype :=
  struct [ field "Metadata" (TSlice (TNamed "DenomMetadata")) "metadata";
           field "NextKey" TBytes "next_key,omitempty" ].

Definition BankQuery : gtype :=
  struct [ field "Supply" (TPtr SupplyQuery) "supply,omitempty";
           field "Balance" (TPtr BalanceQuery) "balance,omitempty";
           field "AllBalances" (TPtr AllBalancesQuery) "all_balances,omitempty";
           field "DenomMetadata" (TPtr DenomMetadataQuery) "denom_metadata,omitempty";
           field "AllDenomMetadata" (TPtr AllDenomMetadataQuery)
                 "all_denom_metadata,omitempty" ].

Definition PortIDQuery : gtype := struct [].

Definition PortIDResponse : gtype :=
  struct [ field "PortID" TString "port_id" ].

Definition ListChannelsQuery : gtype :=
  struct [ field "PortID" TString "port_id,omitempty" ].

Definition ListChannelsResponse : gtype :=
  struct [ field "Channels" (TNamed "Array[IBCChannel]") "channels" ].

Definition ChannelQuery : gtype :=
  struct [ field "PortID" TString "port_id,omitempty";
           field "ChannelID" TString "channel_id" ].

Definition ChannelResponse : gtype :=
  struct [ field "Channel" (TPtr (TNamed "IBCChannel")) "channel,omitempty" ].

Definition IBCQuery : gtype :=
  struct [ field "PortID" (TPtr PortIDQuery) "port_id,omitempty";
           field "ListChannels" (TPtr ListChannelsQuery) "list_channels,omitempty";
           field "Channel" (TPtr ChannelQuery) "channel,omitempty" ].

Definition AllValidatorsQuery : gtype := struct [].

Definition AllValidatorsResponse : gtype :=
  struct [ field "Validators" (TNamed "Array[Validator]") "validators" ].

Definition ValidatorQuery : gtype :=
  struct [ field "Address" TString "address" ].

Definition Validator : gtype :=
  struct [ field "Address" TString "address";
           field "Commission" TString "commission";
           field "MaxCommission" TString "max_commission";
           field "MaxChangeRate" TString "max_change_rate" ].

Definition ValidatorResponse : gtype :=
  struct [ field "Validator" (TPtr Validator) "validator" ].

Definition AllDelegationsQuery : gtype :=
  struct [ field "Delegator" TString "delegator" ].

Definition DelegationQuery : gtype :=
  struct [ field "Delegator" TString "delegator";
           field "Validator" TString "validator" ].

Definition AllDelegationsResponse : gtype :=
  struct [ field "Delegations" (TNamed "Array[Delegation]") "delegations" ].

Definition Delegation : gtype :=
  struct [ field "Delegator" TString "delegator";
           field "Validator" TString "validator";
           field "Amount" (TNamed "Coin") "amount" ].

Definition StakingQuery : gtype :=
  struct [ field "AllValidators" (TPtr AllValidatorsQuery) "all_validators,omitempty";
           field "Validator" (TPtr ValidatorQuery) "validator,omitempty";
           field "AllDelegations" (TPtr AllDelegationsQuery) "all_delegations,omitempty";
           field "Delegation" (TPtr DelegationQuery) "delegation,omitempty";
           field "BondedDenom" (TPtr (struct [])) "bonded_denom,omitempty" ].

Definition DelegatorWithdrawAddressQuery : gtype :=
  struct [ field "DelegatorAddress" TString "delegator_address" ].

Definition DelegatorWithdrawAddressResponse : gtype :=
  struct [ field "WithdrawAddress" TString "withdraw_address" ].

Definition DelegationRewardsQuery : gtype :=
  struct [ field "DelegatorAddress" TString "delegator_address";
           field "ValidatorAddress" TString "validator_address" ].

Definition DelegationRewardsResponse : gtype :=
  struct [ field "Rewards" (TSlice (TNamed "DecCoin")) "rewards" ].

Definition DelegationTotalRewardsQuery : gtype :=
  struct [ field "DelegatorAddress" TString "delegator_address" ].

Definition DelegatorReward : gtype :=
  struct [ field "Reward" (TSlice (TNamed "DecCoin")) "reward";
           field "ValidatorAddress" TString "validator_address" ].

Definition DelegationTotalRewardsResponse : gtype :=
  struct [ field "Rewards" (TSlice DelegatorReward) "rewards";
           field "Total" (TSlice (TNamed "DecCoin")) "total" ].

Definition DelegatorValidatorsQuery : gtype :=
  struct [ field "DelegatorAddress" TString "delegator_address" ].

Definition DelegatorValidatorsResponse : gtype :=
  struct [ field "Validators" (TSlice TString) "validators" ].

Definition DistributionQuery : gtype :=
  struct [ field "DelegatorWithdrawAddress" (TPtr DelegatorWithdrawAddressQuery)
                 "delegator_withdraw_address,omitempty";
           field "DelegationRewards" (TPtr DelegationRewardsQuery)
                 "delegation_rewards,omitempty";
           field "DelegationTotalRewards" (TPtr DelegationTotalRewardsQuery)
                 "delegation_total_rewards,omitempty";
           field "DelegatorValidators" (TPtr DelegatorValidatorsQuery)
                 "delegator_validators,omitempty" ].

Definition FullDelegation : gtype :=
  struct [ field "Delegator" TString "delegator";
           field "Validator" TString "validator";
           field "Amount" (TNamed "Coin") "amount";
           field "AccumulatedRewards" (TNamed "Array[Coin]") "accumulated_rewards";
           field "CanRedelegate" (TNamed "Coin") "can_redelegate" ].

Definition DelegationResponse : gtype :=
  struct [ field "Delegation" (TPtr FullDelegation) "delegation,omitempty" ].

Definition BondedDenomResponse : gtype :=
  struct [ field "Denom" TString "denom" ].

Definition StargateQuery : gtype :=
  struct [ field "Data" TBytes "data";
           field "Path" TString "path" ].

Definition GrpcQuery : gtype :=
  struct [ field "Data" TBytes "data";
           field "Path" TString "path" ].

Definition SmartQuery : gtype :=
  struct [ field "ContractAddr" TString "contract_addr";
           field "Msg" TBytes "msg" ].

Definition RawQuery : gtype :=
  struct [ field "ContractAddr" TString "contract_addr";
           field "Key" TBytes "key" ].

Definition RawRangeQuery : gtype :=
  struct [ field "ContractAddr" TString "contract_addr";
           field "Start" TBytes "start,omitempty";
           field "End" TBytes "end,omitempty";
           field "Limit" (TUint 16) "limit";
           field "Order" TString "order" ].

Definition RawRangeResponse : gtype :=
  struct [ field "Data" (TNamed "Array[RawRangeEntry]") "data";
           field "NextKey" TBytes "next_key" ].

Definition ContractInfoQuery : gtype :=
  struct [ field "ContractAddr" TString "contract_addr" ].

Definition ContractInfoResponse : gtype :=
  struct [ field "CodeID" (TUint 64) "code_id";
           field "Creator" TString "creator";
           field "Admin" TString "admin,omitempty";
           field "Pinned" TBool "pinned";
           field "IBCPort" TString "ibc_port,omitempty";
           field "IBC2Port" TString "ibc2_port,omitempty" ].

Definition CodeInfoQuery : gtype :=
  struct [ field "CodeID" (TUint 64) "code_id" ].

Definition CodeInfoResponse : gtype :=
  struct [ field "CodeID" (TUint 64) "code_id";
           field "Creator" TString "creator";
           field "Checksum" (TNamed "Checksum") "checksum" ].

Definition WasmQuery : gtype :=
  struct [ field "Smart" (TPtr SmartQuery) "smart,omitempty";
           field "Raw" (TPtr RawQuery) "raw,omitempty";
           field "ContractInfo" (TPtr ContractInfoQuery) "contract_info,omitempty";
           field "CodeInfo" (TPtr CodeInfoQuery) "code_info,omitempty";
           field "RawRange" (TPtr RawRangeQuery) "raw_range,omitempty" ].

Definition QueryRequest : gtype :=
  struct [ field "Bank" (TPtr BankQuery) "bank,omitempty";
           field "Custom" TRawMessage "custom,omitempty";
           field "IBC" (TPtr IBCQuery) "ibc,omitempty";
           field "Staking" (TPtr StakingQuery) "staking,omitempty";
           field "Distribution" (TPtr DistributionQuery) "distribution,omitempty";
           field "Stargate" (TPtr StargateQuery) "stargate,omitempty";
           field "Grpc" (TPtr GrpcQuery) "grpc,omitempty";
           field "Wasm" (TPtr WasmQuery) "wasm,omitempty" ].

(** ** The two-level result *)

(** Modelled from the spec: [InvalidRequest] is declared with
    [SystemError] outside [queries.go]; its two fields are the ones the
    literal in [RustQuery] sets ([InvalidRequest{error, request_bytes}]). *)
Module InvalidRequest.

Record t := { Err : string; Request : bytes }.

End InvalidRequest.

(** Modelled from the spec: [SystemError] is declared outside
    [queries.go]. One optional field per kind, as in the literal of
    [RustQuery]; the kinds are those the spec lists: [InvalidRequest],
    [UnsupportedRequest{kind}], [NoSuchContract{address}], [Unknown{}]. *)
Module SystemError.

Record t := {
  InvalidRequest : option InvalidRequest.t;
  UnsupportedRequest : option string;
  NoSuchContract : option string;
  Unknown : option unit
}.

Definition zero_value : t :=
  {| InvalidRequest := None; UnsupportedRequest := None;
     NoSuchContract := None; Unknown := None |}.

End SystemError.

Module QuerierResult.

Record t := { Ok : option QueryResult.t; Err : option SystemError.t }.

(** The declaration with its tags. *)
Definition struct_type : gtype :=
  struct [ field "Ok" (TPtr (TNamed "QueryResult")) "ok,omitempty";
           field "Err" (TPtr (TNamed "SystemError")) "error,omitempty" ].

End QuerierResult.

(** ** The declarations as a table *)

(** The structs that [queries.go] declares and [encoding/json] reads
    or writes field by field, under their Go names. These are all the
    structs of the file but [RawRangeEntry], which is read and written
    by its own two methods; [queryResultImpl] is what [QueryResult] is
    read by, and written by unless it holds nothing. *)
Definition declarations : list (string * gtype) :=
  [ ("queryResultImpl", QueryResult.queryResultImpl);
    ("QuerierResult", QuerierResult.struct_type);
    ("QueryRequest", QueryRequest);
    ("BankQuery", BankQuery);
    ("SupplyQuery", SupplyQuery);
    ("SupplyResponse", SupplyResponse);
    ("BalanceQuery", BalanceQuery);
    ("BalanceResponse", BalanceResponse);
    ("AllBalancesQuery", AllBalancesQuery);
    ("AllBalancesResponse", AllBalancesResponse);
    ("DenomMetadataQuery", DenomMetadataQuery);
    ("DenomMetadataResponse", DenomMetadataResponse);
    ("AllDenomMetadataQuery", AllDenomMetadataQuery);
    ("AllDenomMetadataResponse", AllDenomMetadataResponse);
    ("IBCQuery", IBCQuery);
    ("PortIDQuery", PortIDQuery);
    ("PortIDResponse", PortIDResponse);
    ("ListChannelsQuery", ListChannelsQuery);
    ("ListChannelsResponse", ListChannelsResponse);
    ("ChannelQuery", ChannelQuery);
    ("ChannelResponse", ChannelResponse);
    ("StakingQuery", StakingQuery);
    ("AllValidatorsQuery", AllValidatorsQuery);
    ("AllValidatorsResponse", AllValidatorsResponse);
    ("ValidatorQuery", ValidatorQuery);
    ("ValidatorResponse", ValidatorResponse);
    ("Validator", Validator);
    ("AllDelegationsQuery", AllDelegationsQuery);
    ("DelegationQuery", DelegationQuery);
    ("AllDelegationsResponse", AllDelegationsResponse);
    ("Delegation", Delegation);
    ("DistributionQuery", DistributionQuery);
    ("DelegatorWithdrawAddressQuery", DelegatorWithdrawAddressQuery);
    ("DelegatorWithdrawAddressResponse", DelegatorWithdrawAddressResponse);
    ("DelegationRewardsQuery", DelegationRewardsQuery);
    ("DelegationRewardsResponse", DelegationRewardsResponse);
    ("DelegationTotalRewardsQuery", DelegationTotalRewardsQuery);
    ("DelegationTotalRewardsResponse", DelegationTotalRewardsResponse);
    ("DelegatorReward", DelegatorReward);
    ("DelegatorValidatorsQuery", DelegatorValidatorsQuery);
    ("DelegatorValidatorsResponse", DelegatorValidatorsResponse);
    ("DelegationResponse", DelegationResponse);
    ("FullDelegation", FullDelegation);
    ("BondedDenomResponse", BondedDenomResponse);
    ("StargateQuery", StargateQuery);
    ("GrpcQuery", GrpcQuery);
    ("WasmQuery", WasmQuery);
    ("SmartQuery", SmartQuery);
    ("RawQuery", RawQuery);
    ("RawRangeQuery", RawRangeQuery);
    ("RawRangeResponse", RawRangeResponse);
    ("ContractInfoQuery", ContractInfoQuery);
    ("ContractInfoResponse", ContractInfoResponse);
    ("CodeInfoQuery", CodeInfoQuery);
    ("CodeInfoResponse", CodeInfoResponse) ].

(** The structs that stand for a Rust enum: one optional field per
    variant, of which one is meant to be set. *)
Definition unions : list (string * gtype) :=
  [ ("QuerierResult", QuerierResult.struct_type);
    ("QueryRequest", QueryRequest);
    ("BankQuery", BankQuery);
    ("IBCQuery", IBCQuery);
    ("StakingQuery", StakingQuery);
    ("DistributionQuery", DistributionQuery);
    ("WasmQuery", WasmQuery) ].

(** A table of keys, struct by struct; a struct without any is left
    out. *)
Definition table (keys : gfields -> list string) (l : list (string * gtype))
  : list (string * list string) :=
  flat_map (fun '(n, t) =>
              match t with
              | TStruct fs =>
                  match keys fs with
                  | [] => []
                  | ks => [(n, ks)]
                  end
              | _ => []
              end) l.

Definition null_table : list (string * gtype) -> list (string * list string) :=
  table null_fields.

Definition raw_table : list (string * gtype) -> list (string * list string) :=
  table raw_fields.

(** ** The dispatcher *)

Section Protocol.

(** The codecs of the types that other files declare ([Coin],
    [PageRequest], [Array[T]], ...) and that of [SystemError]. *)
Variable ext : string -> codec.
Variable SystemError_enc : SystemError.t -> result string.
Variable SystemError_dec : node -> SystemError.t -> result SystemError.t.

(** [SystemError] as a field of [QuerierResult]. *)
Definition SystemError_codec : codec :=
  {| carrier := SystemError.t;
     zero := SystemError.zero_value;
     empty := fun _ => false;
     enc := SystemError_enc;
     dec := SystemError_dec |}.

(** The types that are known by name: [QueryResult], which has a
    serializer of its own, and the types that other files declare. *)
Definition named (n : string) : codec :=
  if String.eqb n "QueryResult" then QueryResult.codec
  else if String.eqb n "SystemError" then SystemError_codec
  else ext n.

(** A [QuerierResult] as [encoding/json] sees it, field by field. *)
Definition QuerierResult_to_struct (r : QuerierResult.t)
  : denote named QuerierResult.struct_type :=
  (QuerierResult.Ok r, (QuerierResult.Err r, tt)).

(** The errors a querier returns, and [ToSystemError], which another
    file declares: it answers [nil] for an error that is not a system
    error. The texts of the errors of [encoding/json] are the
    package's. *)
Context {E : Type} {E_error : GoError E} {json_error : GoError error}.

Variable ToSystemError : E -> option SystemError.t.

(** The interface [Querier], over the state [Q] of whatever implements
    it: [Query] answers with bytes and an error and may count gas. *)
Record Querier (Q : Type) := {
  Query : denote named QueryRequest -> N -> Q -> (bytes * option E) * Q;
  GasConsumed : Q -> N
}.

Definition ToQuerierResult (response : bytes) (err : option E) : QuerierResult.t :=
  match err with
  | None =>
      {| QuerierResult.Ok :=
           Some {| QueryResult.Ok := response; QueryResult.Err := "" |};
         QuerierResult.Err := None |}
  | Some e =>
      match ToSystemError e with
      | Some syserr =>
          {| QuerierResult.Ok := None; QuerierResult.Err := Some syserr |}
      | None =>
          {| QuerierResult.Ok :=
               Some {| QueryResult.Ok := None; QueryResult.Err := Error e |};
             QuerierResult.Err := None |}
      end
  end.

Definition RustQuery {Q : Type} (querier : Querier Q) (binRequest : bytes)
  (gasLimit : N) (st : Q) : QuerierResult.t * Q :=
  match Unmarshal named QueryRequest binRequest (zero_of named QueryRequest) with
  | err e =>
      ({| QuerierResult.Ok := None;
          QuerierResult.Err :=
            Some {| SystemError.InvalidRequest :=
                      Some {| InvalidRequest.Err := Error e;
                              InvalidRequest.Request := binRequest |};
                    SystemError.UnsupportedRequest := None;
                    SystemError.NoSuchContract := None;
                    SystemError.Unknown := None |} |},
       st)
  | ok request =>
      let '((bz, er), st') := Query querier request gasLimit st in
      (ToQuerierResult bz er, st')
  end.

(** ** What the wire carries *)

(** The values of the types other files declare that their codecs
    carry, and what those codecs give back. *)
Variable ext_good : forall n, carrier (ext n) -> bool.
Variable ext_norm : forall n, carrier (ext n) -> carrier (ext n).
Variable SystemError_good : SystemError.t -> bool.
Variable SystemError_norm : SystemError.t -> SystemError.t.

Definition named_good (n : string) : carrier (named n) -> bool :=
  match String.eqb n "QueryResult" as b
        return carrier (if b then QueryResult.codec
                        else if String.eqb n "SystemError" then SystemError_codec
                             else ext n) -> bool
  with
  | true => QueryResult.good
  | false =>
      match String.eqb n "SystemError" as b
            return carrier (if b then SystemError_codec else ext n) -> bool
      with
      | true => SystemError_good
      | false => ext_good n
      end
  end.

Definition named_norm (n : string) : carrier (named n) -> carrier (named n) :=
  match String.eqb n "QueryResult" as b
        return carrier (if b then QueryResult.codec
                        else if String.eqb n "SystemError" then SystemError_codec
                             else ext n)
               -> carrier (if b then QueryResult.codec
                           else if String.eqb n "SystemError" then SystemError_codec
                                else ext n)
  with
  | true => QueryResult.norm
  | false =>
      match String.eqb n "SystemError" as b
            return carrier (if b then SystemError_codec else ext n)
                   -> carrier (if b then SystemError_codec else ext n)
      with
      | true => SystemError_norm
      | false => ext_norm n
      end
  end.

End Protocol.

(** ** What is written and what is read, struct by struct *)

(** The members of what [json.Marshal] writes for a struct. *)
Definition members_of (n : node) : list (string * node) :=
  match n with
  | NObj _ m => m
  | _ => []
  end.

(** How deep a text is nested, as JSON. *)
Definition nesting (s : string) : N :=
  match scan s with
  | ok n => depth (plain n)
  | err _ => 0
  end.

(** What is written for a value that the wire can carry is a JSON
    object with one member for each field that holds something, in
    the order of the fields. *)
Definition writes_populated (named : string -> codec)
  (named_good : forall n, carrier (named n) -> bool) (t : gtype) : Prop :=
  match t with
  | TStruct fs =>
      forall v, good named named_good (TStruct fs) v = true ->
        exists s text m,
          Marshal named (TStruct fs) v = ok s
          /\ scan s = ok (NObj text m)
          /\ map fst m = populated named fs v
  | _ => False
  end.

(** Decoding a struct from an object goes member by member. It fails
    only where a member is not taken, and so never for the number of
    fields that the object names; and the fields of the decoded struct
    that are set are those that were set before and those that the
    members name ([track], member by member; [null] clears). *)
Definition reads_named (named : string -> codec) (t : gtype) : Prop :=
  match t with
  | TStruct fs =>
      (forall data text m c,
          read (content data) = ok (NObj text m) ->
          Forall (taken named fs) m ->
          exists v, Unmarshal named (TStruct fs) data c = ok v)
      /\ (forall data c v,
            Unmarshal named (TStruct fs) data c = ok v ->
            exists n, read (content data) = ok n
                      /\ flags named fs v
                         = track fs (members_of n) (flags named fs c))
  | _ => False
  end.

(** What is written for a struct that the wire can carry: an object
    with a member for every field except those that have [omitempty]
    and are vacant, in the order of the fields; the members that are
    [null] are those of the fields that are nullish, each of which is
    a field that can be [nil] and has no [omitempty], or a raw
    message. *)
Definition writes_kept (named : string -> codec)
  (named_good : forall n, carrier (named n) -> bool) (t : gtype) : Prop :=
  match t with
  | TStruct fs =>
      forall v, good named named_good (TStruct fs) v = true ->
        exists s text m,
          Marshal named (TStruct fs) v = ok s
          /\ scan s = ok (NObj text m)
          /\ map fst m = kept named fs v
          /\ (forall k x, In (k, x) m ->
                (is_null x = true <-> In k (null_keys named fs v)))
          /\ (forall k, In k (null_keys named fs v) ->
                In k (null_fields fs) \/ In k (raw_fields fs))
  | _ => False
  end.

(** Decoding the encoding of a value into a zero value gives the value
    back, with the zero value in each field that [omitempty] left
    out: the value itself when it is tidy. This is so when the
    encoding is nested no deeper than the reader takes; one that is
    nested deeper is refused. *)
Definition reads_back (named : string -> codec)
  (named_good : forall n, carrier (named n) -> bool)
  (named_norm : forall n, carrier (named n) -> carrier (named n))
  (t : gtype) : Prop :=
  forall v, good named named_good t v = true ->
    exists s, Marshal named t v = ok s
              /\ ((nesting s <= maxNestingDepth)%N ->
                    Unmarshal named t (Some s) (zero_of named t)
                    = ok (norm named named_norm t v)
                    /\ (tidy named named_norm t v ->
                        Unmarshal named t (Some s) (zero_of named t) = ok v))
              /\ ((maxNestingDepth < nesting s)%N ->
                    exists e, Unmarshal named t (Some s) (zero_of named t) = err e).

(** How [json.Marshal] writes a [[]byte]. *)
Definition bytes_value (b : bytes) : value :=
  match b with
  | None => JNull
  | Some s => JStr (Base64.encode s)
  end.

(** * A host, for concrete runs *)

Module Sample.

(** Stand-ins for the types other files declare: one value, written as
    the empty object. *)
Definition ext (n : string) : codec :=
  {| carrier := unit;
     zero := tt;
     empty := fun _ => false;
     enc := fun _ => ok "{}";
     dec := fun _ _ => ok tt |}.

Definition SystemError_enc (e : SystemError.t) : result string := ok "{}".

Definition SystemError_dec (n : node) (e : SystemError.t) : result SystemError.t :=
  ok e.

(** Stand-ins for the texts of the errors of [encoding/json]: the
    kind of the error, without the detail that the package adds. The
    message of an [Errorf] is its text. *)
#[global] Instance json_error : GoError error := fun e =>
  match e with
  | SyntaxError => "invalid JSON input"
  | UnmarshalTypeError v t =>
      "json: cannot unmarshal " ++ v ++ " into Go value of type " ++ t
  | CorruptInputError => "illegal base64 data"
  | MarshalerError t => "json: error calling MarshalJSON for type " ++ t
  | Errorf msg => msg
  end.

Definition codecs : string -> codec := named ext SystemError_enc SystemError_dec.

(** What a responder may fail with. *)
Inductive host_error :=
| OutOfGas
| NotFound (what : string).

#[global] Instance host_error_GoError : GoError host_error := fun e =>
  match e with
  | OutOfGas => "out of gas"
  | NotFound what => what ++ " not found"
  end.

Definition ToSystemError (e : host_error) : option SystemError.t :=
  match e with
  | OutOfGas =>
      Some {| SystemError.InvalidRequest := None;
              SystemError.UnsupportedRequest := None;
              SystemError.NoSuchContract := None;
              SystemError.Unknown := Some tt |}
  | NotFound _ => None
  end.

(** A querier that answers every request with the same bytes and
    counts its calls. *)
Definition querier : Querier ext SystemError_enc SystemError_dec N :=
  {| Query := fun _ _ used => ((Some "answer", @None host_error), (used + 1)%N);
     GasConsumed := fun used => used |}.

(** A querier that answers with the request it was given, encoded. *)
Definition echo : Querier ext SystemError_enc SystemError_dec N :=
  {| Query := fun request _ used =>
                ((match Marshal codecs QueryRequest request with
                  | ok s => Some s
                  | err _ => None
                  end,
                  @None host_error),
                 (used + 1)%N);
     GasConsumed := fun used => used |}.

(** [{"bank":{},"wasm":{}}]. *)
Definition bank_and_wasm : string :=
  "{" ++ quoted "bank" ++ ":{}," ++ quoted "wasm" ++ ":{}}".

(** [{"validator":null}]. *)
Definition validator_null : string := "{" ++ quoted "validator" ++ ":null}".

(** [{"bank":{"supply":{"denom":"ucosm"}}}]. *)
Definition supply_query : string :=
  "{" ++ quoted "bank" ++ ":{" ++ quoted "supply" ++ ":{"
  ++ quoted "denom" ++ ":" ++ quoted "ucosm" ++ "}}}".

(** The entries of a contract, by ascending key. *)
Definition store : list (string * string) := [("a", "1"); ("b", "2"); ("c", "3")].

(** [{"ping": 1}], with the space, and without. *)
Definition ping_spaced : string := "{" ++ quoted "ping" ++ ": 1}".

Definition ping : string := "{" ++ quoted "ping" ++ ":1}".

End Sample.

(** * The range scan behind [RawRangeQuery] *)

Module RangeScan.

(** Keys are ordered as byte strings, lexicographically
    ([String.leb], [String.ltb]). *)

(** Modelled from the spec: the two directions of a scan, which the
    field [Order] of a [RawRangeQuery] names by a string. *)
Inductive Order := Ascending | Descending.

(** Modelled from the spec: the scan that answers a [RawRangeQuery] is
    the host's responder, which [queries.go] does not contain (it
    declares the query and the response). By the spec: [start] is the
    inclusive lower bound and [end] the exclusive upper bound, either
    open when absent; the entries within the bounds are enumerated in
    the given order, at most [limit] of them are returned, and
    [next_key] is the key to resume from, absent when nothing is left. *)
Definition within (start end_ : bytes) (k : string) : bool :=
  match start with
  | None => true
  | Some a => String.leb a k
  end
  && match end_ with
     | None => true
     | Some b => String.ltb k b
     end.

(** Modelled from the spec: see [within]. The store lists the entries
    of the contract by ascending key. *)
Definition scan (store : list (string * string)) (start end_ : bytes)
  (limit : nat) (order : Order) : list RawRangeEntry.t * bytes :=
  let selected := filter (fun kv => within start end_ (fst kv)) store in
  let ordered := match order with
                 | Ascending => selected
                 | Descending => rev selected
                 end in
  (map (fun kv => {| RawRangeEntry.Key := Some (fst kv);
                     RawRangeEntry.Value := Some (snd kv) |})
       (firstn limit ordered),
   match skipn limit ordered with
   | [] => None
   | kv :: _ => Some (fst kv)
   end).

End RangeScan.

(** * Shapes of input, for the statements about decoding *)

(** Text that [json.Unmarshal] does not take for a struct: no JSON at
    all, or a value that is neither an object nor [null]. *)
Definition refused_shape (r : result value) : bool :=
  match r with
  | err _ => true
  | ok (JObj _) | ok JNull => false
  | ok _ => true
  end.

(** A value that names no field of a struct, even with the case of
    its keys set aside: [null], or an object of other keys. *)
Definition no_known_key (fs : gfields) (j : value) : bool :=
  match j with
  | JNull => true
  | JObj m => forallb (fun kx => negb (has_field (fold_eqb (fst kx)) fs)) m
  | _ => false
  end.

(** What [json.Unmarshal] takes for the elements of a slice: those of
    an array, none for [null]. *)
Definition elements_of (j : value) : option (list value) :=
  match j with
  | JNull => Some []
  | JArr l => Some l
  | _ => None
  end.

(** A host whose errors are their own message, none of them a system
    error. *)
Module Bare.

Definition message : GoError string := fun s => s.

Definition ToSystemError (e : string) : option SystemError.t := None.

End Bare.

(** * Values, for the statements about the dispatcher *)

(** The result of [RustQuery] for bytes that are no request. *)
Definition invalid_request (msg : string) (request : bytes) : QuerierResult.t :=
  {| QuerierResult.Ok := None;
     QuerierResult.Err :=
       Some {| SystemError.InvalidRequest :=
                 Some {| InvalidRequest.Err := msg;
                         InvalidRequest.Request := request |};
               SystemError.UnsupportedRequest := None;
               SystemError.NoSuchContract := None;
               SystemError.Unknown := None |} |}.

Section Requests.

Variable named : string -> codec.

(** [QueryRequest{Custom: raw}]. *)
Definition custom_request (raw : string) : denote named QueryRequest :=
  (None, (Some raw, (None, (None, (None, (None, (None, (None, tt)))))))).

(** [QueryRequest{Wasm: &WasmQuery{RawRange: &RawRangeQuery{...}}}]. *)
Definition raw_range_request (addr : string) (start end_ : bytes) (limit : N)
  (order : string) : denote named QueryRequest :=
  (None, (None, (None, (None, (None, (None, (None,
    (Some (None, (None, (None, (None,
       (Some (addr, (start, (end_, (limit, (order, tt))))), tt))))),
     tt)))))))).

End Requests.

(** * Keys in any case *)

(** No string occurs twice. *)
Fixpoint nodupb (l : list string) : bool :=
  match l with
  | [] => true
  | x :: r => negb (existsb (String.eqb x) r) && nodupb r
  end.

(** A key that differs from the key of a field by case only is read
    as that key, wherever it stands in the object: two inputs whose
    members are the same, text for text, but for the case of one key,
    decode alike. *)
Definition reads_any_case (named : string -> codec) (t : gtype) : Prop :=
  match t with
  | TStruct fs =>
      forall data data' t1 t2 m1 m2 k n x c,
        In n (names fs) -> fold_name k = fold_name n ->
        read (content data) = ok (NObj t1 (m1 ++ (k, x) :: m2)) ->
        read (content data') = ok (NObj t2 (m1 ++ (n, x) :: m2)) ->
        Unmarshal named (TStruct fs) data c = Unmarshal named (TStruct fs) data' c
  | _ => False
  end.

(** * Requests, for concrete runs *)

Module Texts.

(** [{"unknown_field": 1}]. *)
Definition unknown_field : string := "{" ++ quoted "unknown_field" ++ ": 1}".

(** [{"custom":null}]. *)
Definition custom_null : string := "{" ++ quoted "custom" ++ ":null}".

(** [{"BANK":{}}] and [{"bank":{}}]. *)
Definition bank_upper : string := "{" ++ quoted "BANK" ++ ":{}}".

Definition bank : string := "{" ++ quoted "bank" ++ ":{}}".

(** [{"wasm":{"raw_range":{"contract_addr":"c","limit":65536,
    "order":"ascending"}}}], on one line. *)
Definition limit_too_large : string :=
  "{" ++ quoted "wasm" ++ ":{" ++ quoted "raw_range" ++ ":{"
  ++ quoted "contract_addr" ++ ":" ++ quoted "c" ++ ","
  ++ quoted "limit" ++ ":65536,"
  ++ quoted "order" ++ ":" ++ quoted "ascending" ++ "}}}".

(** [{"wasm":{"raw_range":{"contract_addr":"c","start":"YQ==",
    "limit":10,"order":"ascending"}}}], on one line. *)
Definition raw_range : string :=
  "{" ++ quoted "wasm" ++ ":{" ++ quoted "raw_range" ++ ":{"
  ++ quoted "contract_addr" ++ ":" ++ quoted "c" ++ ","
  ++ quoted "start" ++ ":" ++ quoted "YQ==" ++ ","
  ++ quoted "limit" ++ ":10,"
  ++ quoted "order" ++ ":" ++ quoted "ascending" ++ "}}}".

(** [{"ok":{"ok":"YW5zd2Vy"}}]. *)
Definition answer : string :=
  "{" ++ quoted "ok" ++ ":{" ++ quoted "ok" ++ ":" ++ quoted "YW5zd2Vy" ++ "}}".

End Texts.

(** * Tactics *)

(** Adds a fact to the context unless it is there already. *)
Ltac note pf :=
  let T := type of pf in
  lazymatch goal with
  | _ : T |- _ => fail
  | _ => pose proof pf
  end.

(** * Properties of the model of [encoding/json] *)

(** ** Strings and lists *)

Lemma append_assoc (a b c : string) : (a ++ b) ++ c = a ++ (b ++ c).
Proof. induction a; simpl; congruence. Qed.

Lemma append_nil_r (a : string) : a ++ "" = a.
Proof. induction a; simpl; congruence. Qed.

Lemma length_append (a b : string) :
  String.length (a ++ b) = String.length a + String.length b.
Proof. induction a; simpl; congruence. Qed.

Lemma mapM_length {A B} (f : A -> result B) (l : list A) :
  forall l', mapM f l = ok l' -> List.length l' = List.length l.
Proof.
  induction l as [|x r IH]; cbn [mapM]; intros l' H.
  - injection H as <-. reflexivity.
  - destruct (f x) as [y|e]; [|discriminate]. cbn [bind] in H.
    destruct (mapM f r) as [ys|e]; [|discriminate]. cbn [bind] in H.
    injection H as <-. cbn [List.length]. f_equal. now apply IH.
Qed.

(** ** base64: decoding what was encoded *)

Module Base64Facts.

Import Base64.

Lemma dec_enc (x : sextet) : dec_char (enc_char x) = Some x.
Proof.
  destruct x as [[[[[b5 b4] b3] b2] b1] b0].
  destruct b5, b4, b3, b2, b1, b0; reflexivity.
Qed.

Lemma enc_plain (x : sextet) :
  is_newline (enc_char x) = false /\ is_pad (enc_char x) = false.
Proof.
  destruct x as [[[[[b5 b4] b3] b2] b1] b0].
  destruct b5, b4, b3, b2, b1, b0; split; reflexivity.
Qed.

(** Induction three bytes at a time. *)
Lemma string_ind3 (P : string -> Prop) :
  P "" ->
  (forall a, P (String a "")) ->
  (forall a b, P (String a (String b ""))) ->
  (forall a b c r, P r -> P (String a (String b (String c r)))) ->
  forall s, P s.
Proof.
  intros H0 H1 H2 H3.
  assert (H : forall s, P s /\ (forall a, P (String a s))
                        /\ (forall a b, P (String a (String b s)))).
  { induction s as [|c s IH].
    - auto.
    - destruct IH as (IH0 & IH1 & IH2). auto. }
  intro s. apply H.
Qed.

Lemma strip_encode (s : string) : strip_newlines (encode s) = encode s.
Proof.
  induction s as [|a|a b|a b c r IH] using string_ind3.
  - reflexivity.
  - destruct a as [a0 a1 a2 a3 a4 a5 a6 a7]. cbn [encode strip_newlines].
    rewrite !(proj1 (enc_plain _)). reflexivity.
  - destruct a as [a0 a1 a2 a3 a4 a5 a6 a7], b as [b0 b1 b2 b3 b4 b5 b6 b7].
    cbn [encode strip_newlines].
    rewrite !(proj1 (enc_plain _)). reflexivity.
  - destruct a as [a0 a1 a2 a3 a4 a5 a6 a7], b as [b0 b1 b2 b3 b4 b5 b6 b7],
      c as [c0 c1 c2 c3 c4 c5 c6 c7].
    cbn [encode strip_newlines].
    rewrite !(proj1 (enc_plain _)), IH. reflexivity.
Qed.

Lemma decode_quanta_encode (s : string) : decode_quanta (encode s) = Some s.
Proof.
  induction s as [|a|a b|a b c r IH] using string_ind3.
  - reflexivity.
  - destruct a as [a0 a1 a2 a3 a4 a5 a6 a7]. cbn [encode decode_quanta].
    rewrite !dec_enc. reflexivity.
  - destruct a as [a0 a1 a2 a3 a4 a5 a6 a7], b as [b0 b1 b2 b3 b4 b5 b6 b7].
    cbn [encode decode_quanta].
    rewrite !dec_enc, (proj2 (enc_plain _)). reflexivity.
  - destruct a as [a0 a1 a2 a3 a4 a5 a6 a7], b as [b0 b1 b2 b3 b4 b5 b6 b7],
      c as [c0 c1 c2 c3 c4 c5 c6 c7].
    cbn [encode decode_quanta].
    rewrite !dec_enc, (proj2 (enc_plain _)), IH. reflexivity.
Qed.

Lemma decode_encode (s : string) : decode (encode s) = Some s.
Proof. unfold decode. rewrite strip_encode. apply decode_quanta_encode. Qed.

Lemma valid_of_ascii s : all_ascii s = true -> Utf8.valid s = true.
Proof.
  induction s as [|c r IH]; [reflexivity|]. cbn [all_ascii]. intros H.
  apply andb_true_iff in H as [A R]. cbn [Utf8.valid Utf8.width].
  rewrite A. auto.
Qed.

Lemma enc_char_ascii x : Utf8.is_ascii (enc_char x) = true.
Proof.
  destruct x as [[[[[b5 b4] b3] b2] b1] b0].
  destruct b5, b4, b3, b2, b1, b0; reflexivity.
Qed.

Lemma encode_ascii s : all_ascii (encode s) = true.
Proof.
  induction s as [|a|a b|a b c r IH] using string_ind3.
  - reflexivity.
  - destruct a as [a0 a1 a2 a3 a4 a5 a6 a7]. cbn [encode all_ascii].
    rewrite !enc_char_ascii. reflexivity.
  - destruct a as [a0 a1 a2 a3 a4 a5 a6 a7], b as [b0 b1 b2 b3 b4 b5 b6 b7].
    cbn [encode all_ascii]. rewrite !enc_char_ascii. reflexivity.
  - destruct a as [a0 a1 a2 a3 a4 a5 a6 a7], b as [b0 b1 b2 b3 b4 b5 b6 b7],
      c as [c0 c1 c2 c3 c4 c5 c6 c7].
    cbn [encode all_ascii]. rewrite !enc_char_ascii, IH. reflexivity.
Qed.

Lemma encode_valid s : Utf8.valid (encode s) = true.
Proof. apply valid_of_ascii, encode_ascii. Qed.

End Base64Facts.

(** ** String literals *)

Module JsonStringFacts.

Import JsonString.

(** *** Reading back what the encoder wrote *)

Lemma lex_escape_byte (c : ascii) (t : string) :
  Utf8.is_ascii c = true ->
  lex (escape_byte c ++ t) = prepend (String c "") (lex t).
Proof.
  destruct c as [b0 b1 b2 b3 b4 b5 b6 b7].
  destruct b7; [destruct b0, b1, b2, b3, b4, b5, b6; discriminate|].
  intros _.
  destruct b0, b1, b2, b3, b4, b5, b6; reflexivity.
Qed.

(** A lead byte that is not ASCII fixes how many bytes are looked at. *)
Lemma width_cases (c0 : ascii) (r0 : string) :
  Utf8.is_ascii c0 = false ->
  match Utf8.width (String c0 r0) with
  | 0 => True
  | 2 => exists c1 r1, r0 = String c1 r1
                       /\ forall r', Utf8.width (String c0 (String c1 r')) = 2
  | 3 => exists c1 c2 r2, r0 = String c1 (String c2 r2)
           /\ forall r', Utf8.width (String c0 (String c1 (String c2 r'))) = 3
  | 4 => exists c1 c2 c3 r3, r0 = String c1 (String c2 (String c3 r3))
           /\ forall r',
               Utf8.width (String c0 (String c1 (String c2 (String c3 r')))) = 4
  | _ => False
  end.
Proof.
  intros H. unfold Utf8.width. rewrite H.
  destruct (Utf8.byte_in 194 223 c0).
  { destruct r0 as [|c1 r1]; [exact I|].
    destruct (Utf8.byte_in 128 191 c1) eqn:E; [|exact I].
    exists c1, r1. split; [reflexivity|]. intros _. rewrite E. reflexivity. }
  destruct (Utf8.byte_in 224 239 c0).
  { destruct r0 as [|c1 [|c2 r2]]; try exact I.
    match goal with |- context [if ?b then 3 else 0] => destruct b eqn:E end;
      [|exact I].
    exists c1, c2, r2. split; [reflexivity|]. intros _. rewrite E. reflexivity. }
  destruct (Utf8.byte_in 240 244 c0).
  { destruct r0 as [|c1 [|c2 [|c3 r3]]]; try exact I.
    match goal with |- context [if ?b then 4 else 0] => destruct b eqn:E end;
      [|exact I].
    exists c1, c2, c3, r3. split; [reflexivity|]. intros _. rewrite E. reflexivity. }
  exact I.
Qed.

Lemma lex_line_sep (c0 c1 c2 : ascii) (n : N) (t : string) :
  line_sep c0 c1 c2 = Some n ->
  lex (u_escape n ++ t) = prepend (String c0 (String c1 (String c2 ""))) (lex t).
Proof.
  unfold line_sep.
  destruct (Ascii.eqb c0 "226") eqn:E0; [|discriminate].
  destruct (Ascii.eqb c1 "128") eqn:E1; [|discriminate].
  apply Ascii.eqb_eq in E0, E1. subst c0 c1. cbn [andb].
  destruct (Ascii.eqb c2 "168") eqn:E2.
  { apply Ascii.eqb_eq in E2. subst c2. intros [= <-]. reflexivity. }
  destruct (Ascii.eqb c2 "169") eqn:E3; [|discriminate].
  apply Ascii.eqb_eq in E3. subst c2. intros [= <-]. reflexivity.
Qed.

Lemma lex_escape_le (n : nat) : forall s rest,
  String.length s <= n -> Utf8.valid s = true ->
  lex (escape s ++ String dquote rest) = Some (s, rest).
Proof.
  induction n as [|n IH]; intros s rest Hn Hv.
  { destruct s; [reflexivity | simpl in Hn; lia]. }
  destruct s as [|c0 r0]; [reflexivity|].
  cbn [escape Utf8.valid] in *.
  destruct (Utf8.is_ascii c0) eqn:A.
  { assert (W : Utf8.width (String c0 r0) = 1) by (simpl; rewrite A; reflexivity).
    rewrite W in Hv. rewrite append_assoc, lex_escape_byte by assumption.
    rewrite IH; [reflexivity | simpl in Hn; lia | assumption]. }
  pose proof (width_cases c0 r0 A) as WC.
  destruct (Utf8.width (String c0 r0)) as [|[|[|[|[|w]]]]] eqn:W;
    try discriminate; try contradiction.
  - destruct WC as (c1 & r1 & -> & W').
    cbn [append lex]. rewrite A, W'.
    rewrite IH; [reflexivity | simpl in Hn; lia | assumption].
  - destruct WC as (c1 & c2 & r2 & -> & W').
    destruct (line_sep c0 c1 c2) as [u|] eqn:L.
    + rewrite append_assoc, (lex_line_sep _ _ _ _ L).
      rewrite IH; [reflexivity | simpl in Hn; lia | assumption].
    + cbn [append lex]. rewrite A, W'.
      rewrite IH; [reflexivity | simpl in Hn; lia | assumption].
  - destruct WC as (c1 & c2 & c3 & r3 & -> & W').
    cbn [append lex]. rewrite A, W'.
    rewrite IH; [reflexivity | simpl in Hn; lia | assumption].
Qed.

(** A literal of well-formed text reads back as that text. *)
Lemma lex_escape (s rest : string) :
  Utf8.valid s = true ->
  lex (escape s ++ String dquote rest) = Some (s, rest).
Proof. apply (lex_escape_le (n := String.length s)). apply Nat.le_refl. Qed.

(** *** A literal takes up at least its closing quote *)

Lemma prepend_some p o x t :
  prepend p o = Some (x, t) -> exists x', o = Some (x', t).
Proof.
  destruct o as [[x' t']|]; [|discriminate]. cbn. intros [= <- <-]. eauto.
Qed.

Lemma lex_consumes_le (n : nat) : forall s x t,
  String.length s <= n -> lex s = Some (x, t) -> String.length t < String.length s.
Proof.
  induction n as [|n IH]; intros s x t Hn H.
  { destruct s; [discriminate | simpl in Hn; lia]. }
  destruct s as [|c0 r0]; [discriminate|].
  cbn [lex] in H. cbn [String.length] in *.
  repeat match type of H with
         | context [match ?e with _ => _ end] =>
             first [ is_var e; destruct e; cbn [String.length] in *
                   | destruct e eqn:? ];
             try discriminate H
         end;
    try (injection H as <- <-; cbn [String.length]; lia);
    apply prepend_some in H; destruct H as (x' & H);
    apply IH in H; cbn [String.length] in *; lia.
Qed.

Lemma lex_consumes s x t :
  lex s = Some (x, t) -> String.length t < String.length s.
Proof. apply (lex_consumes_le (n := String.length s)). apply Nat.le_refl. Qed.

End JsonStringFacts.

(** ** Number literals: a literal is read back whole *)

Module JsonNumberFacts.

Import JsonNumber.

Lemma number_end_digit rest :
  number_end rest = true -> span_digits rest = ("", rest).
Proof.
  destruct rest as [|c r]; [reflexivity|]. simpl.
  destruct (is_digit c); [discriminate | reflexivity].
Qed.

Lemma span_digits_sound s : forall d t, span_digits s = (d, t) -> s = d ++ t.
Proof.
  induction s as [|c r IH]; simpl; intros d t H.
  - injection H as <- <-. reflexivity.
  - destruct (is_digit c).
    + destruct (span_digits r) as [d' t']. injection H as <- <-.
      simpl. f_equal. apply IH. reflexivity.
    + injection H as <- <-. reflexivity.
Qed.

Lemma span_digits_app s rest : forall d t,
  span_digits s = (d, t) -> number_end rest = true ->
  span_digits (s ++ rest) = (d, t ++ rest).
Proof.
  induction s as [|c r IH]; simpl; intros d t H E.
  - injection H as <- <-. apply number_end_digit, E.
  - destruct (is_digit c).
    + destruct (span_digits r) as [d' t']. injection H as <- <-.
      rewrite (IH d' t' eq_refl E). reflexivity.
    + injection H as <- <-. reflexivity.
Qed.

Lemma nonempty_digits_sound p s x t :
  nonempty_digits p s = Some (x, t) -> p ++ s = x ++ t.
Proof.
  unfold nonempty_digits. destruct (span_digits s) as [d t'] eqn:E.
  apply span_digits_sound in E. subst s.
  destruct d; [discriminate|]. intros [= <- <-]. symmetry. apply append_assoc.
Qed.

Lemma nonempty_digits_app p s rest x t :
  nonempty_digits p s = Some (x, t) -> number_end rest = true ->
  nonempty_digits p (s ++ rest) = Some (x, t ++ rest).
Proof.
  unfold nonempty_digits. destruct (span_digits s) as [d t'] eqn:E. intros H R.
  rewrite (span_digits_app _ _ E R). destruct d; [discriminate|].
  injection H as <- <-. reflexivity.
Qed.

Lemma lex_int_sound s x t : lex_int s = Some (x, t) -> s = x ++ t.
Proof.
  destruct s as [|c r]; simpl; [discriminate|].
  destruct (Ascii.eqb c "0") eqn:Z.
  - apply Ascii.eqb_eq in Z. subst c. intros [= <- <-]. reflexivity.
  - destruct (is_digit c); [|discriminate].
    destruct (span_digits r) as [d t'] eqn:E. apply span_digits_sound in E.
    intros [= <- <-]. subst r. reflexivity.
Qed.

Lemma lex_int_app s rest x t :
  lex_int s = Some (x, t) -> number_end rest = true ->
  lex_int (s ++ rest) = Some (x, t ++ rest).
Proof.
  destruct s as [|c r]; simpl; [discriminate|]. intros H R.
  destruct (Ascii.eqb c "0").
  - injection H as <- <-. reflexivity.
  - destruct (is_digit c); [|discriminate].
    destruct (span_digits r) as [d t'] eqn:E.
    rewrite (span_digits_app _ _ E R). injection H as <- <-. reflexivity.
Qed.

Lemma lex_frac_sound s x t : lex_frac s = Some (x, t) -> s = x ++ t.
Proof.
  destruct s as [|c r]; simpl; [intros [= <- <-]; reflexivity|].
  destruct (Ascii.eqb c ".") eqn:Z.
  - apply Ascii.eqb_eq in Z. subst c. intros H.
    apply nonempty_digits_sound in H. exact H.
  - intros [= <- <-]. reflexivity.
Qed.

Lemma lex_frac_app s rest x t :
  lex_frac s = Some (x, t) -> number_end rest = true ->
  lex_frac (s ++ rest) = Some (x, t ++ rest).
Proof.
  destruct s as [|c r]; simpl; intros H R.
  - injection H as <- <-. destruct rest as [|c r]; [reflexivity|].
    simpl in *. destruct (Ascii.eqb c "."); [|reflexivity].
    destruct (is_digit c), (Ascii.eqb c "e"), (Ascii.eqb c "E"); discriminate.
  - destruct (Ascii.eqb c ".").
    + apply nonempty_digits_app; assumption.
    + injection H as <- <-. reflexivity.
Qed.

Lemma lex_exp_sound s x t : lex_exp s = Some (x, t) -> s = x ++ t.
Proof.
  destruct s as [|c r]; simpl; [intros [= <- <-]; reflexivity|].
  destruct (Ascii.eqb c "e" || Ascii.eqb c "E").
  - destruct r as [|c' r']; [discriminate|].
    destruct (Ascii.eqb c' "+" || Ascii.eqb c' "-"); intros H;
      apply nonempty_digits_sound in H; exact H.
  - intros [= <- <-]. reflexivity.
Qed.

Lemma lex_exp_app s rest x t :
  lex_exp s = Some (x, t) -> number_end rest = true ->
  lex_exp (s ++ rest) = Some (x, t ++ rest).
Proof.
  destruct s as [|c r]; simpl; intros H R.
  - injection H as <- <-. destruct rest as [|c r]; [reflexivity|].
    simpl in *.
    destruct (is_digit c), (Ascii.eqb c "."), (Ascii.eqb c "e"), (Ascii.eqb c "E");
      try reflexivity; discriminate.
  - destruct (Ascii.eqb c "e" || Ascii.eqb c "E").
    + destruct r as [|c' r']; [discriminate|]. simpl.
      destruct (Ascii.eqb c' "+" || Ascii.eqb c' "-").
      * apply nonempty_digits_app; assumption.
      * apply (nonempty_digits_app _ (String c' r') _ H R).
    + injection H as <- <-. reflexivity.
Qed.

Lemma lex_sound s x t : lex s = Some (x, t) -> s = x ++ t.
Proof.
  unfold lex. destruct (lex_sign s) as [sg s1] eqn:S1.
  destruct (lex_int s1) as [[i s2]|] eqn:I; [|discriminate].
  destruct (lex_frac s2) as [[f s3]|] eqn:F; [|discriminate].
  destruct (lex_exp s3) as [[e s4]|] eqn:X; [|discriminate].
  intros [= <- <-].
  apply lex_int_sound in I. apply lex_frac_sound in F. apply lex_exp_sound in X.
  subst s1 s2 s3.
  assert (s = sg ++ i ++ f ++ e ++ s4).
  { destruct s as [|c r]; simpl in S1.
    - injection S1 as <- <-. reflexivity.
    - destruct (Ascii.eqb c "-") eqn:M.
      + apply Ascii.eqb_eq in M. subst c. injection S1 as <- <-. reflexivity.
      + injection S1 as <- <-. reflexivity. }
  subst s. rewrite !append_assoc. reflexivity.
Qed.

Lemma lex_app s rest x t :
  lex s = Some (x, t) -> number_end rest = true ->
  lex (s ++ rest) = Some (x, t ++ rest).
Proof.
  unfold lex. intros H R.
  destruct (lex_sign s) as [sg s1] eqn:S1.
  destruct (lex_int s1) as [[i s2]|] eqn:I; [|discriminate].
  destruct (lex_frac s2) as [[f s3]|] eqn:F; [|discriminate].
  destruct (lex_exp s3) as [[e s4]|] eqn:X; [|discriminate].
  injection H as <- <-.
  assert (S2 : lex_sign (s ++ rest) = (sg, s1 ++ rest)).
  { destruct s as [|c r]; simpl in S1.
    - injection S1 as <- <-. discriminate.
    - simpl. destruct (Ascii.eqb c "-"); injection S1 as <- <-; reflexivity. }
  rewrite S2, (lex_int_app _ _ I R), (lex_frac_app _ _ F R), (lex_exp_app _ _ X R).
  reflexivity.
Qed.

Lemma literal_app lit rest :
  is_literal lit = true -> number_end rest = true ->
  lex (lit ++ rest) = Some (lit, rest).
Proof.
  unfold is_literal. destruct (lex lit) as [[x t]|] eqn:L; [|discriminate].
  destruct t; [|discriminate]. intros _ R.
  pose proof (lex_sound _ L) as E. rewrite append_nil_r in E. subst x.
  apply (lex_app _ _ L R).
Qed.

Lemma literal_start lit :
  is_literal lit = true -> exists c r, lit = String c r /\ number_start c = true.
Proof.
  unfold is_literal, lex. destruct lit as [|c r]; [discriminate|].
  intros H. exists c, r. split; [reflexivity|]. unfold number_start.
  simpl in H. destruct (Ascii.eqb c "-"); [apply orb_true_r|].
  simpl in H. destruct (Ascii.eqb c "0") eqn:Z.
  - apply Ascii.eqb_eq in Z. subst c. reflexivity.
  - destruct (is_digit c); [reflexivity | discriminate].
Qed.

(** *** A literal takes up at least one character *)

Lemma span_digits_length s d t :
  span_digits s = (d, t) -> String.length t <= String.length s.
Proof.
  intros H. apply span_digits_sound in H. subst s. rewrite length_append. lia.
Qed.

Lemma number_consumes s x t :
  lex s = Some (x, t) -> String.length t < String.length s.
Proof.
  unfold lex. destruct (lex_sign s) as [sg s1] eqn:S1.
  destruct (lex_int s1) as [[i s2]|] eqn:I; [|discriminate].
  destruct (lex_frac s2) as [[f s3]|] eqn:F; [|discriminate].
  destruct (lex_exp s3) as [[e s4]|] eqn:X; [|discriminate].
  intros [= _ <-].
  apply lex_frac_sound in F. apply lex_exp_sound in X.
  apply (f_equal String.length) in F, X. rewrite length_append in F, X.
  assert (L1 : String.length s1 <= String.length s).
  { destruct s as [|c r]; cbn in S1.
    - injection S1 as _ <-. apply Nat.le_refl.
    - destruct (Ascii.eqb c "-"); injection S1 as _ <-; cbn; lia. }
  assert (L2 : String.length s2 < String.length s1).
  { destruct s1 as [|c r]; [discriminate|]. cbn in I.
    destruct (Ascii.eqb c "0").
    - injection I as _ <-. cbn. lia.
    - destruct (is_digit c); [|discriminate].
      destruct (span_digits r) as [d t'] eqn:D. injection I as _ <-.
      apply span_digits_length in D. cbn. lia. }
  lia.
Qed.

End JsonNumberFacts.

(** ** JSON text: the reader accepts back what the encoder wrote *)

Module JsonFacts.

Import Json.

Lemma wf_arr l : wf (JArr l) = wf_elems l.
Proof. induction l as [|x r IH]; [reflexivity|]. simpl in *. now rewrite IH. Qed.

Lemma wf_obj m : wf (JObj m) = wf_members m.
Proof.
  induction m as [|[k x] r IH]; [reflexivity|]. simpl in *. now rewrite IH.
Qed.

Lemma size_arr l : size (JArr l) = size_elems l.
Proof. induction l as [|x r IH]; [reflexivity|]. simpl in *. now rewrite IH. Qed.

Lemma size_obj m : size (JObj m) = size_members m.
Proof.
  induction m as [|[k x] r IH]; [reflexivity|]. simpl in *. now rewrite IH.
Qed.

Lemma render_arr_cons x r :
  render (JArr (x :: r)) = String "[" (render x ++ elems_tail r).
Proof.
  reflexivity. Qed.

Lemma render_obj_cons k x r :
  render (JObj ((k, x) :: r))
  = String "{" (JsonString.literal k ++ String ":" (render x ++ members_tail r)).
Proof.
  reflexivity. Qed.

(** *** Texts put together are the text of the value put together *)

Lemma array_tail_render l : array_tail (map render l) = elems_tail l.
Proof. induction l as [|x r IH]; [reflexivity|]. cbn. now rewrite IH. Qed.

Lemma object_tail_render m :
  object_tail (map (fun kx => (fst kx, render (snd kx))) m) = members_tail m.
Proof. induction m as [|[k x] r IH]; [reflexivity|]. cbn. now rewrite IH. Qed.

Lemma array_text_render l : array_text (map render l) = render (JArr l).
Proof.
  destruct l as [|x r]; [reflexivity|].
  cbn [map array_text]. rewrite array_tail_render. reflexivity.
Qed.

Lemma object_text_render m :
  object_text (map (fun kx => (fst kx, render (snd kx))) m) = render (JObj m).
Proof.
  destruct m as [|[k x] r]; [reflexivity|].
  cbn [map object_text fst snd]. rewrite object_tail_render. reflexivity.
Qed.

(** *** A value in its text *)

Lemma plain_node_of j : plain (node_of j) = j.
Proof.
  induction j as [|b|lit|s|l IH|m IH] using value_ind; try reflexivity.
  - cbn [node_of plain]. f_equal. rewrite map_map.
    induction IH as [|x r Hx Hr IHr]; [reflexivity|]. cbn [map]. congruence.
  - cbn [node_of plain]. f_equal. rewrite map_map.
    induction IH as [|[k x] r Hx Hr IHr]; [reflexivity|].
    cbn [map fst snd] in *. congruence.
Qed.

Lemma text_node_of j : text (node_of j) = render j.
Proof. destruct j; reflexivity. Qed.

Lemma substring_length a b : substring 0 (String.length a) (a ++ b) = a.
Proof. induction a as [|c a IH]; [now destruct b | cbn; now rewrite IH]. Qed.

Lemma before_app a b : before (a ++ b) b = a.
Proof.
  unfold before. rewrite length_append, Nat.add_sub. apply substring_length.
Qed.

Lemma number_start_other c :
  JsonNumber.number_start c = true ->
  is_ws c = false /\ Ascii.eqb c "{" = false /\ Ascii.eqb c "[" = false
  /\ Ascii.eqb c dquote = false /\ Ascii.eqb c "n" = false
  /\ Ascii.eqb c "t" = false /\ Ascii.eqb c "f" = false
  /\ Ascii.eqb c "]" = false /\ Ascii.eqb c "}" = false.
Proof.
  destruct c as [[] [] [] [] [] [] [] []]; intros H; try discriminate H;
    repeat split; reflexivity.
Qed.

Lemma render_opens j t : wf j = true -> opens (render j ++ t).
Proof.
  unfold opens. destruct j as [|[]|lit|s|[|x r]|[|[k x] r]]; intros W;
    try (cbn [render append]; eexists _, _; split; [reflexivity|];
         repeat split; reflexivity).
  destruct (JsonNumberFacts.literal_start _ W) as (c & r & -> & S).
  apply number_start_other in S. exists c, (r ++ t).
  split; [reflexivity|]. tauto.
Qed.

Lemma parse_num f lit t :
  JsonNumber.is_literal lit = true -> JsonNumber.number_end t = true ->
  parse_value (S f) (lit ++ t) = Some (NAtom lit (ANum lit), t).
Proof.
  intros L E. pose proof (before_app lit t) as B.
  destruct (JsonNumberFacts.literal_start _ L) as (c & r & -> & S).
  pose proof (JsonNumberFacts.literal_app _ _ L E) as A.
  apply number_start_other in S.
  destruct S as (W & S1 & S2 & S3 & S4 & S5 & S6 & _).
  cbn [parse_value append skip_ws] in *.
  rewrite W, S1, S2, S3, S4, S5, S6, A, B. reflexivity.
Qed.

Lemma parse_str f s t :
  Utf8.valid s = true ->
  parse_value (S f) (JsonString.literal s ++ t)
  = Some (NAtom (JsonString.literal s) (AStr s), t).
Proof.
  intros V. pose proof (before_app (JsonString.literal s) t) as B. revert B.
  unfold JsonString.literal, quoted.
  cbn [append]. rewrite append_assoc. cbn [append]. intros B.
  change (parse_value (S f) (String dquote ?x))
    with (match JsonString.lex x with
          | Some (y, t') => Some (NAtom (before (String dquote x) t') (AStr y), t')
          | None => None
          end).
  rewrite JsonStringFacts.lex_escape by assumption. rewrite B. reflexivity.
Qed.

Lemma parse_key_literal k t :
  Utf8.valid k = true ->
  parse_key (JsonString.literal k ++ String ":" t) = Some (k, t).
Proof.
  intros V. unfold JsonString.literal, quoted.
  cbn [append]. rewrite append_assoc. cbn [append].
  unfold parse_key. cbn [skip_ws].
  change (is_ws dquote) with false. cbn iota.
  change (Ascii.eqb dquote dquote) with true. cbn iota.
  rewrite JsonStringFacts.lex_escape by assumption. reflexivity.
Qed.

Lemma parse_arr_cons f R :
  opens R ->
  parse_value (S f) (String "[" R)
  = match parse_value f R with
    | None => None
    | Some (x, t) =>
        match parse_elems f t with
        | None => None
        | Some (l, t') => Some (NArr (before (String "[" R) t') (x :: l), t')
        end
    end.
Proof.
  intros (c & r & -> & W & B & _).
  cbn [parse_value skip_ws]. change (is_ws "[") with false. cbn iota.
  change (Ascii.eqb "[" "{") with false. change (Ascii.eqb "[" "[") with true.
  cbn iota. cbn [skip_ws]. rewrite W, B. reflexivity.
Qed.

Lemma parse_elems_cons f R :
  parse_elems (S f) (String "," R)
  = match parse_value f R with
    | None => None
    | Some (x, t) =>
        match parse_elems f t with
        | None => None
        | Some (l, t') => Some (x :: l, t')
        end
    end.
Proof. reflexivity. Qed.

Lemma parse_obj_cons f R :
  opens R ->
  parse_value (S f) (String "{" R)
  = match parse_key R with
    | None => None
    | Some (k, t) =>
        match parse_value f t with
        | None => None
        | Some (x, t') =>
            match parse_members f t' with
            | None => None
            | Some (m, t'') =>
                Some (NObj (before (String "{" R) t'') ((k, x) :: m), t'')
            end
        end
    end.
Proof.
  intros (c & r & -> & W & _ & B).
  cbn [parse_value skip_ws]. change (is_ws "{") with false. cbn iota.
  change (Ascii.eqb "{" "{") with true. cbn iota. cbn [skip_ws].
  rewrite W, B. reflexivity.
Qed.

Lemma parse_members_cons f R :
  parse_members (S f) (String "," R)
  = match parse_key R with
    | None => None
    | Some (k, t) =>
        match parse_value f t with
        | None => None
        | Some (x, t') =>
            match parse_members f t' with
            | None => None
            | Some (m, t'') => Some ((k, x) :: m, t'')
            end
        end
    end.
Proof. reflexivity. Qed.

Lemma size_pos j : 1 <= size j.
Proof. destruct j as [| | | |[|x r]|[|[k x] r]]; simpl; lia. Qed.

Lemma size_elems_pos l : 1 <= size_elems l.
Proof. destruct l; simpl; lia. Qed.

Lemma size_members_pos m : 1 <= size_members m.
Proof. destruct m as [|[k x] r]; simpl; lia. Qed.

Lemma elems_tail_end r t : JsonNumber.number_end (elems_tail r ++ t) = true.
Proof. destruct r; reflexivity. Qed.

Lemma members_tail_end r t : JsonNumber.number_end (members_tail r ++ t) = true.
Proof. destruct r as [|[k x] r]; reflexivity. Qed.

Lemma parse_render_fuel (f : nat) :
  (forall j rest, size j <= f -> wf j = true ->
     JsonNumber.number_end rest = true ->
     parse_value f (render j ++ rest) = Some (node_of j, rest))
  /\ (forall l rest, size_elems l <= f -> wf_elems l = true ->
        parse_elems f (elems_tail l ++ rest) = Some (map node_of l, rest))
  /\ (forall m rest, size_members m <= f -> wf_members m = true ->
        parse_members f (members_tail m ++ rest)
        = Some (map (fun kx => (fst kx, node_of (snd kx))) m, rest)).
Proof.
  induction f as [|f (IHv & IHe & IHm)].
  { repeat split; intros x rest H.
    - pose proof (size_pos x). lia.
    - pose proof (size_elems_pos x). lia.
    - pose proof (size_members_pos x). lia. }
  repeat split.
  - intros j rest Hs Hw He.
    destruct j as [|[]|lit|s|[|x r]|[|[k x] r]];
      try (match goal with
           | |- parse_value _ (render ?j ++ _) = _ =>
               pose proof (before_app (render j) rest) as B
           end;
           cbn in B |- *; unfold keyword; cbn; rewrite B; reflexivity).
    + apply parse_num; assumption.
    + apply parse_str; assumption.
    + pose proof (before_app (render (JArr (x :: r))) rest) as B.
      cbn [node_of map]. revert B.
      rewrite render_arr_cons. rewrite size_arr in Hs. rewrite wf_arr in Hw.
      cbn [size_elems wf_elems] in *. apply andb_true_iff in Hw as [Wx Wr].
      cbn [append]. rewrite append_assoc. intros B.
      rewrite parse_arr_cons by (apply render_opens; assumption).
      rewrite IHv; [| lia | assumption | apply elems_tail_end].
      rewrite IHe; [| lia | assumption]. rewrite B. reflexivity.
    + pose proof (before_app (render (JObj ((k, x) :: r))) rest) as B.
      cbn [node_of map fst snd]. revert B.
      rewrite render_obj_cons. rewrite size_obj in Hs. rewrite wf_obj in Hw.
      cbn [size_members wf_members] in *.
      apply andb_true_iff in Hw as [Hw Wr]. apply andb_true_iff in Hw as [Wk Wx].
      cbn [append]. rewrite append_assoc. cbn [append]. rewrite append_assoc.
      intros B. rewrite parse_obj_cons.
      2:{ unfold JsonString.literal, quoted. cbn [append].
          eexists _, _. split; [reflexivity|]. repeat split; reflexivity. }
      rewrite parse_key_literal by assumption.
      rewrite IHv; [| lia | assumption | apply members_tail_end].
      rewrite IHm; [| lia | assumption]. rewrite B. reflexivity.
  - intros l rest Hs Hw. destruct l as [|x r]; [reflexivity|].
    cbn [size_elems wf_elems elems_tail append map] in *.
    apply andb_true_iff in Hw as [Wx Wr].
    rewrite append_assoc, parse_elems_cons.
    rewrite IHv; [| lia | assumption | apply elems_tail_end].
    rewrite IHe; [reflexivity | lia | assumption].
  - intros m rest Hs Hw. destruct m as [|[k x] r]; [reflexivity|].
    cbn [size_members wf_members members_tail append map fst snd] in *.
    apply andb_true_iff in Hw as [Hw Wr]. apply andb_true_iff in Hw as [Wk Wx].
    rewrite append_assoc. cbn [append]. rewrite append_assoc.
    rewrite parse_members_cons, parse_key_literal by assumption.
    rewrite IHv; [| lia | assumption | apply members_tail_end].
    rewrite IHm; [reflexivity | lia | assumption].
Qed.

Lemma size_le_length j : size j <= S (String.length (render j)).
Proof.
  induction j as [|b|lit|s|l IH|m IH] using value_ind; try (simpl; lia).
  - destruct l as [|x r]; [simpl; lia|].
    rewrite size_arr, render_arr_cons. cbn [size_elems String.length].
    rewrite length_append. inversion IH as [|? ? Hx Hr]; subst.
    assert (A : size_elems r <= S (String.length (elems_tail r))).
    { clear -Hr. induction Hr as [|y r Hy Hr IHr]; [simpl; lia|].
      cbn [size_elems elems_tail append String.length].
      rewrite length_append. lia. }
    lia.
  - destruct m as [|[k x] r]; [simpl; lia|].
    rewrite size_obj, render_obj_cons. cbn [size_members String.length].
    rewrite !length_append. cbn [String.length]. rewrite length_append.
    inversion IH as [|? ? Hx Hr]; subst. cbn [snd] in Hx.
    assert (A : size_members r <= S (String.length (members_tail r))).
    { clear -Hr. induction Hr as [|[k' y] r Hy Hr IHr]; [simpl; lia|].
      cbn [size_members members_tail append String.length snd] in *.
      rewrite !length_append. cbn [String.length]. rewrite length_append. lia. }
    lia.
Qed.

(** The reader inverts the writer, and finds each value in the text
    that was written for it. *)
Theorem scan_render (j : value) : wf j = true -> scan (render j) = ok (node_of j).
Proof.
  intros W. unfold scan.
  pose proof (proj1 (parse_render_fuel (S (String.length (render j))))
                j "" (size_le_length j) W eq_refl) as H.
  rewrite append_nil_r in H. rewrite H. reflexivity.
Qed.

Theorem read_render (j : value) :
  wf j = true -> (depth j <= maxNestingDepth)%N -> read (render j) = ok (node_of j).
Proof.
  intros W D. unfold read. rewrite (scan_render j W). cbn [bind].
  rewrite plain_node_of. apply N.leb_le in D. now rewrite D.
Qed.

Theorem parse_render (j : value) :
  wf j = true -> (depth j <= maxNestingDepth)%N -> parse (render j) = ok j.
Proof.
  intros W D. unfold parse. rewrite (read_render j W D). cbn.
  now rewrite plain_node_of.
Qed.

(** *** The fuel of the reader *)

Lemma skip_ws_length s : String.length (skip_ws s) <= String.length s.
Proof.
  induction s as [|c r IH]; [apply Nat.le_refl|]. cbn [skip_ws].
  destruct (is_ws c); cbn [String.length]; lia.
Qed.

Lemma skip_ws_cons s c r :
  skip_ws s = String c r -> String.length r < String.length s.
Proof.
  intros H. pose proof (skip_ws_length s) as L. rewrite H in L.
  cbn [String.length] in L. lia.
Qed.

Lemma strip_prefix_length p : forall s t,
  strip_prefix p s = Some t -> String.length t <= String.length s.
Proof.
  induction p as [|a p IH]; intros [|b s] t H; cbn [strip_prefix] in H;
    try discriminate.
  - injection H as <-. apply Nat.le_refl.
  - injection H as <-. apply Nat.le_refl.
  - destruct (Ascii.eqb a b); [|discriminate]. apply IH in H.
    cbn [String.length]. lia.
Qed.

Lemma keyword_length p a here s r :
  keyword p a here s = Some r -> String.length (snd r) <= String.length s.
Proof.
  unfold keyword. destruct (strip_prefix p s) as [t|] eqn:E; [|discriminate].
  intros [= <-]. now apply strip_prefix_length in E.
Qed.

Lemma parse_key_consumes s k t :
  parse_key s = Some (k, t) -> String.length t < String.length s.
Proof.
  unfold parse_key. destruct (skip_ws s) as [|c r] eqn:S1; [discriminate|].
  destruct (Ascii.eqb c dquote); [|discriminate].
  destruct (JsonString.lex r) as [[k' t']|] eqn:L; [|discriminate].
  destruct (skip_ws t') as [|c' t''] eqn:S2; [discriminate|].
  destruct (Ascii.eqb c' ":"); [|discriminate]. intros [= _ <-].
  apply skip_ws_cons in S1, S2. apply JsonStringFacts.lex_consumes in L. lia.
Qed.

(** More fuel reads the same. *)
Lemma parse_fuel_mono (n : nat) :
  (forall s r, parse_value n s = Some r ->
     forall m, n <= m -> parse_value m s = Some r)
  /\ (forall s r, parse_elems n s = Some r ->
        forall m, n <= m -> parse_elems m s = Some r)
  /\ (forall s r, parse_members n s = Some r ->
        forall m, n <= m -> parse_members m s = Some r).
Proof.
  induction n as [|n (IHv & IHe & IHm)]; [repeat split; discriminate|].
  repeat split; intros s r H [|m] Hm; try lia;
    assert (Hm' : n <= m) by lia;
    cbn [parse_value parse_elems parse_members] in *;
    repeat match type of H with
           | context [match ?e with _ => _ end] =>
               first [ is_var e; destruct e | destruct e eqn:? ];
               try discriminate H
           end;
    repeat match goal with
           | F : parse_value n ?a = Some ?x |- context [parse_value m ?a] =>
               rewrite (IHv a x F m Hm')
           | F : parse_elems n ?a = Some ?x |- context [parse_elems m ?a] =>
               rewrite (IHe a x F m Hm')
           | F : parse_members n ?a = Some ?x |- context [parse_members m ?a] =>
               rewrite (IHm a x F m Hm')
           end;
    exact H.
Qed.

(** What is read takes up at least one character, and as much fuel as
    characters is enough to read it. *)
Lemma parse_fuel_enough (n : nat) :
  (forall s j t, parse_value n s = Some (j, t) ->
     String.length t < String.length s
     /\ parse_value (String.length s - String.length t) s = Some (j, t))
  /\ (forall s l t, parse_elems n s = Some (l, t) ->
        String.length t < String.length s
        /\ parse_elems (String.length s - String.length t) s = Some (l, t))
  /\ (forall s m t, parse_members n s = Some (m, t) ->
        String.length t < String.length s
        /\ parse_members (String.length s - String.length t) s = Some (m, t)).
Proof.
  induction n as [|n (IHv & IHe & IHm)]; [repeat split; discriminate|].
  repeat match goal with |- _ /\ _ => split end; intros s x t H;
    cbn [parse_value parse_elems parse_members] in H;
    repeat match type of H with
           | context [match ?e with _ => _ end] =>
               first [ is_var e; destruct e | destruct e eqn:? ];
               try discriminate H
           end;
    try (injection H as <- <-);
    repeat match goal with
           | F : skip_ws _ = String _ _ |- _ => note (skip_ws_cons _ F)
           | F : parse_key _ = Some _ |- _ => note (parse_key_consumes _ F)
           | F : JsonString.lex _ = Some _ |- _ => note (JsonStringFacts.lex_consumes _ F)
           | F : JsonNumber.lex _ = Some _ |- _ =>
               note (JsonNumberFacts.number_consumes _ F)
           | F : keyword _ _ _ _ = Some _ |- _ => note (keyword_length _ _ _ _ F)
           | F : parse_value n _ = Some _ |- _ => note (IHv _ _ _ F)
           | F : parse_elems n _ = Some _ |- _ => note (IHe _ _ _ F)
           | F : parse_members n _ = Some _ |- _ => note (IHm _ _ _ F)
           end;
    repeat match goal with F : _ /\ _ |- _ => destruct F end;
    cbn [snd String.length] in *.
  all: (split; [lia|]).
  all: match goal with
       | |- context [String.length ?a - String.length ?b] =>
           destruct (String.length a - String.length b) as [|k] eqn:K; [lia|]
       end.
  all: cbn [parse_value parse_elems parse_members].
  all: repeat match goal with
              | F : ?l = _ |- context [match ?l with _ => _ end] => rewrite F
              | F : parse_value ?i ?a = Some ?r |- context [parse_value ?k ?a] =>
                  rewrite (proj1 (parse_fuel_mono i) a r F k) by lia
              | F : parse_elems ?i ?a = Some ?r |- context [parse_elems ?k ?a] =>
                  rewrite (proj1 (proj2 (parse_fuel_mono i)) a r F k) by lia
              | F : parse_members ?i ?a = Some ?r |- context [parse_members ?k ?a] =>
                  rewrite (proj2 (proj2 (parse_fuel_mono i)) a r F k) by lia
              end.
  all: try reflexivity.
  all: assumption.
Qed.

(** The fuel [parse] gives is enough: what any amount of fuel reads,
    it reads. *)
Theorem parse_value_fuel (n : nat) (s : string) (j : node) (t : string) :
  parse_value n s = Some (j, t) ->
  parse_value (S (String.length s)) s = Some (j, t).
Proof.
  intros H. destruct (proj1 (parse_fuel_enough n) s j t H) as [L E].
  apply (proj1 (parse_fuel_mono _) s (j, t) E). lia.
Qed.

(** So a text that [scan] refuses is refused with any fuel. *)
Corollary scan_refuses (s : string) (e : error) :
  scan s = err e ->
  forall n, match parse_value n s with
            | Some (_, rest) => skip_ws rest <> ""
            | None => True
            end.
Proof.
  unfold scan. intros H n.
  destruct (parse_value n s) as [[j t]|] eqn:P; [|exact I].
  rewrite (parse_value_fuel n s P) in H.
  destruct (skip_ws t); [discriminate | discriminate].
Qed.

(** *** From the text to the value and back *)

Lemma read_scan s n :
  read s = ok n -> scan s = ok n /\ (depth (plain n) <= maxNestingDepth)%N.
Proof.
  unfold read. destruct (scan s) as [n'|e]; [|discriminate]. cbn [bind].
  destruct (depth (plain n') <=? maxNestingDepth)%N eqn:D; [|discriminate].
  intros [= <-]. split; [reflexivity | now apply N.leb_le].
Qed.

Lemma scan_read s n :
  scan s = ok n -> (depth (plain n) <= maxNestingDepth)%N -> read s = ok n.
Proof.
  intros S D. unfold read. rewrite S. cbn [bind]. apply N.leb_le in D.
  now rewrite D.
Qed.

Lemma scan_deep s n :
  scan s = ok n -> (maxNestingDepth < depth (plain n))%N -> read s = err SyntaxError.
Proof.
  intros S D. unfold read. rewrite S. cbn [bind]. apply N.leb_gt in D.
  now rewrite D.
Qed.

Lemma parse_ok s j : parse s = ok j -> exists n, read s = ok n /\ plain n = j.
Proof.
  unfold parse, fmap. destruct (read s) as [n|e]; [|discriminate].
  cbn [bind]. intros [= <-]. eauto.
Qed.

Lemma parse_err s e : parse s = err e -> read s = err e.
Proof.
  unfold parse, fmap. destruct (read s) as [n|e']; [discriminate|].
  cbn [bind]. now intros [= <-].
Qed.

Lemma read_parse s n : read s = ok n -> parse s = ok (plain n).
Proof. intros H. unfold parse. now rewrite H. Qed.

Lemma plain_atom n a : plain n = value_of_atom a -> exists t, n = NAtom t a.
Proof.
  destruct n as [t b|t l|t m]; destruct a; try discriminate;
    destruct b; try discriminate; intros [=]; subst; eauto.
Qed.

Lemma plain_null n : plain n = JNull -> exists t, n = NAtom t ANull.
Proof. apply (plain_atom n ANull). Qed.

Lemma plain_str n s : plain n = JStr s -> exists t, n = NAtom t (AStr s).
Proof. apply (plain_atom n (AStr s)). Qed.

Lemma plain_num n lit : plain n = JNum lit -> exists t, n = NAtom t (ANum lit).
Proof. apply (plain_atom n (ANum lit)). Qed.

Lemma plain_bool n b : plain n = JBool b -> exists t, n = NAtom t (ABool b).
Proof. apply (plain_atom n (ABool b)). Qed.

Lemma plain_arr n l :
  plain n = JArr l -> exists t l', n = NArr t l' /\ map plain l' = l.
Proof.
  destruct n as [t a|t l'|t m]; try (destruct a; discriminate); try discriminate.
  intros [= <-]. eauto.
Qed.

Lemma plain_obj n m :
  plain n = JObj m ->
  exists t m', n = NObj t m' /\ map (fun kx => (fst kx, plain (snd kx))) m' = m.
Proof.
  destruct n as [t a|t l'|t m']; try (destruct a; discriminate); try discriminate.
  intros [= <-]. eauto.
Qed.

(** *** Atoms are read in their own text *)

Lemma strip_prefix_sound p : forall s t, strip_prefix p s = Some t -> s = p ++ t.
Proof.
  induction p as [|a p IH]; intros [|b s] t H; cbn [strip_prefix] in H;
    try discriminate.
  - now injection H as <-.
  - now injection H as <-.
  - destruct (Ascii.eqb a b) eqn:E; [|discriminate]. apply Ascii.eqb_eq in E.
    subst b. cbn. f_equal. now apply IH.
Qed.

Lemma keyword_verbatim p a c r n t :
  keyword p a (String c r) r = Some (n, t) ->
  n = NAtom (String c p) a /\ String.length t <= String.length r.
Proof.
  unfold keyword. destruct (strip_prefix p r) as [t'|] eqn:E; [|discriminate].
  intros [= <- <-]. pose proof (strip_prefix_length _ _ E) as L.
  apply strip_prefix_sound in E. subst r.
  change (String c (p ++ t')) with (String c p ++ t'). now rewrite before_app.
Qed.

Lemma parse_verbatim (f : nat) :
  (forall s n t, parse_value f s = Some (n, t) -> verbatim n = true)
  /\ (forall s l t, parse_elems f s = Some (l, t) -> forallb verbatim l = true)
  /\ (forall s m t, parse_members f s = Some (m, t) ->
        forallb (fun kx => verbatim (snd kx)) m = true).
Proof.
  induction f as [|f (IHv & IHe & IHm)]; [repeat split; discriminate|].
  repeat match goal with |- _ /\ _ => split end; intros s x t H;
    cbn [parse_value parse_elems parse_members] in H;
    repeat match type of H with
           | context [match ?e with _ => _ end] =>
               first [ is_var e; destruct e | destruct e eqn:? ];
               try discriminate H
           end;
    try (injection H as <- <-);
    repeat match goal with
           | F : parse_value f _ = Some _ |- _ => apply IHv in F
           | F : parse_elems f _ = Some _ |- _ => apply IHe in F
           | F : parse_members f _ = Some _ |- _ => apply IHm in F
           | F : keyword _ _ _ _ = Some _ |- _ =>
               apply keyword_verbatim in F; destruct F as [-> _]
           end;
    cbn [verbatim forallb snd]; try reflexivity;
    repeat match goal with
           | F : _ = true |- _ => rewrite F
           end;
    try reflexivity.
  all: try match goal with
           | F : Ascii.eqb ?a ?c = true |- _ =>
               apply Ascii.eqb_eq in F; subst a; reflexivity
           end.
  match goal with
  | F : JsonNumber.lex _ = Some _ |- _ =>
      apply JsonNumberFacts.lex_sound in F; rewrite F, before_app
  end.
  apply String.eqb_refl.
Qed.

Theorem scan_verbatim s n : scan s = ok n -> verbatim n = true.
Proof.
  unfold scan.
  destruct (parse_value (S (String.length s)) s) as [[n' t]|] eqn:P;
    [|discriminate].
  destruct (skip_ws t); [|discriminate]. intros [= <-].
  exact (proj1 (parse_verbatim _) _ _ _ P).
Qed.

(** *** [Compact] leaves what the encoder wrote as it is *)

Lemma squeeze_cons st c r :
  squeeze st (String c r)
  = if html c then JsonString.u_escape (N_of_ascii c) ++ squeeze (step st c) r
    else
      let copy :=
        if negb (fst st) && is_ws c then squeeze st r
        else String c (squeeze (step st c) r) in
      if Ascii.eqb c "226" then
        match r with
        | String c1 (String c2 r2) =>
            match JsonString.line_sep c c1 c2 with
            | Some u =>
                JsonString.u_escape u ++ squeeze (step (step (step st c) c1) c2) r2
            | None => copy
            end
        | _ => copy
        end
      else copy.
Proof. reflexivity. Qed.

Lemma squeeze_escape_byte (c : ascii) (t : string) :
  Utf8.is_ascii c = true ->
  squeeze (true, false) (JsonString.escape_byte c ++ t)
  = JsonString.escape_byte c ++ squeeze (true, false) t.
Proof.
  destruct c as [b0 b1 b2 b3 b4 b5 b6 b7].
  destruct b7; [destruct b0, b1, b2, b3, b4, b5, b6; discriminate|].
  intros _.
  destruct b0, b1, b2, b3, b4, b5, b6; reflexivity.
Qed.

Lemma high_byte (c : ascii) :
  Utf8.is_ascii c = false ->
  html c = false /\ Ascii.eqb c dquote = false /\ Ascii.eqb c backslash = false.
Proof.
  destruct c as [[] [] [] [] [] [] [] []]; intros H; try discriminate H;
    repeat split; reflexivity.
Qed.

Lemma squeeze_high (c : ascii) (r : string) :
  Utf8.is_ascii c = false -> Ascii.eqb c "226" = false ->
  squeeze (true, false) (String c r) = String c (squeeze (true, false) r).
Proof.
  intros H E. destruct (high_byte c H) as (H1 & H2 & H3).
  rewrite squeeze_cons, H1, E. cbn [fst negb andb step]. now rewrite H2, H3.
Qed.

Lemma squeeze_lead (c0 c1 c2 : ascii) (r : string) :
  Utf8.is_ascii c0 = false -> JsonString.line_sep c0 c1 c2 = None ->
  squeeze (true, false) (String c0 (String c1 (String c2 r)))
  = String c0 (squeeze (true, false) (String c1 (String c2 r))).
Proof.
  intros H L. destruct (high_byte c0 H) as (H1 & H2 & H3).
  rewrite squeeze_cons, H1, L. cbn [fst negb andb step]. rewrite H2, H3.
  now destruct (Ascii.eqb c0 "226").
Qed.

(** Bytes that continue a character are neither ASCII nor the lead
    byte of a line separator. *)
Lemma byte_in_cont lo hi c :
  Utf8.byte_in lo hi c = true -> (128 <= lo)%N -> (hi <= 191)%N ->
  Utf8.is_ascii c = false /\ Ascii.eqb c "226" = false.
Proof.
  unfold Utf8.byte_in, Utf8.is_ascii. intros H L U.
  apply andb_true_iff in H as [H1 H2]. apply N.leb_le in H1, H2. split.
  - apply N.ltb_ge. lia.
  - apply Ascii.eqb_neq. intros ->. cbn in H2. lia.
Qed.

Lemma byte_in_not_226 lo hi c :
  Utf8.byte_in lo hi c = true -> (hi < 226 \/ 226 < lo)%N ->
  Ascii.eqb c "226" = false.
Proof.
  unfold Utf8.byte_in. intros H L.
  apply andb_true_iff in H as [H1 H2]. apply N.leb_le in H1, H2.
  apply Ascii.eqb_neq. intros ->. cbn in H1, H2. lia.
Qed.

Lemma width_conts (c0 : ascii) (r0 : string) :
  Utf8.is_ascii c0 = false ->
  match Utf8.width (String c0 r0) with
  | 0 => True
  | 2 => exists c1 r1, r0 = String c1 r1 /\ Ascii.eqb c0 "226" = false /\ cont c1
  | 3 => exists c1 c2 r2, r0 = String c1 (String c2 r2) /\ cont c1 /\ cont c2
  | 4 => exists c1 c2 c3 r3, r0 = String c1 (String c2 (String c3 r3))
           /\ Ascii.eqb c0 "226" = false /\ cont c1 /\ cont c2 /\ cont c3
  | _ => False
  end.
Proof.
  intros H. unfold Utf8.width. rewrite H.
  destruct (Utf8.byte_in 194 223 c0) eqn:B2.
  { destruct r0 as [|c1 r1]; [exact I|].
    destruct (Utf8.byte_in 128 191 c1) eqn:E; [|exact I].
    exists c1, r1. split; [reflexivity|]. split.
    - eapply byte_in_not_226; [exact B2 | lia].
    - eapply byte_in_cont; [exact E | lia | lia]. }
  destruct (Utf8.byte_in 224 239 c0).
  { destruct r0 as [|c1 [|c2 r2]]; try exact I.
    match goal with |- context [if ?b then 3 else 0] => destruct b eqn:E end;
      [|exact I].
    apply andb_true_iff in E as [E1 E2].
    exists c1, c2, r2. split; [reflexivity|]. split.
    - eapply byte_in_cont; [exact E1 | destruct (Ascii.eqb c0 "224"); lia
                             | destruct (Ascii.eqb c0 "237"); lia].
    - eapply byte_in_cont; [exact E2 | lia | lia]. }
  destruct (Utf8.byte_in 240 244 c0) eqn:B4.
  { destruct r0 as [|c1 [|c2 [|c3 r3]]]; try exact I.
    match goal with |- context [if ?b then 4 else 0] => destruct b eqn:E end;
      [|exact I].
    apply andb_true_iff in E as [E E3]. apply andb_true_iff in E as [E1 E2].
    exists c1, c2, c3, r3. split; [reflexivity|]. split; [|split; [|split]].
    - eapply byte_in_not_226; [exact B4 | lia].
    - eapply byte_in_cont; [exact E1 | destruct (Ascii.eqb c0 "240"); lia
                             | destruct (Ascii.eqb c0 "244"); lia].
    - eapply byte_in_cont; [exact E2 | lia | lia].
    - eapply byte_in_cont; [exact E3 | lia | lia]. }
  exact I.
Qed.

Lemma squeeze_line_sep (c0 c1 c2 : ascii) (u : N) (t : string) :
  JsonString.line_sep c0 c1 c2 = Some u ->
  squeeze (true, false) (JsonString.u_escape u ++ t)
  = JsonString.u_escape u ++ squeeze (true, false) t.
Proof.
  unfold JsonString.line_sep.
  destruct (Ascii.eqb c0 "226" && Ascii.eqb c1 "128"); [|discriminate].
  destruct (Ascii.eqb c2 "168"); [intros [= <-]; reflexivity|].
  destruct (Ascii.eqb c2 "169"); [intros [= <-]; reflexivity | discriminate].
Qed.

Lemma squeeze_escape_le (n : nat) : forall s rest,
  String.length s <= n ->
  squeeze (true, false) (JsonString.escape s ++ String dquote rest)
  = JsonString.escape s ++ String dquote (squeeze (false, false) rest).
Proof.
  induction n as [|n IH]; intros s rest Hn.
  { destruct s; [reflexivity | simpl in Hn; lia]. }
  destruct s as [|c0 r0]; [reflexivity|].
  cbn [JsonString.escape]. cbn [String.length] in Hn.
  destruct (Utf8.is_ascii c0) eqn:A.
  { rewrite append_assoc, squeeze_escape_byte by assumption.
    rewrite IH by lia. now rewrite append_assoc. }
  pose proof (width_conts c0 r0 A) as WC.
  destruct (Utf8.width (String c0 r0)) as [|[|[|[|[|w]]]]] eqn:W;
    try contradiction.
  - assert (E : forall t, squeeze (true, false) (JsonString.u_escape 65533 ++ t)
                         = JsonString.u_escape 65533 ++ squeeze (true, false) t)
      by reflexivity.
    destruct r0 as [|c1 r1]; cbn iota; rewrite append_assoc, E;
      rewrite IH by (cbn [String.length] in *; lia); now rewrite append_assoc.
  - destruct WC as (c1 & r1 & -> & E0 & A1 & E1). cbn [String.length] in Hn.
    cbn [append]. rewrite (@squeeze_high _ _ A E0), (@squeeze_high _ _ A1 E1).
    now rewrite IH by lia.
  - destruct WC as (c1 & c2 & r2 & -> & (A1 & E1) & (A2 & E2)).
    cbn [String.length] in Hn.
    destruct (JsonString.line_sep c0 c1 c2) as [u|] eqn:L.
    + rewrite append_assoc, (@squeeze_line_sep _ _ _ _ _ L).
      rewrite IH by lia. now rewrite append_assoc.
    + cbn [append]. rewrite (@squeeze_lead _ _ _ _ A L).
      rewrite (@squeeze_high _ _ A1 E1), (@squeeze_high _ _ A2 E2).
      now rewrite IH by lia.
  - destruct WC as (c1 & c2 & c3 & r3 & -> & E0 & (A1 & E1) & (A2 & E2) & (A3 & E3)).
    cbn [String.length] in Hn. cbn [append].
    rewrite (@squeeze_high _ _ A E0), (@squeeze_high _ _ A1 E1).
    rewrite (@squeeze_high _ _ A2 E2), (@squeeze_high _ _ A3 E3).
    now rewrite IH by lia.
Qed.

(** A string literal is left as it is, whatever text it stands for. *)
Lemma squeeze_literal (s rest : string) :
  squeeze (false, false) (JsonString.literal s ++ rest)
  = JsonString.literal s ++ squeeze (false, false) rest.
Proof.
  unfold JsonString.literal, quoted. cbn [append]. rewrite !append_assoc.
  cbn [append].
  change (squeeze (false, false) (String dquote ?t))
    with (String dquote (squeeze (true, false) t)).
  now rewrite (squeeze_escape_le (n := String.length s)) by apply Nat.le_refl.
Qed.

(** A number literal is made of digits, signs, a point and an [e]. *)
Lemma all_numeric_app a b :
  JsonNumber.all_numeric (a ++ b)
  = JsonNumber.all_numeric a && JsonNumber.all_numeric b.
Proof.
  induction a as [|c a IH]; [reflexivity|]. cbn. now rewrite IH, andb_assoc.
Qed.

Lemma span_digits_numeric s : forall d t,
  JsonNumber.span_digits s = (d, t) -> JsonNumber.all_numeric d = true.
Proof.
  induction s as [|c r IH]; cbn; intros d t H.
  - now injection H as <- <-.
  - destruct (JsonNumber.is_digit c) eqn:D.
    + destruct (JsonNumber.span_digits r) as [d' t']. injection H as <- <-.
      cbn. unfold JsonNumber.is_numeric. rewrite D. cbn. now apply (IH d' t').
    + now injection H as <- <-.
Qed.

Lemma nonempty_digits_numeric p s x t :
  JsonNumber.nonempty_digits p s = Some (x, t) ->
  JsonNumber.all_numeric p = true -> JsonNumber.all_numeric x = true.
Proof.
  unfold JsonNumber.nonempty_digits.
  destruct (JsonNumber.span_digits s) as [d t'] eqn:E.
  apply span_digits_numeric in E. destruct d; [discriminate|].
  intros [= <- <-] P. now rewrite all_numeric_app, P, E.
Qed.

Lemma lex_numeric s x t :
  JsonNumber.lex s = Some (x, t) -> JsonNumber.all_numeric x = true.
Proof.
  unfold JsonNumber.lex. destruct (JsonNumber.lex_sign s) as [sg s1] eqn:S1.
  destruct (JsonNumber.lex_int s1) as [[i s2]|] eqn:I; [|discriminate].
  destruct (JsonNumber.lex_frac s2) as [[f s3]|] eqn:F; [|discriminate].
  destruct (JsonNumber.lex_exp s3) as [[e s4]|] eqn:X; [|discriminate].
  intros [= <- <-]. rewrite !all_numeric_app.
  assert (A1 : JsonNumber.all_numeric sg = true).
  { destruct s as [|c r]; cbn in S1; [now injection S1 as <- <-|].
    destruct (Ascii.eqb c "-"); now injection S1 as <- <-. }
  assert (A2 : JsonNumber.all_numeric i = true).
  { destruct s1 as [|c r]; cbn in I; [discriminate|].
    destruct (Ascii.eqb c "0"); [now injection I as <- <-|].
    destruct (JsonNumber.is_digit c) eqn:D; [|discriminate].
    destruct (JsonNumber.span_digits r) as [d t'] eqn:E.
    injection I as <- <-. cbn. unfold JsonNumber.is_numeric. rewrite D. cbn.
    now apply span_digits_numeric in E. }
  assert (A3 : JsonNumber.all_numeric f = true).
  { destruct s2 as [|c r]; cbn in F; [now injection F as <- <-|].
    destruct (Ascii.eqb c ".");
      [now apply nonempty_digits_numeric in F | now injection F as <- <-]. }
  assert (A4 : JsonNumber.all_numeric e = true).
  { destruct s3 as [|c r]; cbn in X; [now injection X as <- <-|].
    destruct (Ascii.eqb c "e" || Ascii.eqb c "E") eqn:B;
      [|now injection X as <- <-].
    assert (N : JsonNumber.is_numeric c = true).
    { unfold JsonNumber.is_numeric. apply orb_true_iff in B as [-> | ->];
        rewrite ?orb_true_r; reflexivity. }
    destruct r as [|c' r']; [discriminate|].
    destruct (Ascii.eqb c' "+" || Ascii.eqb c' "-") eqn:B';
      apply nonempty_digits_numeric in X; try exact X; cbn; rewrite N;
      [|reflexivity].
    assert (N' : JsonNumber.is_numeric c' = true).
    { unfold JsonNumber.is_numeric. apply orb_true_iff in B' as [-> | ->];
        rewrite ?orb_true_r; reflexivity. }
    now rewrite N'. }
  now rewrite A1, A2, A3, A4.
Qed.

Lemma literal_numeric lit :
  JsonNumber.is_literal lit = true -> JsonNumber.all_numeric lit = true.
Proof.
  unfold JsonNumber.is_literal.
  destruct (JsonNumber.lex lit) as [[x t]|] eqn:L; [|discriminate].
  destruct t; [|discriminate]. intros _.
  pose proof (JsonNumberFacts.lex_sound _ L) as E. rewrite append_nil_r in E.
  subst x. exact (lex_numeric _ L).
Qed.

Lemma numeric_plain (c : ascii) :
  JsonNumber.is_numeric c = true ->
  html c = false /\ Ascii.eqb c "226" = false /\ is_ws c = false
  /\ Ascii.eqb c dquote = false.
Proof.
  destruct c as [[] [] [] [] [] [] [] []]; intros H; try discriminate H;
    repeat split; reflexivity.
Qed.

Lemma squeeze_numeric s rest :
  JsonNumber.all_numeric s = true ->
  squeeze (false, false) (s ++ rest) = s ++ squeeze (false, false) rest.
Proof.
  induction s as [|c r IH]; [reflexivity|]. cbn [JsonNumber.all_numeric append].
  intros H. apply andb_true_iff in H as [Hc Hr].
  destruct (numeric_plain c Hc) as (H1 & H2 & H3 & H4).
  rewrite squeeze_cons, H1, H2, H3. cbn [fst negb andb step]. rewrite H4.
  now rewrite IH.
Qed.

(** What [render] writes is left as it is. *)
Lemma squeeze_render (j : value) :
  wf j = true ->
  forall rest, squeeze (false, false) (render j ++ rest)
               = render j ++ squeeze (false, false) rest.
Proof.
  induction j as [|b|lit|s|l IH|m IH] using value_ind; intros W rest.
  - reflexivity.
  - destruct b; reflexivity.
  - apply squeeze_numeric, literal_numeric, W.
  - apply squeeze_literal.
  - destruct l as [|x r]; [reflexivity|].
    rewrite render_arr_cons. rewrite wf_arr in W. cbn [wf_elems] in W.
    apply andb_true_iff in W as [Wx Wr]. inversion IH as [|? ? Hx Hr]; subst.
    assert (T : squeeze (false, false) (elems_tail r ++ rest)
                = elems_tail r ++ squeeze (false, false) rest).
    { clear Hx Wx IH. induction Hr as [|y r Hy Hr IHr]; [reflexivity|].
      cbn [wf_elems elems_tail append] in *. apply andb_true_iff in Wr as [Wy Wr].
      rewrite !append_assoc.
      change (squeeze (false, false) (String "," ?t))
        with (String "," (squeeze (false, false) t)).
      now rewrite (Hy Wy), (IHr Wr). }
    cbn [append]. rewrite !append_assoc.
    change (squeeze (false, false) (String "[" ?t))
      with (String "[" (squeeze (false, false) t)).
    now rewrite (Hx Wx), T.
  - destruct m as [|[k x] r]; [reflexivity|].
    rewrite render_obj_cons. rewrite wf_obj in W. cbn [wf_members] in W.
    apply andb_true_iff in W as [W Wr]. apply andb_true_iff in W as [Wk Wx].
    inversion IH as [|? ? Hx Hr]; subst. cbn [snd] in Hx.
    assert (T : squeeze (false, false) (members_tail r ++ rest)
                = members_tail r ++ squeeze (false, false) rest).
    { clear Hx Wx Wk IH. induction Hr as [|[k' y] r Hy Hr IHr]; [reflexivity|].
      cbn [wf_members members_tail append snd] in *.
      apply andb_true_iff in Wr as [W Wr]. apply andb_true_iff in W as [Wk Wy].
      rewrite !append_assoc. cbn [append]. rewrite !append_assoc.
      change (squeeze (false, false) (String "," ?t))
        with (String "," (squeeze (false, false) t)).
      rewrite squeeze_literal.
      change (squeeze (false, false) (String ":" ?t))
        with (String ":" (squeeze (false, false) t)).
      now rewrite (Hy Wy), (IHr Wr). }
    cbn [append]. rewrite !append_assoc. cbn [append]. rewrite !append_assoc.
    change (squeeze (false, false) (String "{" ?t))
      with (String "{" (squeeze (false, false) t)).
    rewrite squeeze_literal.
    change (squeeze (false, false) (String ":" ?t))
      with (String ":" (squeeze (false, false) t)).
    now rewrite (Hx Wx), T.
Qed.

Theorem squeeze_rendered (j : value) :
  wf j = true -> squeeze (false, false) (render j) = render j.
Proof.
  intros W. pose proof (squeeze_render j W "") as H.
  now rewrite !append_nil_r in H.
Qed.

(** A value that is written as [null] is [null]. *)
Lemma render_null (j : value) : wf j = true -> render j = "null" -> j = JNull.
Proof.
  destruct j as [|[]|lit|s|[|x r]|[|[k x] r]]; try discriminate; try reflexivity.
  intros W E. cbn in W, E. subst lit. discriminate W.
Qed.

End JsonFacts.

(** ** Decimal integers *)

Module Decimal10Facts.

Import Decimal10.

Lemma format_nonnil n : N.to_uint n <> Decimal.Nil.
Proof.
  destruct n as [|p]; [discriminate|]. apply DecimalPos.Unsigned.to_uint_nonnil.
Qed.

Lemma parse_format n : parse (format n) = Some n.
Proof.
  unfold parse, format.
  rewrite NilEmpty.usu, DecimalN.Unsigned.of_to.
  pose proof (format_nonnil n) as H.
  destruct (N.to_uint n); try reflexivity. now destruct H.
Qed.

Lemma span_digits_format d :
  JsonNumber.span_digits (NilEmpty.string_of_uint d)
  = (NilEmpty.string_of_uint d, "").
Proof.
  induction d; [reflexivity | ..]; cbn [NilEmpty.string_of_uint JsonNumber.span_digits];
    rewrite IHd; reflexivity.
Qed.

Lemma unorm_format n : Decimal.unorm (N.to_uint n) = N.to_uint n.
Proof.
  rewrite <- (DecimalN.Unsigned.of_to n) at 2.
  symmetry. apply DecimalN.Unsigned.to_of.
Qed.

(** What is written for an integer is a number literal. *)
Lemma format_literal n : JsonNumber.is_literal (format n) = true.
Proof.
  unfold format. pose proof (unorm_format n) as H.
  destruct (N.to_uint n) as [|d|d|d|d|d|d|d|d|d|d];
    try (unfold JsonNumber.is_literal, JsonNumber.lex;
         cbn [NilEmpty.string_of_uint JsonNumber.lex_sign JsonNumber.lex_int];
         cbn -[JsonNumber.span_digits];
         rewrite span_digits_format; reflexivity).
  - discriminate H.
  - rewrite DecimalFacts.unorm_D0 in H.
    assert (d = Decimal.Nil) as ->.
    { unfold Decimal.unorm in H. destruct (Decimal.nzhead d) eqn:E;
        try discriminate H;
        [ now injection H
        | exfalso; eapply DecimalFacts.nzhead_nonzero; eassumption ]. }
    reflexivity.
Qed.

End Decimal10Facts.

(** ** [encoding/json] on Go types *)

Module ReflectFacts.

Import Json JsonFacts Reflect.

Section Facts.

Variable named : string -> codec.

(** [omitempty] leaves out what is vacant. *)
Lemma is_empty_vacant (t : gtype) (v : denote named t) :
  is_empty named t v = vacant named t v.
Proof.
  destruct t; cbn in *; try reflexivity;
    do 2 try match goal with
           | x : string |- _ => destruct x
           | x : bool |- _ => destruct x
           | x : N |- _ => destruct x
           | x : bytes |- _ => destruct x
           | x : option _ |- _ => destruct x
           | x : list _ |- _ => destruct x
           end;
    reflexivity.
Qed.

Lemma marshal_fields_keys (fs : gfields) :
  forall v m, marshal_fields named fs v = ok m -> map fst m = kept named fs v.
Proof.
  induction fs as [|g t tag rest IH]; intros v m H;
    cbn [marshal_fields kept] in *.
  - injection H as <-. reflexivity.
  - rewrite is_empty_vacant in H.
    destruct (omitempty tag && vacant named t (fst v)); [now apply IH|].
    destruct (marshalV named t (fst v)) as [j|e]; [|discriminate].
    cbn [bind] in H.
    destruct (marshal_fields named rest (snd v)) as [m'|e] eqn:E; [|discriminate].
    injection H as <-. cbn. f_equal. now apply IH.
Qed.

Lemma is_null_plain (n : node) :
  is_null n = match plain n with JNull => true | _ => false end.
Proof. destruct n as [t [| | |]|t l|t m]; reflexivity. Qed.

Lemma is_null_node_of (j : value) : is_null (node_of j) = true <-> j = JNull.
Proof. destruct j; cbn; split; congruence. Qed.

Lemma unmarshalV_nonnil (t : gtype) (x : node) :
  forall c v, unmarshalV named t x c = ok v -> nonnil named t v = sets t x.
Proof.
  destruct t; intros c v H; try reflexivity; cbn in *.
  - (* []byte *)
    rewrite is_null_plain. destruct (plain x); cbn in H; try discriminate H.
    + injection H as <-. reflexivity.
    + destruct (Base64.decode s); [|discriminate]. injection H as <-. reflexivity.
    + destruct (mapM _ l); [|discriminate]. injection H as <-. reflexivity.
  - injection H as <-. reflexivity.
  - destruct (is_null x); [injection H as <-; reflexivity|].
    destruct (unmarshalV named t _ _); [|discriminate].
    injection H as <-. reflexivity.
  - destruct x as [tx a|tx l|tx m]; cbn in *.
    + destruct a; try discriminate H. injection H as <-. reflexivity.
    + destruct (mapM _ l); [|discriminate]. injection H as <-. reflexivity.
    + discriminate H.
Qed.

Lemma unmarshal_field_flags (fs : gfields) (sel : string -> bool) (x : node) :
  forall c c', unmarshal_field named fs sel x c = ok c' ->
               flags named fs c' = track_field fs sel x (flags named fs c).
Proof.
  induction fs as [|g t tag rest IH]; intros c c' H;
    cbn [unmarshal_field flags track_field] in *.
  - injection H as <-. reflexivity.
  - destruct (sel (json_name g tag)).
    + destruct (unmarshalV named t x (fst c)) as [v|e] eqn:E; [|discriminate].
      injection H as <-. cbn [flags fst snd]. f_equal.
      eapply unmarshalV_nonnil, E.
    + destruct (unmarshal_field named rest sel x (snd c)) as [r|e] eqn:E;
        [|discriminate].
      injection H as <-. cbn [flags fst snd]. f_equal. now apply IH.
Qed.

Lemma set_keys_select (fs : gfields) :
  forall v, set_keys named fs v = select (names fs) (flags named fs v).
Proof.
  induction fs as [|g t tag rest IH]; intros v; [reflexivity|].
  cbn [set_keys names flags select]. rewrite IH. reflexivity.
Qed.

Lemma unmarshalV_struct fs text m c :
  unmarshalV named (TStruct fs) (NObj text m) c
  = foldM (decode_member named fs) m c.
Proof. reflexivity. Qed.

(** A decoded struct has exactly the fields set that the members of
    the object name, whatever else the input holds. *)
Lemma unmarshal_struct_flags (fs : gfields) (m : list (string * node)) :
  forall c v, foldM (decode_member named fs) m c = ok v ->
              flags named fs v = track fs m (flags named fs c).
Proof.
  unfold track.
  induction m as [|[k x] m IH]; intros c v H; cbn [foldM fold_left] in *.
  - injection H as <-. reflexivity.
  - unfold track_member at 2. unfold decode_member at 1 in H. cbn [fst snd].
    destruct (has_field (String.eqb k) fs).
    + destruct (unmarshal_field named fs (String.eqb k) x c) as [c'|e] eqn:E;
        [|discriminate].
      cbn [bind] in H. rewrite <- (unmarshal_field_flags _ _ _ _ E).
      now apply IH.
    + destruct (unmarshal_field named fs (fold_eqb k) x c) as [c'|e] eqn:E;
        [|discriminate].
      cbn [bind] in H. rewrite <- (unmarshal_field_flags _ _ _ _ E).
      now apply IH.
Qed.

(** Members that are taken one by one are taken together. *)
Lemma foldM_taken (fs : gfields) (m : list (string * node)) :
  Forall (taken named fs) m ->
  forall c, exists v, foldM (decode_member named fs) m c = ok v.
Proof.
  induction 1 as [|kx m T _ IH]; intros c; cbn [foldM]; [eauto|].
  destruct (T c) as (c' & ->). cbn [bind]. apply IH.
Qed.

(** And a member that is refused makes the object refused. *)
Lemma foldM_refused (fs : gfields) (m1 m2 : list (string * node))
  (kx : string * node) :
  forall c c' e,
    foldM (decode_member named fs) m1 c = ok c' ->
    decode_member named fs kx c' = err e ->
    foldM (decode_member named fs) (m1 ++ kx :: m2) c = err e.
Proof.
  induction m1 as [|kx1 m1 IH]; intros c c' e H1 H2; cbn [foldM app] in *.
  - injection H1 as ->. now rewrite H2.
  - destruct (decode_member named fs kx1 c) as [c1|e1]; [|discriminate].
    cbn [bind] in *. now apply (IH c1 c').
Qed.

Lemma null_keys_names (fs : gfields) :
  forall v k, In k (null_keys named fs v) -> In k (names fs).
Proof.
  induction fs as [|g t tag rest IH]; intros v k; cbn [null_keys names]; [intros []|].
  destruct (negb (omitempty tag && vacant named t (fst v)) && nullish named t (fst v)).
  - intros [<- | H]; [now left | right; eapply IH, H].
  - intros H. right. eapply IH, H.
Qed.

(** A [null] is written only for a field that can be [nil] and has no
    [omitempty], or for a raw message. *)
Lemma null_keys_places (fs : gfields) :
  forall v k, In k (null_keys named fs v) ->
              In k (null_fields fs) \/ In k (raw_fields fs).
Proof.
  induction fs as [|g t tag rest IH]; intros v k;
    cbn [null_keys null_fields raw_fields]; [intros []|].
  assert (R : In k (null_keys named rest (snd v)) ->
              In k (if nilable t && negb (omitempty tag)
                    then json_name g tag :: null_fields rest
                    else null_fields rest)
              \/ In k (match t with
                       | TRawMessage => json_name g tag :: raw_fields rest
                       | _ => raw_fields rest
                       end)).
  { intros H. destruct (IH _ _ H) as [H' | H'].
    - left. destruct (nilable t && negb (omitempty tag)); [now right | exact H'].
    - right. destruct t; try exact H'. now right. }
  destruct (negb (omitempty tag && vacant named t (fst v))
            && nullish named t (fst v)) eqn:B; [|exact R].
  intros [<- | H]; [|now apply R].
  apply andb_true_iff in B as [B1 B2]. apply negb_true_iff in B1.
  destruct t; cbn in B2; try discriminate B2.
  - left. destruct (fst v); [discriminate|]. cbn in B1.
    rewrite andb_true_r in B1. rewrite B1. now left.
  - right. now left.
  - left. destruct (fst v); [discriminate|]. cbn in B1.
    rewrite andb_true_r in B1. rewrite B1. now left.
  - left. destruct (fst v); [discriminate|]. cbn in B1.
    rewrite andb_true_r in B1. rewrite B1. now left.
Qed.

Variable named_good : forall n, carrier (named n) -> bool.

Variable named_norm : forall n, carrier (named n) -> carrier (named n).

Hypothesis named_roundtrip : forall n v,
  named_good n v = true ->
  exists j, enc (named n) v = ok (render j) /\ wf j = true
            /\ (depth j <= maxNestingDepth)%N /\ j <> JNull
            /\ dec (named n) (node_of j) (zero (named n)) = ok (named_norm n v).

(** Text that the encoder wrote itself passes its check unchanged. *)
Lemma compact_render (j : value) (type : string) :
  wf j = true -> (depth j <= maxNestingDepth)%N ->
  compact (render j) type = ok (render j).
Proof.
  intros W D. unfold compact. rewrite (read_render j W D).
  now rewrite (squeeze_rendered j W).
Qed.

Lemma has_field_name fs k : In k (names fs) -> has_field (String.eqb k) fs = true.
Proof.
  induction fs as [|g t tag rest IH]; cbn [names has_field]; [intros []|].
  intros [<- | H].
  - rewrite String.eqb_refl. reflexivity.
  - rewrite IH by assumption. apply orb_true_r.
Qed.

Lemma kept_incl fs : forall v k, In k (kept named fs v) -> In k (names fs).
Proof.
  induction fs as [|g t tag rest IH]; intros v k; cbn [kept names]; [intros []|].
  destruct (omitempty tag && vacant named t (fst v)).
  - intros H. right. eapply IH, H.
  - intros [<- | H]; [now left | right; eapply IH, H].
Qed.

(** Members that belong to later fields pass the first field by. *)
Lemma foldM_pass g t tag rest :
  forall m c1 cr,
    (forall k, In k (map fst m) ->
               String.eqb k (json_name g tag) = false
               /\ has_field (String.eqb k) rest = true) ->
    foldM (decode_member named (FCons g t tag rest)) m (c1, cr)
    = fmap (pair c1) (foldM (decode_member named rest) m cr).
Proof.
  induction m as [|[k x] m IH]; intros c1 cr H; [reflexivity|].
  cbn [foldM]. destruct (H k (or_introl eq_refl)) as [N F].
  unfold decode_member at 1 3. cbn [has_field unmarshal_field fst snd].
  rewrite N, F. cbn [orb].
  destruct (unmarshal_field named rest (String.eqb k) x cr) as [r|e];
    [|reflexivity].
  cbn [bind]. apply IH. intros k' Hk'. apply H. now right.
Qed.

Lemma nonnull_nullish (t : gtype) (v : denote named t) :
  nonnull_type t = true -> nullish named t v = false.
Proof. destruct t; try discriminate; reflexivity. Qed.

Lemma mapM_roundtrip (t : gtype)
  (IH : forall v, good named named_good t v = true ->
          exists j, marshalV named t v = ok (render j) /\ wf j = true
                    /\ unmarshalV named t (node_of j) (zero_of named t)
                       = ok (norm named named_norm t v)) :
  forall l, forallb (good named named_good t) l = true ->
    exists js, mapM (marshalV named t) l = ok (map render js)
               /\ wf_elems js = true
               /\ mapM (fun x => unmarshalV named t x (zero_of named t))
                    (map node_of js)
                  = ok (map (norm named named_norm t) l).
Proof.
  induction l as [|v l IHl]; cbn [forallb mapM map]; intros G.
  - exists []. repeat split.
  - apply andb_true_iff in G as [Gv Gl].
    destruct (IH v Gv) as (j & Ej & Wj & Dj).
    destruct (IHl Gl) as (js & Ejs & Wjs & Djs).
    exists (j :: js). rewrite Ej, Ejs. cbn [bind mapM wf_elems map].
    rewrite Wj, Wjs, Dj. cbn [bind]. rewrite Djs. repeat split.
Qed.

Lemma roundtrip_all :
  (forall t, roundtrip_at named named_good named_norm t)
  /\ (forall fs, roundtrip_fields named named_good named_norm fs).
Proof.
  apply gtype_gfields_ind; unfold roundtrip_at, roundtrip_fields.
  - (* string *)
    intros _ s G. exists (JStr s).
    repeat split; try exact G; discriminate.
  - intros _ b _. exists (JBool b). destruct b; repeat split; discriminate.
  - (* unsigned integers *)
    intros bits _ n G. exists (JNum (Decimal10.format n)).
    repeat split; try discriminate; [apply Decimal10Facts.format_literal|].
    cbn [unmarshalV unmarshal_uint node_of plain value_of_atom].
    rewrite Decimal10Facts.parse_format.
    cbn [good] in G. rewrite G. reflexivity.
  - (* []byte *)
    intros _ [s|] _.
    + exists (JStr (Base64.encode s)).
      repeat split; try discriminate; [apply Base64Facts.encode_valid|].
      cbn [unmarshalV unmarshal_bytes node_of plain value_of_atom].
      rewrite Base64Facts.decode_encode. reflexivity.
    + exists JNull. repeat split.
  - (* json.RawMessage *)
    intros _ [raw|] G; [|discriminate G].
    cbn [good] in G. unfold canonical in G.
    destruct (read raw) as [n|e] eqn:E; [|discriminate].
    apply andb_true_iff in G as [W R]. apply String.eqb_eq in R.
    destruct (read_scan _ E) as [_ D].
    exists (plain n). cbn [marshalV]. rewrite <- R at 1.
    rewrite (compact_render (plain n) _ W D). split; [reflexivity|]. split; [exact W|].
    split.
    + cbn [nullish]. split.
      * intros N. rewrite N in R. cbn in R. subst raw. reflexivity.
      * intros N. apply String.eqb_eq in N. subst raw.
        now apply render_null.
    + cbn [unmarshalV norm]. now rewrite text_node_of, R.
  - (* pointers *)
    intros t IH W [v|] G.
    + cbn [wf_type good] in *. apply andb_true_iff in W as [NN W].
      destruct (IH W v G) as (j & Ej & Wj & Nj & Dj).
      rewrite (nonnull_nullish t v NN) in Nj.
      exists j. split; [exact Ej|]. split; [exact Wj|]. split.
      * cbn [nullish]. exact Nj.
      * cbn [unmarshalV zero_of norm option_map].
        destruct (is_null (node_of j)) eqn:Z.
        { apply is_null_node_of in Z. apply Nj in Z. discriminate. }
        rewrite Dj. reflexivity.
    + exists JNull. repeat split.
  - (* slices *)
    intros t IH W [l|] G.
    + cbn [wf_type good] in *.
      assert (IH' : forall v, good named named_good t v = true ->
                exists j, marshalV named t v = ok (render j) /\ wf j = true
                  /\ unmarshalV named t (node_of j) (zero_of named t)
                     = ok (norm named named_norm t v)).
      { intros v Gv. destruct (IH W v Gv) as (j & ? & ? & _ & ?). eauto. }
      destruct (mapM_roundtrip t IH' l G) as (js & Ejs & Wjs & Djs).
      exists (JArr js). cbn [marshalV]. unfold fmap. rewrite Ejs. cbn [bind].
      rewrite array_text_render.
      repeat split; try discriminate; [now rewrite wf_arr|].
      cbn [unmarshalV norm option_map node_of]. unfold fmap. rewrite Djs. reflexivity.
    + exists JNull. repeat split.
  - (* structs *)
    intros fs IH W v G. cbn [wf_type good] in *.
    destruct (IH W v G) as (m & Em & Wm & _ & _ & Dm).
    exists (JObj m). cbn [marshalV]. unfold fmap. rewrite Em. cbn [bind].
    rewrite object_text_render.
    repeat split; try discriminate; [now rewrite wf_obj|].
    cbn [node_of]. rewrite unmarshalV_struct. exact Dm.
  - (* named types *)
    intros n _ v G. cbn [good] in G.
    destruct (@named_roundtrip n v G) as (j & Ej & Wj & Hj & Nj & Dj).
    exists j. cbn [marshalV]. rewrite Ej, (compact_render j _ Wj Hj).
    split; [reflexivity|]. split; [exact Wj|]. split; [|exact Dj].
    cbn [nullish]. split; [intros; contradiction | discriminate].
  - intros _ [] _. exists []. do 3 (split; [reflexivity|]).
    split; [intros k x []|reflexivity].
  - (* one more field *)
    intros g t IHt tag rest IHr W v G.
    cbn [wf_fields good_fields] in *.
    apply andb_true_iff in W as [W Wr]. apply andb_true_iff in W as [W Wt].
    apply andb_true_iff in W as [Vn Dn]. apply negb_true_iff in Dn.
    apply andb_true_iff in G as [Gt Gr].
    destruct (IHr Wr (snd v) Gr) as (m & Em & Wm & Km & Nm & Dm).
    assert (Fresh : ~ In (json_name g tag) (names rest)).
    { intros I.
      assert (T : existsb (String.eqb (json_name g tag)) (names rest) = true).
      { apply existsb_exists. exists (json_name g tag).
        split; [exact I | apply String.eqb_refl]. }
      congruence. }
    assert (P : forall k, In k (map fst (map (fun kx => (fst kx, node_of (snd kx))) m)) ->
                  String.eqb k (json_name g tag) = false
                  /\ has_field (String.eqb k) rest = true).
    { intros k' Hk. rewrite map_map in Hk. cbn [fst] in Hk.
      change (map (fun x : string * value => fst x) m) with (map fst m) in Hk.
      rewrite Km in Hk.
      apply kept_incl in Hk. split; [|now apply has_field_name].
      destruct (String.eqb k' (json_name g tag)) eqn:K; [|reflexivity].
      apply String.eqb_eq in K. subst k'. now destruct Fresh. }
    cbn [marshal_fields norm_fields zero_fields kept null_keys].
    rewrite is_empty_vacant.
    destruct (omitempty tag && vacant named t (fst v)) eqn:O; cbn [negb andb].
    + exists m. split; [exact Em|]. split; [exact Wm|]. split; [exact Km|].
      split; [exact Nm|].
      rewrite foldM_pass by exact P. rewrite Dm. reflexivity.
    + cbn [orb] in Gt.
      destruct (IHt Wt (fst v) Gt) as (j & Ej & Wj & Nj & Dj).
      exists ((json_name g tag, j) :: m). rewrite Ej, Em. cbn [bind map fst snd].
      split; [reflexivity|].
      split; [cbn [wf_members]; now rewrite Vn, Wj, Wm|].
      split; [now rewrite Km|]. split.
      * intros k x [[= <- <-] | I].
        -- rewrite Nj. destruct (nullish named t (fst v)).
           ++ split; [now left | reflexivity].
           ++ split; [discriminate|]. intros I.
              apply null_keys_names in I. now destruct Fresh.
        -- rewrite (Nm k x I).
           assert (K : k <> json_name g tag).
           { intros ->. apply Fresh. apply (kept_incl rest (snd v)).
             rewrite <- Km. now apply (in_map fst) in I. }
           destruct (nullish named t (fst v)); [|reflexivity].
           split; [now right | intros [E | I']; [now destruct K | exact I']].
      * cbn [foldM]. unfold decode_member at 1.
        cbn [has_field unmarshal_field fst snd].
        rewrite String.eqb_refl. cbn [orb]. rewrite Dj. cbn [bind].
        rewrite foldM_pass by exact P. rewrite Dm. reflexivity.
Qed.

(** A tidy value is left as it is. *)
Lemma norm_tidy_all :
  (forall t v, tidy named named_norm t v -> norm named named_norm t v = v)
  /\ (forall fs v, tidy_fields named named_norm fs v
                   -> norm_fields named named_norm fs v = v).
Proof.
  apply gtype_gfields_ind; try (intros; reflexivity).
  - (* pointers *)
    intros t IH [v|] T; [|reflexivity]. cbn [norm option_map tidy] in *.
    now rewrite IH.
  - (* slices *)
    intros t IH [l|] T; [|reflexivity]. cbn [norm option_map tidy] in *.
    f_equal. induction T as [|v l Tv Tl IHl]; [reflexivity|].
    cbn [map]. now rewrite IH, IHl.
  - intros fs IH v T. now apply IH.
  - intros n v T. exact T.
  - intros g t IHt tag rest IHr [v1 v2] [T1 T2].
    cbn [norm_fields tidy_fields fst snd] in *.
    rewrite (IHr v2 T2).
    destruct (omitempty tag && vacant named t v1); [now rewrite T1|].
    now rewrite IHt.
Qed.

Lemma norm_tidy (t : gtype) (v : denote named t) :
  tidy named named_norm t v -> norm named named_norm t v = v.
Proof. apply norm_tidy_all. Qed.

(** What is written for a value that the wire can carry is the text of
    a value [j], and decoding [j] in that text into a zero value gives
    [norm t v]. *)
Theorem unmarshalV_marshalV (t : gtype) (v : denote named t) :
  wf_type t = true -> good named named_good t v = true ->
  exists j, marshalV named t v = ok (render j) /\ wf j = true
            /\ unmarshalV named t (node_of j) (zero_of named t)
               = ok (norm named named_norm t v).
Proof.
  intros W G. destruct (proj1 roundtrip_all t W v G) as (j & ? & ? & _ & ?).
  eauto.
Qed.

(** The same for a struct, member by member. *)
Theorem marshal_struct (fs : gfields) (v : denote_fields named fs) :
  wf_fields fs = true -> good_fields named named_good fs v = true ->
  exists m, Marshal named (TStruct fs) v = ok (render (JObj m))
            /\ wf_members m = true
            /\ map fst m = kept named fs v
            /\ (forall k x, In (k, x) m -> (x = JNull <-> In k (null_keys named fs v))).
Proof.
  intros W G. destruct (proj2 roundtrip_all fs W v G) as (m & Em & Wm & Km & Nm & _).
  exists m. unfold Marshal. cbn [marshalV]. unfold fmap. rewrite Em. cbn [bind].
  rewrite object_text_render. auto.
Qed.

Lemma nesting_render (j : value) : wf j = true -> nesting (render j) = depth j.
Proof.
  intros W. unfold nesting. rewrite (scan_render j W). apply f_equal, plain_node_of.
Qed.

(** Byte level: [json.Unmarshal] after [json.Marshal]. *)
Theorem Unmarshal_Marshal (t : gtype) (v : denote named t) :
  wf_type t = true -> good named named_good t v = true ->
  exists s, Marshal named t v = ok s
            /\ ((nesting s <= maxNestingDepth)%N ->
                  Unmarshal named t (Some s) (zero_of named t)
                  = ok (norm named named_norm t v))
            /\ ((maxNestingDepth < nesting s)%N ->
                  Unmarshal named t (Some s) (zero_of named t) = err SyntaxError).
Proof.
  intros W G. destruct (unmarshalV_marshalV t v W G) as (j & Ej & Wj & Dj).
  exists (render j). unfold Marshal, Unmarshal. split; [exact Ej|].
  rewrite (nesting_render j Wj). cbn [content]. split; intros D.
  - rewrite (read_render j Wj D). cbn [bind]. exact Dj.
  - erewrite scan_deep;
      [reflexivity | apply scan_render, Wj | now rewrite plain_node_of].
Qed.

End Facts.

End ReflectFacts.

(** * Properties of [queries.go] *)

Import JsonFacts ReflectFacts.

(** ** The custom codecs *)

Lemma eqb_empty_length (s : string) :
  String.eqb s "" = Nat.eqb (String.length s) 0.
Proof. destruct s; reflexivity. Qed.

(** What [QueryResult.MarshalJSON] writes, in closed form. *)
Lemma QueryResult_wire (q : QueryResult.t) :
  QueryResult.MarshalJSON q
  = ok (render (JObj
          ((if Nat.eqb (len (QueryResult.Ok q)) 0
               && negb (Nat.eqb (String.length (QueryResult.Err q)) 0)
            then [] else [("ok", JStr (Base64.encode (content (QueryResult.Ok q))))])
           ++ (if Nat.eqb (String.length (QueryResult.Err q)) 0
               then [] else [("error", JStr (QueryResult.Err q))]))%list)).
Proof. destruct q as [[[|c b]|] [|c' e]]; reflexivity. Qed.

Lemma QueryResult_written (q : QueryResult.t) :
  ((if Nat.eqb (len (QueryResult.Ok q)) 0
       && negb (Nat.eqb (String.length (QueryResult.Err q)) 0)
    then [] else ["ok"])
   ++ (if Nat.eqb (String.length (QueryResult.Err q)) 0
       then [] else ["error"]))%list
  = QueryResult.written q.
Proof. destruct q as [[[|c b]|] [|c' e]]; reflexivity. Qed.

Lemma no_methods_roundtrip (n : string) (v : carrier (no_methods n)) :
  false = true ->
  exists j, enc (no_methods n) v = ok (render j) /\ wf j = true
            /\ (depth j <= maxNestingDepth)%N /\ j <> JNull
            /\ dec (no_methods n) (node_of j) (zero (no_methods n)) = ok v.
Proof. discriminate. Qed.

(** [QueryResult] as a field: what is written for it is an object of
    one or two members, and decoding that object gives
    [QueryResult.norm]. *)
Lemma QueryResult_codec_roundtrip (q : QueryResult.t) :
  QueryResult.good q = true ->
  exists j, enc QueryResult.codec q = ok (render j) /\ wf j = true
            /\ (depth j <= maxNestingDepth)%N /\ j <> JNull
            /\ (exists m, j = JObj m /\ map fst m = QueryResult.written q
                          /\ Forall (fun kx => snd kx <> JNull) m)
            /\ dec QueryResult.codec (node_of j) QueryResult.zero_value
               = ok (QueryResult.norm q).
Proof.
  unfold QueryResult.good. intros G. cbn [enc dec QueryResult.codec].
  rewrite QueryResult_wire. eexists. split; [reflexivity|].
  destruct q as [[[|c b]|] [|c' e]];
    cbn [QueryResult.Ok QueryResult.Err len content String.length
         Nat.eqb andb negb app] in *;
    (split; [rewrite wf_obj; cbn [wf_members wf];
             rewrite ?Base64Facts.encode_valid, ?G; reflexivity|]);
    (split; [vm_compute; discriminate|]);
    (split; [discriminate|]);
    (split; [eexists; split; [reflexivity|]; split; [reflexivity|];
             repeat constructor; discriminate|]);
    cbn -[Base64.encode Base64.decode];
    rewrite ?Base64Facts.decode_encode; reflexivity.
Qed.

(** Bytes in, bytes out. *)
Lemma QueryResult_roundtrip (q : QueryResult.t) :
  QueryResult.good q = true ->
  exists s, QueryResult.MarshalJSON q = ok s
            /\ QueryResult.Unmarshal (Some s) QueryResult.zero_value
               = ok (QueryResult.norm q).
Proof.
  intros G.
  destruct (QueryResult_codec_roundtrip q G) as (j & Ej & Wj & Hj & _ & _ & Dj).
  cbn [enc dec QueryResult.codec] in Ej, Dj.
  exists (render j). split; [exact Ej|].
  unfold QueryResult.Unmarshal, Unmarshal. cbn [content].
  rewrite (read_render j Wj Hj). cbn [bind]. exact Dj.
Qed.

Lemma QueryResult_norm_content (q : QueryResult.t) :
  content (QueryResult.Ok (QueryResult.norm q)) = content (QueryResult.Ok q)
  /\ QueryResult.Err (QueryResult.norm q) = QueryResult.Err q.
Proof.
  unfold QueryResult.norm. destruct q as [[[|c b]|] [|c' e]]; cbn; split; reflexivity.
Qed.

(** A result with bytes, or with a message and [nil] bytes, comes back
    as it was. *)
Lemma QueryResult_norm_fixed (q : QueryResult.t) :
  0 < len (QueryResult.Ok q)
  \/ (QueryResult.Ok q = None /\ 0 < String.length (QueryResult.Err q)) ->
  QueryResult.norm q = q.
Proof.
  unfold QueryResult.norm. destruct q as [[[|c b]|] [|c' e]]; cbn;
    intros [H | [H1 H2]]; try reflexivity; try lia; discriminate.
Qed.

Lemma RawRangeEntry_wire (r : RawRangeEntry.t) :
  RawRangeEntry.MarshalJSON r
  = ok (render (JArr [bytes_value (RawRangeEntry.Key r);
                      bytes_value (RawRangeEntry.Value r)])).
Proof. destruct r as [[k|] [v|]]; reflexivity. Qed.

Lemma bytes_value_wf (b : bytes) : wf (bytes_value b) = true.
Proof. destruct b; [apply Base64Facts.encode_valid | reflexivity]. Qed.

Lemma bytes_value_read (b : bytes) :
  unmarshal_bytes (plain (node_of (bytes_value b))) = ok b.
Proof.
  destruct b as [s|]; [|reflexivity]. cbn -[Base64.encode Base64.decode].
  now rewrite Base64Facts.decode_encode.
Qed.

Lemma RawRangeEntry_array_wf (r : RawRangeEntry.t) :
  wf (JArr [bytes_value (RawRangeEntry.Key r); bytes_value (RawRangeEntry.Value r)])
  = true.
Proof. cbn. now rewrite !bytes_value_wf. Qed.

Lemma RawRangeEntry_array_depth (r : RawRangeEntry.t) :
  (depth (JArr [bytes_value (RawRangeEntry.Key r);
                bytes_value (RawRangeEntry.Value r)]) <= maxNestingDepth)%N.
Proof. destruct r as [[k|] [v|]]; vm_compute; discriminate. Qed.

Lemma RawRangeEntry_roundtrip (r r0 : RawRangeEntry.t) :
  exists s, RawRangeEntry.MarshalJSON r = ok s
            /\ RawRangeEntry.UnmarshalJSON (Some s) r0 = ok r.
Proof.
  eexists. split; [apply RawRangeEntry_wire|].
  unfold RawRangeEntry.UnmarshalJSON, Unmarshal. cbn [content].
  rewrite (read_render _ (RawRangeEntry_array_wf r) (RawRangeEntry_array_depth r)).
  cbn [bind node_of map unmarshalV mapM]. unfold fmap.
  rewrite !bytes_value_read. destruct r; reflexivity.
Qed.

Section Properties.

(** The codecs of the types that other files declare, the errors of
    the host, [ToSystemError] and the texts of the errors of
    [encoding/json] are arbitrary. *)
Variable ext : string -> codec.
Variable SystemError_enc : SystemError.t -> result string.
Variable SystemError_dec : node -> SystemError.t -> result SystemError.t.
Context {E : Type} {E_error : GoError E} {json_error : GoError error}.
Variable ToSystemError : E -> option SystemError.t.

Local Abbreviation codecs := (named ext SystemError_enc SystemError_dec).
Local Abbreviation Querier := (@Querier ext SystemError_enc SystemError_dec E).

(** ** The dispatcher *)

(** C5. [ToQuerierResult] sorts what a responder returned into one of
    three outcomes: no error wraps the payload as the inner success; an
    error that [ToSystemError] recognises becomes the outer error; any
    other error becomes the inner failure with the error's message. *)
Theorem ToQuerierResult_tiers (response : bytes) :
  ToQuerierResult ToSystemError response None
  = {| QuerierResult.Ok :=
         Some {| QueryResult.Ok := response; QueryResult.Err := "" |};
       QuerierResult.Err := None |}
  /\ (forall e syserr, ToSystemError e = Some syserr ->
        ToQuerierResult ToSystemError response (Some e)
        = {| QuerierResult.Ok := None; QuerierResult.Err := Some syserr |})
  /\ (forall e, ToSystemError e = None ->
        ToQuerierResult ToSystemError response (Some e)
        = {| QuerierResult.Ok :=
               Some {| QueryResult.Ok := None; QueryResult.Err := Error e |};
             QuerierResult.Err := None |}).
Proof.
  split; [reflexivity|]. split.
  - intros e syserr H. cbn [ToQuerierResult]. rewrite H. reflexivity.
  - intros e H. cbn [ToQuerierResult]. rewrite H. reflexivity.
Qed.

Lemma ToQuerierResult_one_of (response : bytes) (err : option E) :
  let r := ToQuerierResult ToSystemError response err in
  (QuerierResult.Ok r <> None /\ QuerierResult.Err r = None)
  \/ (QuerierResult.Ok r = None /\ QuerierResult.Err r <> None).
Proof.
  destruct err as [e|]; cbn [ToQuerierResult].
  - destruct (ToSystemError e); cbn; [right | left]; split; congruence.
  - left. cbn. split; congruence.
Qed.

Lemma RustQuery_either {Q : Type} (querier : Querier Q) (binRequest : bytes)
  (gasLimit : N) (st : Q) :
  let r := fst (RustQuery ToSystemError querier binRequest gasLimit st) in
  (QuerierResult.Ok r <> None /\ QuerierResult.Err r = None)
  \/ (QuerierResult.Ok r = None /\ QuerierResult.Err r <> None).
Proof.
  unfold RustQuery.
  destruct (Unmarshal codecs QueryRequest binRequest (zero_of codecs QueryRequest))
    as [request|e].
  - destruct (Query querier request gasLimit st) as [[bz er] st'].
    apply ToQuerierResult_one_of.
  - right. cbn. split; congruence.
Qed.

(** C10. Whatever the input bytes ([nil] and empty included) and the
    querier, the result of [RustQuery] has exactly one of [Ok] and [Err]
    set. *)
Theorem RustQuery_one_of {Q : Type} (querier : Querier Q) (binRequest : bytes)
  (gasLimit : N) (st : Q) :
  let r := fst (RustQuery ToSystemError querier binRequest gasLimit st) in
  (QuerierResult.Ok r <> None /\ QuerierResult.Err r = None)
  \/ (QuerierResult.Ok r = None /\ QuerierResult.Err r <> None).
Proof.
  unfold RustQuery.
  destruct (Unmarshal codecs QueryRequest binRequest (zero_of codecs QueryRequest))
    as [request|e].
  - destruct (Query querier request gasLimit st) as [[bz er] st'].
    apply ToQuerierResult_one_of.
  - right. cbn. split; congruence.
Qed.

(** C4, as the code has it. Bytes that do not decode as a
    [QueryRequest] come back, as they were, in the [InvalidRequest] of
    the outer error, with the message of the decoder's error, and the
    querier is not called. Bytes that decode are not put into the
    result by [RustQuery]: the result is the querier's answer as
    [ToQuerierResult] sorts it, so it holds an [InvalidRequest] only if
    [ToSystemError] made one of the querier's error, and it holds the
    bytes of the request where the querier answers with them. *)
Theorem RustQuery_invalid_request {Q : Type} (querier : Querier Q)
  (binRequest : bytes) (gasLimit : N) (st : Q) :
  (forall e,
      Unmarshal codecs QueryRequest binRequest (zero_of codecs QueryRequest) = err e ->
      RustQuery ToSystemError querier binRequest gasLimit st
      = (invalid_request (Error e) binRequest, st))
  /\ (forall request,
        Unmarshal codecs QueryRequest binRequest (zero_of codecs QueryRequest)
        = ok request ->
        RustQuery ToSystemError querier binRequest gasLimit st
        = (let '((bz, er), st') := Query querier request gasLimit st in
           (ToQuerierResult ToSystemError bz er, st')))
  /\ (forall sys ir,
        QuerierResult.Err (fst (RustQuery ToSystemError querier binRequest gasLimit st))
        = Some sys ->
        SystemError.InvalidRequest sys = Some ir ->
        (exists e,
            Unmarshal codecs QueryRequest binRequest (zero_of codecs QueryRequest)
            = err e
            /\ ir = {| InvalidRequest.Err := Error e;
                       InvalidRequest.Request := binRequest |})
        \/ (exists request e,
              Unmarshal codecs QueryRequest binRequest (zero_of codecs QueryRequest)
              = ok request
              /\ snd (fst (Query querier request gasLimit st)) = Some e
              /\ ToSystemError e = Some sys)).
Proof.
  split; [|split].
  - intros e H. unfold RustQuery. rewrite H. reflexivity.
  - intros request H. unfold RustQuery. rewrite H. reflexivity.
  - intros sys ir. unfold RustQuery.
    destruct (Unmarshal codecs QueryRequest binRequest (zero_of codecs QueryRequest))
      as [request|e].
    + destruct (Query querier request gasLimit st) as [[bz [e|]] st'] eqn:Hq;
        cbn [fst snd ToQuerierResult].
      * destruct (ToSystemError e) as [sys'|] eqn:Hs; cbn; [|discriminate].
        intros [= <-] _. right. exists request, e. rewrite Hq. auto.
      * discriminate.
    + cbn. intros [= <-]. cbn. intros [= <-]. left. eauto.
Qed.

(** ** Decoding of the unions *)

Lemma reads_named_struct (fs : gfields) : reads_named codecs (TStruct fs).
Proof.
  split.
  - intros data text m c R T. unfold Unmarshal. rewrite R. cbn [bind].
    rewrite unmarshalV_struct. now apply foldM_taken.
  - intros data c v H. unfold Unmarshal in H.
    destruct (read (content data)) as [n|e]; [|discriminate]. cbn [bind] in H.
    exists n. split; [reflexivity|].
    destruct n as [t a|t l|t m]; cbn [members_of].
    + destruct a; cbn in H; try discriminate H. now injection H as <-.
    + discriminate H.
    + now apply unmarshal_struct_flags.
Qed.

(** An object with the members [bank] and [wasm], and the flags of the
    fields of a [QueryRequest]. *)
Lemma QueryRequest_track (x y : node) :
  track (fields_of QueryRequest) [("bank", x); ("wasm", y)]
    (flags codecs (fields_of QueryRequest)
       (zero_fields codecs (fields_of QueryRequest)))
  = [negb (is_null x); false; false; false; false; false; false;
     negb (is_null y)].
Proof. reflexivity. Qed.

(** C3, as the code has it. Decoding neither refuses an input for
    naming several branches of a union nor picks one of them. At every
    union level an object is decoded member by member: it is accepted
    when each of its members is, however many there are, and the
    branches set in the decoded value are those that were set and those
    that the members name, the last member for a key deciding. So an
    object with a [bank] and a [wasm] member, neither [null] and each
    one taken, decodes to a request with both branches set. *)
Theorem unions_read_named :
  Forall (fun nt => reads_named codecs (snd nt)) unions
  /\ forall data text x y,
       read (content data) = ok (NObj text [("bank", x); ("wasm", y)]) ->
       is_null x = false -> is_null y = false ->
       taken codecs (fields_of QueryRequest) ("bank", x) ->
       taken codecs (fields_of QueryRequest) ("wasm", y) ->
       exists v,
         Unmarshal codecs QueryRequest data (zero_of codecs QueryRequest) = ok v
         /\ set_keys codecs (fields_of QueryRequest) v = ["bank"; "wasm"].
Proof.
  split; [repeat constructor; apply reads_named_struct|].
  intros data text x y R Nx Ny Tx Ty.
  pose proof (reads_named_struct (fields_of QueryRequest)) as RN.
  cbn [reads_named] in RN. destruct RN as [RA RF].
  destruct (RA data text _ (zero_fields codecs (fields_of QueryRequest)) R
              (Forall_cons _ Tx (Forall_cons _ Ty (Forall_nil _)))) as (v & Hv).
  exists v. split; [exact Hv|].
  destruct (RF data _ v Hv) as (n & Rn & F).
  rewrite R in Rn. injection Rn as <-. cbn [members_of] in F.
  rewrite QueryRequest_track, Nx, Ny in F.
  rewrite set_keys_select, F. reflexivity.
Qed.

(** ** Encoding of the declarations *)

(** The values of the types other files declare that their codecs
    carry, and what those codecs give back. *)
Variable ext_good : forall n, carrier (ext n) -> bool.
Variable ext_norm : forall n, carrier (ext n) -> carrier (ext n).
Variable SystemError_good : SystemError.t -> bool.
Variable SystemError_norm : SystemError.t -> SystemError.t.

Local Abbreviation codecs_good :=
  (@named_good ext SystemError_enc SystemError_dec ext_good SystemError_good).
Local Abbreviation codecs_norm :=
  (@named_norm ext SystemError_enc SystemError_dec ext_norm SystemError_norm).

(** What their codecs write for those values is JSON in the encoder's
    form, nested no deeper than the reader takes and not [null], and
    they read it back. *)
Hypothesis ext_roundtrip : forall n v,
  ext_good n v = true ->
  exists j, enc (ext n) v = ok (render j) /\ wf j = true
            /\ (depth j <= maxNestingDepth)%N /\ j <> JNull
            /\ dec (ext n) (node_of j) (zero (ext n)) = ok (ext_norm n v).

Hypothesis SystemError_roundtrip : forall e,
  SystemError_good e = true ->
  exists j, SystemError_enc e = ok (render j) /\ wf j = true
            /\ (depth j <= maxNestingDepth)%N /\ j <> JNull
            /\ SystemError_dec (node_of j) SystemError.zero_value
               = ok (SystemError_norm e).

Lemma named_roundtrip (n : string) :
  forall v, codecs_good n v = true ->
    exists j, enc (codecs n) v = ok (render j) /\ wf j = true
              /\ (depth j <= maxNestingDepth)%N /\ j <> JNull
              /\ dec (codecs n) (node_of j) (zero (codecs n)) = ok (codecs_norm n v).
Proof.
  unfold named_good, named_norm, named.
  destruct (String.eqb n "QueryResult").
  - intros q G.
    destruct (QueryResult_codec_roundtrip q G) as (j & ? & ? & ? & ? & _ & ?).
    eauto 6.
  - destruct (String.eqb n "SystemError").
    + exact SystemError_roundtrip.
    + apply ext_roundtrip.
Qed.

Lemma kept_populated (fs : gfields) :
  all_omitempty fs = true ->
  forall v, kept codecs fs v = populated codecs fs v.
Proof.
  induction fs as [|g t tag rest IH]; intros A v; [reflexivity|].
  cbn [all_omitempty kept populated] in *.
  apply andb_true_iff in A as [-> A]. cbn [andb].
  destruct (vacant codecs t (fst v)); now rewrite IH.
Qed.

Lemma scan_object (m : list (string * value)) :
  wf_members m = true ->
  scan (render (JObj m))
  = ok (NObj (render (JObj m)) (map (fun kx => (fst kx, node_of (snd kx))) m)).
Proof. intros W. apply (scan_render (JObj m)). now rewrite wf_obj. Qed.

Lemma map_fst_node_of (m : list (string * value)) :
  map fst (map (fun kx => (fst kx, node_of (snd kx))) m) = map fst m.
Proof. rewrite map_map. reflexivity. Qed.

Lemma writes_populated_struct (fs : gfields) :
  wf_fields fs = true -> all_omitempty fs = true ->
  writes_populated codecs codecs_good (TStruct fs).
Proof.
  intros W A v G.
  destruct (marshal_struct codecs codecs_good codecs_norm named_roundtrip fs v W G)
    as (m & Em & Wm & Km & _).
  exists (render (JObj m)), (render (JObj m)),
    (map (fun kx => (fst kx, node_of (snd kx))) m).
  split; [exact Em|]. split; [now apply scan_object|].
  rewrite map_fst_node_of, Km. now apply kept_populated.
Qed.

(** What [QueryResult.MarshalJSON] writes, as JSON. *)
Lemma QueryResult_members (q : QueryResult.t) :
  QueryResult.good q = true ->
  exists s text m,
    QueryResult.MarshalJSON q = ok s
    /\ scan s = ok (NObj text m)
    /\ map fst m = QueryResult.written q
    /\ Forall (fun kx => is_null (snd kx) = false) m.
Proof.
  intros G.
  destruct (QueryResult_codec_roundtrip q G)
    as (j & Ej & Wj & _ & _ & (m & -> & Km & Nm) & _).
  cbn [enc QueryResult.codec] in Ej. rewrite wf_obj in Wj.
  exists (render (JObj m)), (render (JObj m)),
    (map (fun kx => (fst kx, node_of (snd kx))) m).
  split; [exact Ej|]. split; [now apply scan_object|].
  split; [now rewrite map_fst_node_of|].
  apply Forall_map. apply (Forall_impl _ (P := fun kx => snd kx <> JNull));
    [|exact Nm].
  intros [k x] H. cbn [snd] in *.
  destruct (is_null (node_of x)) eqn:Z; [|reflexivity].
  apply is_null_node_of in Z. contradiction.
Qed.

(** C2, as the code has it. For a value that the wire can carry, what
    is written for a union is a JSON object with exactly one member
    for each branch that holds something, so at most one when the
    value has at most one; what is written for a [QueryResult] has one
    member for each branch that holds something, and the member [ok]
    when none does. The encoder sets nothing aside: a value with two
    branches set is written with both. *)
Theorem unions_write_populated :
  Forall (fun nt => writes_populated codecs codecs_good (snd nt)) unions
  /\ forall q, QueryResult.good q = true ->
       exists s text m,
         QueryResult.MarshalJSON q = ok s
         /\ scan s = ok (NObj text m)
         /\ map fst m = QueryResult.written q.
Proof.
  split.
  - repeat constructor; apply writes_populated_struct; reflexivity.
  - intros q G. destruct (QueryResult_members q G) as (s & text & m & ? & ? & ? & _).
    eauto 6.
Qed.

Lemma writes_kept_struct (fs : gfields) :
  wf_fields fs = true -> writes_kept codecs codecs_good (TStruct fs).
Proof.
  intros W v G.
  destruct (marshal_struct codecs codecs_good codecs_norm named_roundtrip fs v W G)
    as (m & Em & Wm & Km & Nm).
  exists (render (JObj m)), (render (JObj m)),
    (map (fun kx => (fst kx, node_of (snd kx))) m).
  split; [exact Em|]. split; [now apply scan_object|].
  split; [now rewrite map_fst_node_of|]. split.
  - intros k x I. apply in_map_iff in I as ([k' x'] & [= <- <-] & I).
    cbn [fst snd]. rewrite is_null_node_of. now apply Nm.
  - apply null_keys_places.
Qed.

(** C8, as the code has it. For a value that the wire can carry, what
    is written for a struct is a JSON object with a member for every
    field except those that have [omitempty] and are vacant. A member
    is [null] exactly when its field is not left out and is [nil], or
    is a raw message that is the text [null]; the fields where that
    can be are those that can be [nil] and have no [omitempty], which
    are listed, and the raw message [custom]. [QueryResult] is written
    by its own rule, with an [ok] member when it holds nothing, and
    without [null]; [RawRangeEntry] is written as an array of its two
    fields, [null] for one that is [nil]. *)
Theorem fields_written :
  Forall (fun nt => writes_kept codecs codecs_good (snd nt)) declarations
  /\ null_table declarations
     = [ ("AllDenomMetadataResponse", ["metadata"]);
         ("ValidatorResponse", ["validator"]);
         ("DelegationRewardsResponse", ["rewards"]);
         ("DelegationTotalRewardsResponse", ["rewards"; "total"]);
         ("DelegatorReward", ["reward"]);
         ("DelegatorValidatorsResponse", ["validators"]);
         ("StargateQuery", ["data"]);
         ("GrpcQuery", ["data"]);
         ("SmartQuery", ["msg"]);
         ("RawQuery", ["key"]);
         ("RawRangeResponse", ["next_key"]) ]
  /\ raw_table declarations = [ ("QueryRequest", ["custom"]) ]
  /\ (forall q, QueryResult.good q = true ->
        exists s text m,
          QueryResult.MarshalJSON q = ok s
          /\ scan s = ok (NObj text m)
          /\ map fst m = QueryResult.written q
          /\ Forall (fun kx => is_null (snd kx) = false) m)
  /\ (forall r, exists s text x y,
        RawRangeEntry.MarshalJSON r = ok s
        /\ scan s = ok (NArr text [x; y])
        /\ (is_null x = true <-> RawRangeEntry.Key r = None)
        /\ (is_null y = true <-> RawRangeEntry.Value r = None)).
Proof.
  split; [|split; [reflexivity|split; [reflexivity|split]]].
  - repeat constructor; apply writes_kept_struct; reflexivity.
  - exact QueryResult_members.
  - intros r.
    exists (render (JArr [bytes_value (RawRangeEntry.Key r);
                          bytes_value (RawRangeEntry.Value r)])),
      (render (JArr [bytes_value (RawRangeEntry.Key r);
                     bytes_value (RawRangeEntry.Value r)])),
      (node_of (bytes_value (RawRangeEntry.Key r))),
      (node_of (bytes_value (RawRangeEntry.Value r))).
    split; [apply RawRangeEntry_wire|].
    split; [exact (scan_render _ (RawRangeEntry_array_wf r))|].
    destruct r as [[k|] [v|]]; cbn; repeat split; congruence.
Qed.

(** ** Decoding what was encoded *)

Lemma reads_back_wf (t : gtype) :
  wf_type t = true -> reads_back codecs codecs_good codecs_norm t.
Proof.
  intros W v G.
  destruct (Unmarshal_Marshal codecs codecs_good codecs_norm named_roundtrip t v W G)
    as (s & Es & Ds & Fs).
  exists s. split; [exact Es|]. split.
  - intros D. split; [now apply Ds|].
    intros T. rewrite (Ds D). f_equal. now apply norm_tidy.
  - intros D. eexists. now apply Fs.
Qed.

(** C7, as the code has it. For every struct of [queries.go] and every
    value the wire can carry, whose encoding is nested no deeper than
    the reader takes, decoding the encoding succeeds and gives the
    value back with the zero value in the fields that [omitempty]
    left out: the value itself when it is tidy, that is, unless such a
    field holds an empty byte slice that is not [nil], which comes
    back [nil]. An encoding that is nested deeper is refused.
    [RawRangeEntry] comes back as it was. [QueryResult]
    comes back with the same message and the same bytes, empty bytes
    as [nil], or as the empty non-nil bytes of the literal when the
    result holds nothing; it comes back as it was when it has bytes,
    or a message and [nil] bytes. *)
Theorem wire_round_trip :
  (forall q, QueryResult.good q = true ->
     exists s, QueryResult.MarshalJSON q = ok s
               /\ QueryResult.Unmarshal (Some s) QueryResult.zero_value
                  = ok (QueryResult.norm q)
               /\ content (QueryResult.Ok (QueryResult.norm q))
                  = content (QueryResult.Ok q)
               /\ QueryResult.Err (QueryResult.norm q) = QueryResult.Err q
               /\ (0 < len (QueryResult.Ok q)
                   \/ (QueryResult.Ok q = None
                       /\ 0 < String.length (QueryResult.Err q)) ->
                   QueryResult.Unmarshal (Some s) QueryResult.zero_value = ok q))
  /\ (forall r r0, exists s,
        RawRangeEntry.MarshalJSON r = ok s
        /\ RawRangeEntry.UnmarshalJSON (Some s) r0 = ok r)
  /\ Forall (fun nt => reads_back codecs codecs_good codecs_norm (snd nt))
       declarations.
Proof.
  split; [|split].
  - intros q G. destruct (QueryResult_roundtrip q G) as (s & Es & Ds).
    exists s. split; [exact Es|]. split; [exact Ds|].
    split; [apply QueryResult_norm_content|].
    split; [apply QueryResult_norm_content|].
    intros F. rewrite Ds. f_equal. now apply QueryResult_norm_fixed.
  - exact RawRangeEntry_roundtrip.
  - repeat constructor; apply reads_back_wf; reflexivity.
Qed.

(** ** From the encoder to the dispatcher, and back *)

(** X17. What [json.Marshal] writes for a request that the wire can
    carry, nested no deeper than the reader takes, is never an invalid
    request to [RustQuery]: the querier is asked, with the request
    that was written (the zero value in the fields that [omitempty]
    left out). *)
Theorem RustQuery_accepts_encoded {Q : Type} (querier : Querier Q)
  (gasLimit : N) (st : Q) (v : denote codecs QueryRequest) (s : string) :
  good codecs codecs_good QueryRequest v = true ->
  Marshal codecs QueryRequest v = ok s ->
  (nesting s <= maxNestingDepth)%N ->
  RustQuery ToSystemError querier (Some s) gasLimit st
  = (let '((bz, er), st') :=
       Query querier (norm codecs codecs_norm QueryRequest v) gasLimit st in
     (ToQuerierResult ToSystemError bz er, st')).
Proof.
  intros G M D.
  destruct (reads_back_wf QueryRequest eq_refl v G) as (s' & Es & Ds & _).
  rewrite M in Es. injection Es as <-.
  unfold RustQuery. rewrite (proj1 (Ds D)). reflexivity.
Qed.

(** X13. On the wire the result of [RustQuery], when the wire can carry
    it, is a JSON object with exactly one member, [ok] or [error]. *)
Theorem RustQuery_one_member {Q : Type} (querier : Querier Q) (binRequest : bytes)
  (gasLimit : N) (st : Q) :
  good codecs codecs_good QuerierResult.struct_type
    (QuerierResult_to_struct ext SystemError_enc SystemError_dec
       (fst (RustQuery ToSystemError querier binRequest gasLimit st))) = true ->
  exists s text k x,
    Marshal codecs QuerierResult.struct_type
      (QuerierResult_to_struct ext SystemError_enc SystemError_dec
         (fst (RustQuery ToSystemError querier binRequest gasLimit st))) = ok s
    /\ scan s = ok (NObj text [(k, x)])
    /\ (k = "ok" \/ k = "error").
Proof.
  intros G.
  destruct (writes_populated_struct (fields_of QuerierResult.struct_type)
              eq_refl eq_refl _ G) as (s & text & m & Es & Ss & Km).
  exists s, text.
  pose proof (RustQuery_either querier binRequest gasLimit st) as O.
  cbn zeta in O.
  destruct (fst (RustQuery ToSystemError querier binRequest gasLimit st)) as [o e].
  cbn in O, Km.
  destruct O as [[HO HE] | [HO HE]]; subst.
  - destruct o as [q|]; [|congruence]. cbn in Km.
    destruct m as [|[k x] [|? ?]]; try discriminate Km.
    injection Km as ->. exists "ok", x. auto.
  - destruct e as [e|]; [|congruence]. cbn in Km.
    destruct m as [|[k x] [|? ?]]; try discriminate Km.
    injection Km as ->. exists "error", x. auto.
Qed.

End Properties.

(** ** The custom codecs, byte for byte *)

(** C1. A [QueryResult] with neither bytes nor message is written as
    the object whose one member [ok] is the empty string, the same bytes
    as for [QueryResult{Ok: []byte{}}]; and those bytes decode to the
    empty success: [Ok] empty, [Err] empty. *)
Theorem QueryResult_empty_success (q : QueryResult.t) :
  len (QueryResult.Ok q) = 0 -> String.length (QueryResult.Err q) = 0 ->
  QueryResult.MarshalJSON q = ok QueryResult.empty_ok
  /\ QueryResult.MarshalJSON q
     = QueryResult.MarshalJSON {| QueryResult.Ok := Some ""; QueryResult.Err := "" |}
  /\ QueryResult.Unmarshal (Some QueryResult.empty_ok) QueryResult.zero_value
     = ok {| QueryResult.Ok := Some ""; QueryResult.Err := "" |}.
Proof.
  intros HO HE. unfold QueryResult.MarshalJSON at 1 2. rewrite HO, HE.
  repeat split; reflexivity.
Qed.

Lemma QueryResult_empty_success_witness :
  QueryResult.MarshalJSON QueryResult.zero_value = ok QueryResult.empty_ok
  /\ QueryResult.MarshalJSON QueryResult.zero_value
     = QueryResult.MarshalJSON {| QueryResult.Ok := Some ""; QueryResult.Err := "" |}
  /\ QueryResult.Unmarshal (Some QueryResult.empty_ok) QueryResult.zero_value
     = ok {| QueryResult.Ok := Some ""; QueryResult.Err := "" |}.
Proof.
  apply (QueryResult_empty_success QueryResult.zero_value); reflexivity.
Defined.

(** The nine bytes of the literal. *)
Example empty_ok_bytes :
  map nat_of_ascii (list_ascii_of_string QueryResult.empty_ok)
  = [123; 34; 111; 107; 34; 58; 34; 34; 125].
Proof. reflexivity. Qed.

Lemma mapM_plain {B : Type} (f : value -> result B) (l : list node) :
  mapM (fun x => f (plain x)) l = mapM f (map plain l).
Proof.
  induction l as [|x l IH]; [reflexivity|]. cbn [mapM map]. now rewrite IH.
Qed.

(** How [RawRangeEntry.UnmarshalJSON] goes on an array. *)
Lemma RawRangeEntry_array (data : bytes) (l : list value) (r : RawRangeEntry.t) :
  parse (content data) = ok (JArr l) ->
  RawRangeEntry.UnmarshalJSON data r
  = (arr <- fmap Some (mapM unmarshal_bytes l) ;;
     match arr with
     | Some [k; v] => ok {| RawRangeEntry.Key := k; RawRangeEntry.Value := v |}
     | _ =>
         err (Errorf ("invalid RawRange entry: expected array of length 2, got "
                      ++ Decimal10.format
                           (N.of_nat (RawRangeEntry.length_of arr))))
     end).
Proof.
  intros P. apply parse_ok in P as (n & R & Pn).
  apply plain_arr in Pn as (t & l' & -> & <-).
  unfold RawRangeEntry.UnmarshalJSON, Unmarshal. rewrite R. cbn [bind unmarshalV].
  change (mapM _ l') with (mapM (fun x => unmarshal_bytes (plain x)) l').
  now rewrite mapM_plain.
Qed.

(** C6. A [RawRangeEntry] is written as a JSON array of two elements,
    key then value, and not as an object with keys; an input that is a
    JSON array of any other length is refused with an error, and an
    array of two elements that read as bytes is taken as key and
    value. *)
Theorem RawRangeEntry_two_elements :
  (forall r,
      RawRangeEntry.MarshalJSON r
      = ok (render (JArr [bytes_value (RawRangeEntry.Key r);
                          bytes_value (RawRangeEntry.Value r)])))
  /\ (forall data l r,
        parse (content data) = ok (JArr l) -> List.length l <> 2 ->
        exists e, RawRangeEntry.UnmarshalJSON data r = err e)
  /\ (forall data x y r k v,
        parse (content data) = ok (JArr [x; y]) ->
        unmarshal_bytes x = ok k -> unmarshal_bytes y = ok v ->
        RawRangeEntry.UnmarshalJSON data r
        = ok {| RawRangeEntry.Key := k; RawRangeEntry.Value := v |}).
Proof.
  split; [|split].
  - exact RawRangeEntry_wire.
  - intros data l r P L. rewrite (RawRangeEntry_array data r P). unfold fmap.
    destruct (mapM _ l) as [l'|e] eqn:M; cbn [bind]; [|eauto].
    apply mapM_length in M.
    destruct l' as [|a [|b [|c l']]]; cbn [List.length] in M; eauto.
    congruence.
  - intros data x y r k v P Hx Hy. rewrite (RawRangeEntry_array data r P).
    cbn [mapM]. unfold fmap. rewrite Hx. cbn [bind]. rewrite Hy. reflexivity.
Qed.

(** ** Where the code departs from the claims *)

(** C2 fails: a [QueryResult] with bytes and a message is written with
    both branches, and so is a [QueryRequest] with two branches set. *)
Lemma two_branches_written :
  QueryResult.MarshalJSON {| QueryResult.Ok := Some "a"; QueryResult.Err := "b" |}
  = ok (render (JObj [("ok", JStr "YQ=="); ("error", JStr "b")]))
  /\ Marshal Sample.codecs QueryRequest
       (Some (zero_of Sample.codecs BankQuery),
        (None, (None, (None, (None, (None, (None,
          (Some (zero_of Sample.codecs WasmQuery), tt))))))))
     = ok Sample.bank_and_wasm
  /\ fmap (fun n => map fst (members_of n)) (scan Sample.bank_and_wasm)
     = ok ["bank"; "wasm"].
Proof. repeat split; reflexivity. Qed.

(** C3 fails: an input with the branches [bank] and [wasm] is accepted,
    and both are set in the decoded request. *)
Lemma two_branches_read :
  Unmarshal Sample.codecs QueryRequest (Some Sample.bank_and_wasm)
    (zero_of Sample.codecs QueryRequest)
  = ok (Some (zero_of Sample.codecs BankQuery),
        (None, (None, (None, (None, (None, (None,
          (Some (zero_of Sample.codecs WasmQuery), tt)))))))).
Proof. reflexivity. Qed.

(** C4 fails: the bytes of a request that decodes are in the result
    when the querier answers with them; and the object with an unknown
    key, which the spec gives for an input that does not decode, does
    decode, to the request with nothing set, and goes to the querier. *)
Lemma request_bytes_in_answer :
  RustQuery Sample.ToSystemError Sample.echo (Some Texts.bank) 1000 0%N
  = ({| QuerierResult.Ok :=
          Some {| QueryResult.Ok := Some Texts.bank; QueryResult.Err := "" |};
        QuerierResult.Err := None |},
     1%N)
  /\ RustQuery Sample.ToSystemError Sample.querier (Some Texts.unknown_field) 1000 0%N
     = ({| QuerierResult.Ok :=
             Some {| QueryResult.Ok := Some "answer"; QueryResult.Err := "" |};
           QuerierResult.Err := None |},
        1%N).
Proof. split; reflexivity. Qed.

(** C7 fails: the zero [QueryResult] does not come back as it was; its
    [nil] bytes come back empty and not [nil]. *)
Lemma zero_QueryResult_changes :
  QueryResult.MarshalJSON QueryResult.zero_value = ok QueryResult.empty_ok
  /\ QueryResult.Unmarshal (Some QueryResult.empty_ok) QueryResult.zero_value
     = ok {| QueryResult.Ok := Some ""; QueryResult.Err := "" |}
  /\ {| QueryResult.Ok := Some ""; QueryResult.Err := "" |} <> QueryResult.zero_value.
Proof. repeat split; try reflexivity. discriminate. Qed.

(** C8 fails: a [ValidatorResponse] without validator is written with
    a [null] in its place. *)
Lemma nil_validator_written_null :
  Marshal Sample.codecs ValidatorResponse (None, tt) = ok Sample.validator_null.
Proof. reflexivity. Qed.

(** The round trip needs its conditions. A custom payload is written
    compacted, and comes back so; bytes that are no UTF-8 are written
    as U+FFFD, and come back so. *)
Example custom_comes_back_compact :
  Marshal Sample.codecs QueryRequest
    (None, (Some Sample.ping_spaced, (None, (None, (None, (None, (None, (None, tt))))))))
  = ok ("{" ++ quoted "custom" ++ ":" ++ Sample.ping ++ "}")
  /\ Unmarshal Sample.codecs QueryRequest
       (Some ("{" ++ quoted "custom" ++ ":" ++ Sample.ping ++ "}"))
       (zero_of Sample.codecs QueryRequest)
     = ok (None, (Some Sample.ping, (None, (None, (None, (None, (None, (None, tt)))))))).
Proof. split; reflexivity. Qed.

(** A custom payload is read as it stands in the input, white space
    and all, whatever the case of its key. *)
Example custom_is_read_as_it_stands :
  Unmarshal Sample.codecs QueryRequest
    (Some ("{" ++ quoted "CUSTOM" ++ ": " ++ Sample.ping_spaced ++ " }"))
    (zero_of Sample.codecs QueryRequest)
  = ok (custom_request Sample.codecs Sample.ping_spaced).
Proof. reflexivity. Qed.

(** An empty start bound that is not [nil] is left out, and comes back
    [nil]. *)
Example empty_start_comes_back_nil :
  Marshal Sample.codecs RawRangeQuery
    ("wasm1xyz", (Some "", (None, (10%N, ("ascending", tt)))))
  = Marshal Sample.codecs RawRangeQuery
      ("wasm1xyz", (None, (None, (10%N, ("ascending", tt)))))
  /\ exists s,
       Marshal Sample.codecs RawRangeQuery
         ("wasm1xyz", (Some "", (None, (10%N, ("ascending", tt))))) = ok s
       /\ Unmarshal Sample.codecs RawRangeQuery (Some s)
            (zero_of Sample.codecs RawRangeQuery)
          = ok ("wasm1xyz", (None, (None, (10%N, ("ascending", tt))))).
Proof. split; [reflexivity|]. eexists. split; reflexivity. Qed.

Example text_comes_back_well_formed :
  Marshal Sample.codecs SupplyQuery (String (Utf8.byte 255) "", tt)
  = ok ("{" ++ quoted "denom" ++ ":" ++ quoted (JsonString.u_escape 0xFFFD) ++ "}")
  /\ Unmarshal Sample.codecs SupplyQuery
       (Some ("{" ++ quoted "denom" ++ ":" ++ quoted (JsonString.u_escape 0xFFFD) ++ "}"))
       (zero_of Sample.codecs SupplyQuery)
     = ok (Utf8.replacement, tt).
Proof. split; reflexivity. Qed.

(** ** Concrete runs *)

(** Bytes that are no JSON come back in the error; the querier is not
    called (its count stays 0). *)
Example RustQuery_refuses_brace :
  RustQuery Sample.ToSystemError Sample.querier (Some "{") 1000 0%N
  = (invalid_request (Error SyntaxError) (Some "{"), 0%N).
Proof. reflexivity. Qed.

(** A supply query decodes and goes to the querier, whose answer comes
    back as the inner success; the bytes of the request are not in
    the result. *)
Example RustQuery_answer :
  RustQuery Sample.ToSystemError Sample.querier (Some Sample.supply_query) 1000 0%N
  = ({| QuerierResult.Ok :=
          Some {| QueryResult.Ok := Some "answer"; QueryResult.Err := "" |};
        QuerierResult.Err := None |},
     1%N).
Proof. reflexivity. Qed.

(** An object with an unknown key decodes, to the zero request, and
    goes to the querier. *)
Example unknown_field_is_accepted :
  Unmarshal Sample.codecs QueryRequest
    (Some ("{" ++ quoted "unknown_field" ++ ": 1}"))
    (zero_of Sample.codecs QueryRequest)
  = ok (zero_of Sample.codecs QueryRequest).
Proof. reflexivity. Qed.

Lemma ToQuerierResult_tiers_witness :
  ToQuerierResult Sample.ToSystemError (Some "x") (Some Sample.OutOfGas)
  = {| QuerierResult.Ok := None;
       QuerierResult.Err := Sample.ToSystemError Sample.OutOfGas |}
  /\ ToQuerierResult Sample.ToSystemError (Some "x") (Some (Sample.NotFound "validator"))
     = {| QuerierResult.Ok :=
            Some {| QueryResult.Ok := None;
                    QueryResult.Err := "validator not found" |};
          QuerierResult.Err := None |}.
Proof.
  split.
  - exact (proj1 (proj2 (ToQuerierResult_tiers Sample.ToSystemError (Some "x")))
             Sample.OutOfGas _ eq_refl).
  - exact (proj2 (proj2 (ToQuerierResult_tiers Sample.ToSystemError (Some "x")))
             (Sample.NotFound "validator") eq_refl).
Defined.

Lemma Sample_ext_roundtrip (n : string) (v : carrier (Sample.ext n)) :
  true = true ->
  exists j, enc (Sample.ext n) v = ok (render j) /\ wf j = true
            /\ (depth j <= maxNestingDepth)%N /\ j <> JNull
            /\ dec (Sample.ext n) (node_of j) (zero (Sample.ext n)) = ok v.
Proof.
  intros _. destruct v. exists (JObj []).
  repeat split; try discriminate.
Defined.

Lemma Sample_SystemError_roundtrip (e : SystemError.t) :
  true = true ->
  exists j, Sample.SystemError_enc e = ok (render j) /\ wf j = true
            /\ (depth j <= maxNestingDepth)%N /\ j <> JNull
            /\ Sample.SystemError_dec (node_of j) SystemError.zero_value
               = ok SystemError.zero_value.
Proof.
  intros _. exists (JObj []). repeat split; try discriminate.
Defined.

(** A result with bytes, a range entry and a balance query come back
    as they were. *)
Lemma wire_round_trip_witness :
  (exists s,
      QueryResult.MarshalJSON {| QueryResult.Ok := Some "abc"; QueryResult.Err := "" |}
      = ok s
      /\ QueryResult.Unmarshal (Some s) QueryResult.zero_value
         = ok {| QueryResult.Ok := Some "abc"; QueryResult.Err := "" |})
  /\ (exists s,
        RawRangeEntry.MarshalJSON
          {| RawRangeEntry.Key := Some "k"; RawRangeEntry.Value := None |} = ok s
        /\ RawRangeEntry.UnmarshalJSON (Some s)
             {| RawRangeEntry.Key := None; RawRangeEntry.Value := None |}
           = ok {| RawRangeEntry.Key := Some "k"; RawRangeEntry.Value := None |})
  /\ (exists s,
        Marshal Sample.codecs BalanceQuery ("wasm1xyz", ("ucosm", tt)) = ok s
        /\ Unmarshal Sample.codecs BalanceQuery (Some s)
             (zero_of Sample.codecs BalanceQuery)
           = ok ("wasm1xyz", ("ucosm", tt))).
Proof.
  pose proof (wire_round_trip Sample.ext Sample.SystemError_enc Sample.SystemError_dec
                (fun _ _ => true) (fun _ v => v)
                (fun _ => true) (fun _ => SystemError.zero_value)
                Sample_ext_roundtrip Sample_SystemError_roundtrip) as (HQ & HR & HD).
  split; [|split].
  - destruct (HQ {| QueryResult.Ok := Some "abc"; QueryResult.Err := "" |} eq_refl)
      as (s & Es & _ & _ & _ & F).
    exists s. split; [exact Es|]. apply F. left. repeat constructor.
  - apply HR.
  - rewrite Forall_forall in HD.
    assert (I : In ("BalanceQuery", BalanceQuery) declarations)
      by (do 6 right; left; reflexivity).
    destruct (HD _ I ("wasm1xyz", ("ucosm", tt)) eq_refl) as (s & Es & Ds & _).
    exists s. split; [exact Es|].
    cbn [snd] in Es. injection Es as <-. apply Ds; [discriminate|]. repeat split.
Defined.

(** A bank query that holds a balance query is written with the one
    member [balance]. *)
Lemma unions_write_populated_witness :
  exists s text m,
    Marshal Sample.codecs BankQuery
      (None, (Some ("wasm1xyz", ("ucosm", tt)), (None, (None, (None, tt))))) = ok s
    /\ scan s = ok (NObj text m)
    /\ map fst m = ["balance"].
Proof.
  pose proof (unions_write_populated Sample.ext Sample.SystemError_enc
                Sample.SystemError_dec (fun _ _ => true) (fun _ v => v)
                (fun _ => true) (fun _ => SystemError.zero_value)
                Sample_ext_roundtrip Sample_SystemError_roundtrip) as (HU & _).
  rewrite Forall_forall in HU.
  assert (I : In ("BankQuery", BankQuery) unions)
    by (do 2 right; left; reflexivity).
  exact (HU _ I (None, (Some ("wasm1xyz", ("ucosm", tt)), (None, (None, (None, tt)))))
           eq_refl).
Defined.

(** A range response without a next key is written with both members,
    the second [null]. *)
Lemma fields_written_witness :
  exists s text m,
    Marshal Sample.codecs RawRangeResponse (tt, (None, tt)) = ok s
    /\ scan s = ok (NObj text m)
    /\ map fst m = ["data"; "next_key"].
Proof.
  pose proof (fields_written Sample.ext Sample.SystemError_enc
                Sample.SystemError_dec (fun _ _ => true) (fun _ v => v)
                (fun _ => true) (fun _ => SystemError.zero_value)
                Sample_ext_roundtrip Sample_SystemError_roundtrip) as (HD & _).
  rewrite Forall_forall in HD.
  assert (I : In ("RawRangeResponse", RawRangeResponse) declarations)
    by (do 50 right; left; reflexivity).
  destruct (HD _ I (tt, (None, tt)) eq_refl) as (s & text & m & Es & Ss & Km & _).
  exists s, text, m. auto.
Defined.

(** ** The range scan *)

(** Keys are ordered as byte strings, lexicographically. *)
Lemma ascii_compare_le_lt (a k b : ascii) :
  Ascii.compare a k <> Gt -> Ascii.compare k b = Lt -> Ascii.compare a b = Lt.
Proof.
  unfold Ascii.compare. intros H1 H2. apply N.compare_lt_iff.
  destruct (N.compare_spec (N_of_ascii k) (N_of_ascii b)); try discriminate.
  destruct (N.compare_spec (N_of_ascii a) (N_of_ascii k)); [lia | lia | congruence].
Qed.

Lemma compare_le_lt : forall a k b,
  String.compare a k <> Gt -> String.compare k b = Lt -> String.compare a b = Lt.
Proof.
  induction a as [|ca a IH]; intros [|ck k] [|cb b]; cbn [String.compare];
    try congruence.
  destruct (Ascii.compare ca ck) eqn:C1; try congruence;
    destruct (Ascii.compare ck cb) eqn:C2; try congruence; intros H1 H2.
  - apply Ascii.compare_eq_iff in C1, C2. subst.
    assert (R : Ascii.compare cb cb = Eq) by (unfold Ascii.compare; apply N.compare_refl).
    rewrite R. now apply (IH k b).
  - apply Ascii.compare_eq_iff in C1. subst. now rewrite C2.
  - apply Ascii.compare_eq_iff in C2. subst. now rewrite C1.
  - rewrite (ascii_compare_le_lt ca ck cb); congruence.
Qed.

Lemma leb_ltb_trans (a k b : string) :
  String.leb a k = true -> String.ltb k b = true -> String.ltb a b = true.
Proof.
  unfold String.leb, String.ltb. intros H1 H2.
  rewrite (compare_le_lt a k b); [reflexivity | |].
  - destruct (String.compare a k); congruence.
  - destruct (String.compare k b); congruence.
Qed.

Lemma within_empty (a b k : string) :
  String.ltb a b = false -> RangeScan.within (Some a) (Some b) k = false.
Proof.
  intros H. unfold RangeScan.within.
  destruct (String.leb a k) eqn:L; [|reflexivity].
  destruct (String.ltb k b) eqn:R; [|reflexivity].
  rewrite (leb_ltb_trans a k b L R) in H. discriminate.
Qed.

(** C9. When [start] is not strictly before [end], the scan returns no
    entry and no [next_key], in ascending as in descending order. *)
Theorem scan_empty (store : list (string * string)) (a b : string)
  (limit : nat) (order : RangeScan.Order) :
  String.ltb a b = false ->
  RangeScan.scan store (Some a) (Some b) limit order = ([], None).
Proof.
  intros H. unfold RangeScan.scan.
  assert (F : filter (fun kv => RangeScan.within (Some a) (Some b) (fst kv)) store = []).
  { induction store as [|kv store IH]; [reflexivity|].
    cbn [filter]. now rewrite (within_empty a b (fst kv) H). }
  rewrite F. destruct order; cbn [rev]; destruct limit; reflexivity.
Qed.

(** The scenario of the spec: [start] and [end] both ["a"], limit 10. *)
Lemma scan_empty_witness :
  RangeScan.scan Sample.store (Some "a") (Some "a") 10 RangeScan.Ascending
  = ([], None)
  /\ RangeScan.scan Sample.store (Some "a") (Some "a") 10 RangeScan.Descending
     = ([], None).
Proof.
  split; apply scan_empty; reflexivity.
Defined.

(** The same store scanned over bounds in order, two entries a page. *)
Example scan_pages :
  RangeScan.scan Sample.store (Some "a") None 2 RangeScan.Ascending
  = ([ {| RawRangeEntry.Key := Some "a"; RawRangeEntry.Value := Some "1" |};
       {| RawRangeEntry.Key := Some "b"; RawRangeEntry.Value := Some "2" |} ],
     Some "c")
  /\ RangeScan.scan Sample.store None (Some "c") 2 RangeScan.Descending
     = ([ {| RawRangeEntry.Key := Some "b"; RawRangeEntry.Value := Some "2" |};
          {| RawRangeEntry.Key := Some "a"; RawRangeEntry.Value := Some "1" |} ],
        None).
Proof. split; reflexivity. Qed.

(** * Further properties of [queries.go] *)

(** ** What [QueryResult.MarshalJSON] writes *)

(** X1. [QueryResult.MarshalJSON] returns no error, and what it writes is
    never the empty object: for a message that is well-formed UTF-8 it
    is a JSON object in which [ok] is there unless there is a message
    and no bytes, and [error] is there exactly when there is a
    message. *)
Theorem MarshalJSON_never_empty (q : QueryResult.t) :
  exists s,
    QueryResult.MarshalJSON q = ok s
    /\ s <> "{}"
    /\ (QueryResult.good q = true ->
        exists text m,
          scan s = ok (NObj text m)
          /\ m <> []
          /\ map fst m
             = ((if Nat.eqb (len (QueryResult.Ok q)) 0
                    && negb (Nat.eqb (String.length (QueryResult.Err q)) 0)
                 then [] else ["ok"])
                ++ (if Nat.eqb (String.length (QueryResult.Err q)) 0
                    then [] else ["error"]))%list).
Proof.
  eexists. split; [apply QueryResult_wire|]. split.
  - destruct (Nat.eqb (len (QueryResult.Ok q)) 0);
      destruct (Nat.eqb (String.length (QueryResult.Err q)) 0); discriminate.
  - intros G. destruct (QueryResult_members q G) as (s & text & m & Es & Ss & Km & _).
    rewrite QueryResult_wire in Es. injection Es as <-.
    exists text, m. split; [exact Ss|]. rewrite QueryResult_written. split.
    + intros ->. destruct q as [[[|c b]|] [|c' e]]; discriminate Km.
    + exact Km.
Qed.

(** X2. The wire form is stable: the result that comes back from the
    encoding of [q] is written as [q] was, though it need not be
    [q]. *)
Theorem MarshalJSON_stable (q q' : QueryResult.t) (s : string) :
  QueryResult.good q = true ->
  QueryResult.MarshalJSON q = ok s ->
  QueryResult.Unmarshal (Some s) QueryResult.zero_value = ok q' ->
  QueryResult.MarshalJSON q' = ok s.
Proof.
  intros G M D. destruct (QueryResult_roundtrip q G) as (s' & M' & D').
  rewrite M in M'. injection M' as <-. rewrite D in D'. injection D' as ->.
  rewrite <- M. rewrite !QueryResult_wire.
  destruct q as [[[|c b]|] [|c' e]]; reflexivity.
Qed.

Lemma MarshalJSON_stable_witness :
  QueryResult.MarshalJSON {| QueryResult.Ok := Some ""; QueryResult.Err := "" |}
  = ok QueryResult.empty_ok.
Proof.
  exact (@MarshalJSON_stable QueryResult.zero_value
           {| QueryResult.Ok := Some ""; QueryResult.Err := "" |}
           QueryResult.empty_ok eq_refl eq_refl eq_refl).
Defined.

(** ** What decoding a [QueryResult] reads *)

(** X3. An [ok] member is read as base64, and refused when it is none; an
    [error] member is the message. *)
Theorem QueryResult_reads_member (data : bytes) (k s : string) :
  parse (content data) = ok (JObj [(k, JStr s)]) ->
  k = "ok" \/ k = "error" ->
  QueryResult.Unmarshal data QueryResult.zero_value
  = if String.eqb k "ok"
    then match Base64.decode s with
         | Some b => ok {| QueryResult.Ok := Some b; QueryResult.Err := "" |}
         | None => err CorruptInputError
         end
    else ok {| QueryResult.Ok := None; QueryResult.Err := s |}.
Proof.
  intros P K. apply parse_ok in P as (n & R & Pn).
  apply plain_obj in Pn as (t & m & -> & Hm).
  destruct m as [|[k' x] [|? ?]]; try discriminate Hm.
  cbn [map fst snd] in Hm. injection Hm as -> Hx.
  apply plain_str in Hx as (tx & ->).
  unfold QueryResult.Unmarshal, Unmarshal. rewrite R.
  destruct K as [-> | ->]; cbn; [destruct (Base64.decode s)|]; reflexivity.
Qed.

Lemma QueryResult_reads_member_witness :
  QueryResult.Unmarshal (Some ("{" ++ quoted "ok" ++ ":" ++ quoted "YWJj" ++ "}"))
    QueryResult.zero_value
  = ok {| QueryResult.Ok := Some "abc"; QueryResult.Err := "" |}.
Proof.
  exact (@QueryResult_reads_member
           (Some ("{" ++ quoted "ok" ++ ":" ++ quoted "YWJj" ++ "}")) "ok" "YWJj"
           eq_refl (or_introl eq_refl)).
Defined.

(** ** Keys that name no field *)

Section Skipped.

Variable named : string -> codec.

Lemma has_field_fold (fs : gfields) (k : string) :
  has_field (String.eqb k) fs = true -> has_field (fold_eqb k) fs = true.
Proof.
  induction fs as [|g t tag rest IH]; cbn [has_field]; [discriminate|].
  intros H. apply orb_true_iff in H as [H | H].
  - apply String.eqb_eq in H. subst k. unfold fold_eqb.
    rewrite String.eqb_refl. reflexivity.
  - rewrite IH by exact H. apply orb_true_r.
Qed.

Lemma unmarshal_field_skip (fs : gfields) (sel : string -> bool) (x : node) :
  forall c, has_field sel fs = false -> unmarshal_field named fs sel x c = ok c.
Proof.
  induction fs as [|g t tag rest IH]; intros c H; cbn [unmarshal_field has_field] in *.
  - reflexivity.
  - apply orb_false_iff in H as [H1 H2]. rewrite H1, (IH _ H2).
    destruct c; reflexivity.
Qed.

Lemma unmarshalV_no_known_key (fs : gfields) (n : node) :
  forall c, no_known_key fs (plain n) = true ->
            unmarshalV named (TStruct fs) n c = ok c.
Proof.
  destruct n as [t a|t l|t m]; intros c H.
  - destruct a; try discriminate H. reflexivity.
  - discriminate H.
  - cbn [unmarshalV no_known_key plain] in *. revert c.
    induction m as [|[k x] m IH]; intros c; [reflexivity|].
    cbn [map forallb fst] in H. apply andb_true_iff in H as [H1 H2].
    apply negb_true_iff in H1. cbn [foldM].
    destruct (has_field (String.eqb k) fs) eqn:X.
    + apply has_field_fold in X. congruence.
    + rewrite (unmarshal_field_skip _ _ _ _ H1). cbn [bind]. now apply IH.
Qed.

End Skipped.

(** ** Keys in any case *)

Section AnyCase.

Variable named : string -> codec.

Lemma nodupb_inj (f : string -> string) (l : list string) :
  nodupb (map f l) = true ->
  forall a b, In a l -> In b l -> f a = f b -> a = b.
Proof.
  induction l as [|x r IH]; cbn [map nodupb]; [intros _ a b []|].
  intros H a b Ia Ib F. apply andb_true_iff in H as [H1 H2].
  apply negb_true_iff in H1.
  assert (X : forall y, In y r -> f x <> f y).
  { intros y Iy Fy.
    assert (T : existsb (String.eqb (f x)) (map f r) = true).
    { apply existsb_exists. exists (f y).
      split; [now apply in_map | now apply String.eqb_eq]. }
    congruence. }
  destruct Ia as [<- | Ia], Ib as [<- | Ib]; try reflexivity.
  - now destruct (X b Ib).
  - symmetry in F. now destruct (X a Ia).
  - now apply IH.
Qed.

Lemma has_field_named (fs : gfields) (k : string) :
  has_field (String.eqb k) fs = true -> In k (names fs).
Proof.
  induction fs as [|g t tag rest IH]; cbn [has_field names]; [discriminate|].
  intros H. apply orb_true_iff in H as [H | H].
  - left. symmetry. now apply String.eqb_eq.
  - right. now apply IH.
Qed.

Lemma unmarshal_field_ext (fs : gfields) (sel sel' : string -> bool) (x : node) :
  (forall n, In n (names fs) -> sel n = sel' n) ->
  forall c, unmarshal_field named fs sel x c = unmarshal_field named fs sel' x c.
Proof.
  induction fs as [|g t tag rest IH]; intros H c; [reflexivity|].
  cbn [unmarshal_field names] in *.
  rewrite (H _ (or_introl eq_refl)), IH; [reflexivity|].
  intros n I. apply H. now right.
Qed.

Lemma decode_member_any_case (fs : gfields) (k n : string) (x : node) :
  nodupb (map fold_name (names fs)) = true ->
  In n (names fs) -> fold_name k = fold_name n ->
  forall c, decode_member named fs (k, x) c = decode_member named fs (n, x) c.
Proof.
  intros D I F c. unfold decode_member.
  rewrite (ReflectFacts.has_field_name fs n I).
  destruct (has_field (String.eqb k) fs) eqn:X.
  - apply has_field_named in X.
    now rewrite (nodupb_inj fold_name (names fs) D k n X I F).
  - apply unmarshal_field_ext. intros m Im. unfold fold_eqb. rewrite F.
    destruct (String.eqb n m) eqn:N.
    + apply String.eqb_eq in N. subst m. apply String.eqb_refl.
    + apply String.eqb_neq. intros Fm. apply String.eqb_neq in N. apply N.
      exact (nodupb_inj fold_name (names fs) D n m I Im Fm).
Qed.

Lemma foldM_app {A B : Type} (f : B -> A -> result A) (l1 l2 : list B) :
  forall a, foldM f (l1 ++ l2)%list a = (a' <- foldM f l1 a ;; foldM f l2 a').
Proof.
  induction l1 as [|x l1 IH]; intros a; [reflexivity|].
  cbn [app foldM]. destruct (f x a) as [a'|e]; [|reflexivity].
  cbn [bind]. apply IH.
Qed.

Lemma reads_any_case_struct (fs : gfields) :
  nodupb (map fold_name (names fs)) = true -> reads_any_case named (TStruct fs).
Proof.
  intros D data data' t1 t2 m1 m2 k n x c I F P P'. unfold Unmarshal.
  rewrite P, P'. cbn [bind]. rewrite !ReflectFacts.unmarshalV_struct, !foldM_app.
  destruct (foldM (decode_member named fs) m1 c) as [c'|e]; [|reflexivity].
  cbn [bind foldM]. now rewrite (decode_member_any_case fs k n x D I F).
Qed.

End AnyCase.

(** ** The dispatcher, input by input *)

Section Dispatch.

Variable ext : string -> codec.
Variable SystemError_enc : SystemError.t -> result string.
Variable SystemError_dec : node -> SystemError.t -> result SystemError.t.
Context {E : Type} {E_error : GoError E} {json_error : GoError error}.
Variable ToSystemError : E -> option SystemError.t.

Local Abbreviation codecs := (named ext SystemError_enc SystemError_dec).
Local Abbreviation Querier := (@Querier ext SystemError_enc SystemError_dec E).

(** X4. Text that is no JSON, and JSON that is neither an object nor
    [null], comes back as an invalid request; the querier is not
    asked. *)
Theorem RustQuery_refuses_shape {Q : Type} (querier : Querier Q)
  (binRequest : bytes) (gasLimit : N) (st : Q) :
  refused_shape (parse (content binRequest)) = true ->
  exists msg,
    RustQuery ToSystemError querier binRequest gasLimit st
    = (invalid_request msg binRequest, st).
Proof.
  intros H. unfold RustQuery, Unmarshal.
  destruct (parse (content binRequest)) as [j|e] eqn:P.
  - apply parse_ok in P as (n & R & <-). rewrite R. cbn [bind].
    destruct n as [t a|t l|t m]; [destruct a| |];
      try discriminate H; eexists; reflexivity.
  - apply parse_err in P. rewrite P. eexists. reflexivity.
Qed.

(** X5. [null], and an object none of whose keys is a field of
    [QueryRequest], is no invalid request: it is the request with
    nothing set, and goes to the querier. *)
Theorem RustQuery_ignores_unknown_keys {Q : Type} (querier : Querier Q)
  (binRequest : bytes) (gasLimit : N) (st : Q) (j : value) :
  parse (content binRequest) = ok j ->
  no_known_key (fields_of QueryRequest) j = true ->
  RustQuery ToSystemError querier binRequest gasLimit st
  = (let '((bz, er), st') :=
       Query querier (zero_of codecs QueryRequest) gasLimit st in
     (ToQuerierResult ToSystemError bz er, st')).
Proof.
  intros P H. apply parse_ok in P as (n & R & <-).
  unfold RustQuery, Unmarshal. rewrite R. cbn [bind].
  pose proof (unmarshalV_no_known_key codecs (fields_of QueryRequest) n
                (zero_of codecs QueryRequest) H) as U.
  change (TStruct (fields_of QueryRequest)) with QueryRequest in U.
  rewrite U. reflexivity.
Qed.

(** X6. The limit of a range query is a [uint16]: a request with a limit
    below 65536 reaches the querier with that limit, one with a
    larger limit is an invalid request. The order is any string. *)
Theorem raw_range_limit {Q : Type} (querier : Querier Q)
  (binRequest : bytes) (gasLimit : N) (st : Q) (addr order : string) (limit : N) :
  parse (content binRequest)
  = ok (JObj [("wasm",
          JObj [("raw_range",
             JObj [("contract_addr", JStr addr);
                   ("limit", JNum (Decimal10.format limit));
                   ("order", JStr order)])])]) ->
  ((limit < 65536)%N ->
     RustQuery ToSystemError querier binRequest gasLimit st
     = (let '((bz, er), st') :=
          Query querier (raw_range_request codecs addr None None limit order)
            gasLimit st in
        (ToQuerierResult ToSystemError bz er, st')))
  /\ ((65536 <= limit)%N ->
        exists msg,
          RustQuery ToSystemError querier binRequest gasLimit st
          = (invalid_request msg binRequest, st)).
Proof.
  intros P. apply parse_ok in P as (n & R & Pn).
  apply plain_obj in Pn as (t1 & m1 & -> & H1).
  destruct m1 as [|[k1 n2] [|? ?]]; try discriminate H1.
  cbn [map fst snd] in H1. injection H1 as -> H2.
  apply plain_obj in H2 as (t2 & m2 & -> & H2).
  destruct m2 as [|[k2 n3] [|? ?]]; try discriminate H2.
  cbn [map fst snd] in H2. injection H2 as -> H3.
  apply plain_obj in H3 as (t3 & m3 & -> & H3).
  destruct m3 as [|[ka na] [|[kb nb] [|[kc nc] [|? ?]]]]; try discriminate H3.
  cbn [map fst snd] in H3. injection H3 as -> Ha -> Hb -> Hc.
  apply plain_str in Ha as (ta & ->). apply plain_num in Hb as (tb & ->).
  apply plain_str in Hc as (tc & ->).
  unfold RustQuery, Unmarshal. rewrite R. cbn [bind].
  match goal with
  | |- context [unmarshalV codecs QueryRequest ?n ?z] =>
      assert (U : unmarshalV codecs QueryRequest n z
                  = if (limit <? 65536)%N
                    then ok (raw_range_request codecs addr None None limit order)
                    else err (UnmarshalTypeError "number" "uint"))
  end.
  { cbn -[Decimal10.format Decimal10.parse N.ltb N.pow].
    rewrite Decimal10Facts.parse_format.
    change (2 ^ 16)%N with 65536%N.
    destruct (limit <? 65536)%N; reflexivity. }
  rewrite U. split; intros L.
  - apply N.ltb_lt in L. rewrite L. reflexivity.
  - apply N.ltb_ge in L. rewrite L. eexists. reflexivity.
Qed.

(** X8. A [null] leaves a pointer branch [nil], as if the member were not
    there; a [null] custom member is a custom payload, the text
    [null]. *)
Theorem null_member (data : bytes) (k : string) :
  parse (content data) = ok (JObj [(k, JNull)]) ->
  In k (names (fields_of QueryRequest)) ->
  Unmarshal codecs QueryRequest data (zero_of codecs QueryRequest)
  = ok (if String.eqb k "custom" then custom_request codecs "null"
        else zero_of codecs QueryRequest).
Proof.
  intros P I. apply parse_ok in P as (n & R & Pn).
  apply plain_obj in Pn as (t & m & -> & Hm).
  destruct m as [|[k' x] [|? ?]]; try discriminate Hm.
  cbn [map fst snd] in Hm. injection Hm as -> Hx.
  apply plain_null in Hx as (tx & ->).
  pose proof (@scan_verbatim _ _ (proj1 (@read_scan _ _ R))) as V. cbn in V.
  rewrite andb_true_r in V. apply String.eqb_eq in V. subst tx.
  unfold Unmarshal. rewrite R. cbn [bind].
  cbn in I. repeat destruct I as [<- | I]; try reflexivity. destruct I.
Qed.

(** X9. A custom payload that is not JSON makes the encoding of the
    request fail. *)
Theorem custom_must_be_json (v : denote codecs QueryRequest) (raw : string)
  (e : error) :
  fst (snd v) = Some raw -> raw <> "" -> parse raw = err e ->
  exists e', Marshal codecs QueryRequest v = err e'.
Proof.
  destruct v as [b [c r]]. cbn [fst snd]. intros -> N P. apply parse_err in P.
  unfold Marshal. cbn [marshalV QueryRequest struct fold_right field].
  cbn [marshal_fields fst snd].
  assert (X : is_empty codecs TRawMessage (Some raw) = false)
    by (destruct raw; [congruence | reflexivity]).
  match goal with
  | |- context [if ?b then _ else _] => destruct b
  end.
  - rewrite X. cbn [andb]. cbn [marshalV]. unfold compact. rewrite P.
    eexists. reflexivity.
  - destruct (marshalV codecs (TPtr BankQuery) b) as [j|e0];
      [|eexists; reflexivity].
    cbn [bind]. rewrite X. cbn [andb]. cbn [marshalV]. unfold compact. rewrite P.
    eexists. reflexivity.
Qed.

(** X7. In every struct of [queries.go] a member is read whatever the case
    of its key: two inputs that hold the same members, text for text,
    but for the case of one key, decode alike. *)
Theorem keys_in_any_case :
  Forall (fun nt => reads_any_case codecs (snd nt)) declarations.
Proof. repeat constructor; apply reads_any_case_struct; reflexivity. Qed.

(** ** The outcomes of a query, as they are written *)

(** X10. An answer without error is written as the one member [ok], the
    bytes in base64: the empty string for no bytes. *)
Theorem success_on_the_wire (response : bytes) :
  exists q,
    ToQuerierResult ToSystemError response None
    = {| QuerierResult.Ok := Some q; QuerierResult.Err := None |}
    /\ QueryResult.MarshalJSON q
       = ok (render (JObj [("ok", JStr (Base64.encode (content response)))])).
Proof.
  eexists. split; [reflexivity|]. rewrite QueryResult_wire.
  destruct response as [[|c b]|]; reflexivity.
Qed.

(** X11. An error that is no system error and has a message is written as
    the one member [error], the message; the bytes that came with it
    are not written. *)
Theorem failure_on_the_wire (response : bytes) (e : E) :
  ToSystemError e = None -> Error e <> "" ->
  exists q,
    ToQuerierResult ToSystemError response (Some e)
    = {| QuerierResult.Ok := Some q; QuerierResult.Err := None |}
    /\ QueryResult.MarshalJSON q
       = ok (render (JObj [("error", JStr (Error e))])).
Proof.
  intros S N. cbn [ToQuerierResult]. rewrite S. eexists. split; [reflexivity|].
  rewrite QueryResult_wire. cbn [QueryResult.Ok QueryResult.Err len].
  destruct (Error e); [congruence | reflexivity].
Qed.

(** X12. An error that is no system error and has the empty message is
    written as a success without data. *)
Theorem silent_failure_on_the_wire (response : bytes) (e : E) :
  ToSystemError e = None -> Error e = "" ->
  exists q,
    ToQuerierResult ToSystemError response (Some e)
    = {| QuerierResult.Ok := Some q; QuerierResult.Err := None |}
    /\ QueryResult.MarshalJSON q = ok QueryResult.empty_ok
    /\ forall q',
         ToQuerierResult ToSystemError None None
         = {| QuerierResult.Ok := Some q'; QuerierResult.Err := None |} ->
         QueryResult.MarshalJSON q' = QueryResult.MarshalJSON q.
Proof.
  intros S N. cbn [ToQuerierResult]. rewrite S, N. eexists.
  split; [reflexivity|]. split; [reflexivity|].
  intros q' [= <-]. reflexivity.
Qed.

End Dispatch.

(** ** What [RawRangeEntry.UnmarshalJSON] refuses, and with what *)

(** X14. Elements that read as bytes, but not two of them: the error tells
    how many there were, none for [null]. *)
Theorem RawRangeEntry_wrong_length (data : bytes) (j : value) (l : list value)
  (bs : list bytes) (r : RawRangeEntry.t) :
  parse (content data) = ok j -> elements_of j = Some l ->
  mapM unmarshal_bytes l = ok bs -> List.length l <> 2 ->
  RawRangeEntry.UnmarshalJSON data r
  = err (Errorf ("invalid RawRange entry: expected array of length 2, got "
                 ++ Decimal10.format (N.of_nat (List.length l)))).
Proof.
  intros P L M N.
  destruct j as [| | | |l0|]; try discriminate L; injection L as <-.
  - apply parse_ok in P as (n & R & Pn). apply plain_null in Pn as (t & ->).
    unfold RawRangeEntry.UnmarshalJSON, Unmarshal. rewrite R. reflexivity.
  - rewrite (RawRangeEntry_array data r P). unfold fmap.
    rewrite M. cbn [bind]. apply mapM_length in M.
    destruct bs as [|a [|b [|c bs]]]; cbn [List.length] in M;
      try (rewrite <- M; reflexivity).
    now destruct N.
Qed.

Lemma RawRangeEntry_wrong_length_witness :
  RawRangeEntry.UnmarshalJSON (Some ("[" ++ quoted "AA==" ++ "]"))
    {| RawRangeEntry.Key := None; RawRangeEntry.Value := None |}
  = err (Errorf "invalid RawRange entry: expected array of length 2, got 1").
Proof.
  refine (@RawRangeEntry_wrong_length (Some ("[" ++ quoted "AA==" ++ "]"))
            (JArr [JStr "AA=="]) [JStr "AA=="] [Some (String Ascii.zero "")] _
            eq_refl eq_refl eq_refl _).
  discriminate.
Defined.

(** X15. Anything but an array or [null] is refused: an object with keys
    too. *)
Theorem RawRangeEntry_refuses_other_shapes (data : bytes) (j : value)
  (r : RawRangeEntry.t) :
  parse (content data) = ok j -> elements_of j = None ->
  exists e, RawRangeEntry.UnmarshalJSON data r = err e.
Proof.
  intros P L. apply parse_ok in P as (n & R & <-).
  unfold RawRangeEntry.UnmarshalJSON, Unmarshal. rewrite R.
  destruct n as [t a|t l|t m]; [destruct a| |];
    try discriminate L; eexists; reflexivity.
Qed.

Lemma RawRangeEntry_refuses_other_shapes_witness :
  exists e,
    RawRangeEntry.UnmarshalJSON
      (Some ("{" ++ quoted "key" ++ ":" ++ quoted "AA==" ++ ","
             ++ quoted "value" ++ ":" ++ quoted "AA==" ++ "}"))
      {| RawRangeEntry.Key := None; RawRangeEntry.Value := None |}
    = err e.
Proof.
  exact (@RawRangeEntry_refuses_other_shapes
           (Some ("{" ++ quoted "key" ++ ":" ++ quoted "AA==" ++ ","
                  ++ quoted "value" ++ ":" ++ quoted "AA==" ++ "}"))
           (JObj [("key", JStr "AA=="); ("value", JStr "AA==")])
           {| RawRangeEntry.Key := None; RawRangeEntry.Value := None |}
           eq_refl eq_refl).
Defined.

(** X16. Two entries that differ are written differently: a [nil] key and
    an empty key are told apart. *)
Theorem RawRangeEntry_MarshalJSON_injective (r r' : RawRangeEntry.t) :
  r <> r' -> RawRangeEntry.MarshalJSON r <> RawRangeEntry.MarshalJSON r'.
Proof.
  intros N H. apply N.
  destruct (RawRangeEntry_roundtrip r r) as (s & Es & Ds).
  destruct (RawRangeEntry_roundtrip r' r) as (s' & Es' & Ds').
  rewrite H, Es' in Es. injection Es as ->. rewrite Ds in Ds'. now injection Ds'.
Qed.

Lemma RawRangeEntry_MarshalJSON_injective_witness :
  RawRangeEntry.MarshalJSON {| RawRangeEntry.Key := None; RawRangeEntry.Value := None |}
  <> RawRangeEntry.MarshalJSON
       {| RawRangeEntry.Key := Some ""; RawRangeEntry.Value := None |}.
Proof.
  apply RawRangeEntry_MarshalJSON_injective. discriminate.
Defined.

(** ** Concrete runs of the above *)

Lemma RustQuery_refuses_shape_witness :
  exists msg,
    RustQuery Sample.ToSystemError Sample.querier (Some "[]") 1000 0%N
    = (invalid_request msg (Some "[]"), 0%N).
Proof.
  exact (RustQuery_refuses_shape Sample.ToSystemError Sample.querier
           (Some "[]") 1000 0%N eq_refl).
Defined.

Lemma RustQuery_ignores_unknown_keys_witness :
  RustQuery Sample.ToSystemError Sample.querier (Some Texts.unknown_field) 1000 0%N
  = ({| QuerierResult.Ok :=
          Some {| QueryResult.Ok := Some "answer"; QueryResult.Err := "" |};
        QuerierResult.Err := None |},
     1%N).
Proof.
  exact (RustQuery_ignores_unknown_keys Sample.ToSystemError Sample.querier
           (Some Texts.unknown_field) 1000 0%N
           (j := JObj [("unknown_field", JNum "1")]) eq_refl eq_refl).
Defined.

Lemma raw_range_limit_witness :
  exists msg,
    RustQuery Sample.ToSystemError Sample.querier (Some Texts.limit_too_large) 1000 0%N
    = (invalid_request msg (Some Texts.limit_too_large), 0%N).
Proof.
  refine (proj2 (raw_range_limit Sample.ToSystemError Sample.querier
                   (Some Texts.limit_too_large) 1000 0%N
                   (addr := "c") (order := "ascending") 65536%N eq_refl) _).
  discriminate.
Defined.

Lemma null_member_witness :
  Unmarshal Sample.codecs QueryRequest (Some Texts.custom_null)
    (zero_of Sample.codecs QueryRequest)
  = ok (custom_request Sample.codecs "null").
Proof.
  refine (null_member Sample.ext Sample.SystemError_enc Sample.SystemError_dec
            (Some Texts.custom_null) (k := "custom") eq_refl _).
  right. left. reflexivity.
Defined.

Lemma custom_must_be_json_witness :
  exists e, Marshal Sample.codecs QueryRequest (custom_request Sample.codecs "{") = err e.
Proof.
  refine (custom_must_be_json (ext := Sample.ext)
            (SystemError_enc := Sample.SystemError_enc)
            (SystemError_dec := Sample.SystemError_dec)
            (custom_request Sample.codecs "{") (raw := "{") (e := SyntaxError)
            eq_refl _ eq_refl).
  discriminate.
Defined.

Lemma failure_on_the_wire_witness :
  exists q,
    ToQuerierResult Sample.ToSystemError (Some "left over")
      (Some (Sample.NotFound "validator"))
    = {| QuerierResult.Ok := Some q; QuerierResult.Err := None |}
    /\ QueryResult.MarshalJSON q
       = ok (render (JObj [("error", JStr "validator not found")])).
Proof.
  refine (failure_on_the_wire Sample.ToSystemError (Some "left over")
            (Sample.NotFound "validator") eq_refl _).
  discriminate.
Defined.

Lemma silent_failure_on_the_wire_witness :
  exists q,
    @ToQuerierResult string Bare.message Bare.ToSystemError (Some "left over") (Some "")
    = {| QuerierResult.Ok := Some q; QuerierResult.Err := None |}
    /\ QueryResult.MarshalJSON q = ok QueryResult.empty_ok.
Proof.
  destruct (@silent_failure_on_the_wire string Bare.message Bare.ToSystemError
              (Some "left over") "" eq_refl eq_refl) as (q & H1 & H2 & _).
  exists q. split; assumption.
Defined.

(** The answer to a supply query is written with the one member [ok]. *)
Lemma RustQuery_one_member_witness :
  exists s text k x,
    Marshal Sample.codecs QuerierResult.struct_type
      (QuerierResult_to_struct Sample.ext Sample.SystemError_enc Sample.SystemError_dec
         (fst (RustQuery Sample.ToSystemError Sample.querier
                 (Some Sample.supply_query) 1000 0%N))) = ok s
    /\ scan s = ok (NObj text [(k, x)])
    /\ (k = "ok" \/ k = "error").
Proof.
  exact (RustQuery_one_member Sample.ToSystemError
           (fun _ _ => true) (fun _ v => v)
           (fun _ => true) (fun _ => SystemError.zero_value)
           Sample_ext_roundtrip Sample_SystemError_roundtrip
           Sample.querier (Some Sample.supply_query) 1000 0%N eq_refl).
Defined.

Lemma RustQuery_accepts_encoded_witness :
  RustQuery Sample.ToSystemError Sample.querier (Some Texts.raw_range) 1000 0%N
  = ({| QuerierResult.Ok :=
          Some {| QueryResult.Ok := Some "answer"; QueryResult.Err := "" |};
        QuerierResult.Err := None |},
     1%N).
Proof.
  refine (RustQuery_accepts_encoded Sample.ToSystemError
            (fun _ _ => true) (fun _ v => v)
            (fun _ => true) (fun _ => SystemError.zero_value)
            Sample_ext_roundtrip Sample_SystemError_roundtrip
            Sample.querier 1000 0%N
            (raw_range_request Sample.codecs "c" (Some "a") None 10 "ascending")
            eq_refl eq_refl _).
  discriminate.
Defined.

(** [BANK] is read as [bank]. *)
Example bank_in_capitals :
  Unmarshal Sample.codecs QueryRequest (Some Texts.bank_upper)
    (zero_of Sample.codecs QueryRequest)
  = Unmarshal Sample.codecs QueryRequest (Some Texts.bank)
      (zero_of Sample.codecs QueryRequest).
Proof. reflexivity. Qed.
